(** * The submission pipeline of [app.py]: rate limiter, token, validation

    A shallow embedding of the Flask backend in [src/app.py] and the
    properties of its anti-abuse pipeline.

    Conventions of the embedding.
    - Timestamps ([time.time()]) are floats, kept as the rationals [Q] they
      denote. The limiter subtracts two of them: [float_sub] rounds the
      difference to the nearest float, as Python does. [int(...)] of a
      timestamp truncates towards zero.
    - Python strings are [string]s, a character being a code point below 256.
    - The process-wide [request_log] (a [defaultdict(deque)]) is a
      [gmap string (list Q)], oldest timestamp first; reading a missing key
      gives the empty window.
    - Module-level state, the session, the clock, the token generator, the
      process environment and the mail transport are the fields of [World];
      view functions are computations in the state-and-exception monad [M].
    - The [session] of a world is the session of the request being handled.
      The application configures no session store, so Flask keeps the
      session in a signed cookie: the client presents it with a request and
      gets it back, as the view left it, with the response ([serve]). A run
      of [handle_requests] is a client that always presents the cookie of
      the last response.
    - An exception that leaves a view ends the request with the error page
      of the framework, which is no answer of the views.
    - Calls of [app.logger] change nothing the views read and are left out. *)

From Stdlib Require Import QArith Qround Qabs Qpower Lqa ZArith Ascii.
From stdpp Require Import gmap strings list fin_maps.

(** ** The sliding-window limiter (app.py, lines 20-38) *)

Definition RATE_LIMIT_MAX : nat := 5.
Definition RATE_LIMIT_WINDOW : Q := 600.

Abbreviation RequestLog := (gmap string (list Q)).

(** [request_log[ip]]: a missing key reads as the empty deque. *)
Definition window_of (request_log : RequestLog) (ip : string) : list Q :=
  default [] (request_log !! ip).

(** *** The subtraction of two floats

    A Python [float] is an IEEE 754 double: a number [m * 2 ^ e] whose
    significand [m] has at most 53 bits. [a - b] is the exact difference
    rounded to the nearest such number, ties to the even significand. The
    exponent is left unbounded here: a difference of two doubles too small
    for a normal double is itself a double, and one too large compares with
    [RATE_LIMIT_WINDOW] as infinity does. *)

(** The exponent of the binade of [x]: [2 ^ binade x <= |x| < 2 ^ (binade x + 1)]
    for [x] other than zero. *)
Definition binade (x : Q) : Z :=
  let k := (Z.log2 (Z.abs (Qnum x)) - Z.log2 (Z.pos (Qden x)))%Z in
  if Qle_bool (2 ^ k) (Qabs x) then k else (k - 1)%Z.

(** The nearest integer, the even one of two that are equally near. *)
Definition round_half_even (x : Q) : Z :=
  let f := Qfloor x in
  match (x - inject_Z f ?= 1 # 2)%Q with
  | Lt => f
  | Gt => (f + 1)%Z
  | Eq => if Z.even f then f else (f + 1)%Z
  end.

(** The float nearest to [x]: [x] in units of the last of the 53 bits of its
    binade, rounded to an integer. *)
Definition float_round (x : Q) : Q :=
  if Qeq_bool x 0 then 0%Q
  else
    let ulp := (2 ^ (binade x - 52))%Q in
    (inject_Z (round_half_even (x / ulp)) * ulp)%Q.

(** [a - b] on floats. *)
Definition float_sub (a b : Q) : Q := float_round (a - b).

(** The loop guard [now_ts - window[0] > RATE_LIMIT_WINDOW]. *)
Definition expired (now_ts t : Q) : bool :=
  if Qlt_le_dec RATE_LIMIT_WINDOW (float_sub now_ts t) then true else false.

(** [while window and now_ts - window[0] > RATE_LIMIT_WINDOW: window.popleft()] *)
Fixpoint popleft_expired (now_ts : Q) (window : list Q) : list Q :=
  match window with
  | [] => []
  | t :: rest => if expired now_ts t then popleft_expired now_ts rest else window
  end.

(** [_clear_expired(ip, now_ts)]: the access [request_log[ip]] creates the
    key, and the deque stored under it is mutated in place. *)
Definition _clear_expired (ip : string) (now_ts : Q) (request_log : RequestLog)
  : RequestLog :=
  <[ip := popleft_expired now_ts (window_of request_log ip)]> request_log.

(** The body of [is_rate_limited(ip)] once the clock has been read as
    [now_ts]: the returned boolean and the log left behind. *)
Definition is_rate_limited_at (ip : string) (now_ts : Q) (request_log : RequestLog)
  : bool * RequestLog :=
  let log1 := _clear_expired ip now_ts request_log in
  if (RATE_LIMIT_MAX <=? length (window_of log1 ip))%nat then (true, log1)
  else (false, <[ip := window_of log1 ip ++ [now_ts]]> log1).

(** A run of calls [is_rate_limited(ip)] at the given clock readings, from a
    given log: the list of returned booleans and the final log. *)
Fixpoint run_limiter (calls : list (string * Q)) (request_log : RequestLog)
  : list bool * RequestLog :=
  match calls with
  | [] => ([], request_log)
  | (ip, now_ts) :: rest =>
      let '(b, log1) := is_rate_limited_at ip now_ts request_log in
      let '(bs, log2) := run_limiter rest log1 in
      (b :: bs, log2)
  end.

(** ** Python values, exceptions and the string operations the code calls *)

Inductive exn :=
  | AttributeError | TypeError | ValueError | KeyError | IndexError
  | BadRequest | MethodNotAllowed.

Inductive result (A : Type) : Type :=
  | Ret (a : A)
  | Raise (e : exn).
Arguments Ret {A} a.
Arguments Raise {A} e.

(** What [request.get_json()] can return: a parsed JSON document. *)
#[warnings="-register-all"]
Inductive pyval : Type :=
  | PNone
  | PBool (b : bool)
  | PNum (q : Q)
  | PStr (s : string)
  | PList (l : list pyval)
  | PDict (d : gmap string pyval).

(** Python truth value ([if v], [not v], [v or w]). *)
Definition truthy (v : pyval) : bool :=
  match v with
  | PNone => false
  | PBool b => b
  | PNum q => negb (Qeq_bool q 0)
  | PStr s => negb (String.eqb s "")
  | PList l => negb (length l =? 0)%nat
  | PDict d => negb (size d =? 0)%nat
  end.

(** [str.isspace] on one character, which is also the class [\s] of [re] on
    [str] patterns: TAB..CR, FS..US, space, NEL and NBSP below 256. *)
Definition is_space (c : Ascii.ascii) : bool :=
  let n := Ascii.N_of_ascii c in
  ((9 <=? n) && (n <=? 13) || (28 <=? n) && (n <=? 32)
   || (n =? 133) || (n =? 160))%N.

Fixpoint lstrip (s : string) : string :=
  match s with
  | EmptyString => EmptyString
  | String c rest => if is_space c then lstrip rest else s
  end.

Fixpoint rstrip (s : string) : string :=
  match s with
  | EmptyString => EmptyString
  | String c rest =>
      match rstrip rest with
      | EmptyString => if is_space c then EmptyString else String c EmptyString
      | kept => String c kept
      end
  end.

(** [s.strip()] *)
Definition strip (s : string) : string := rstrip (lstrip s).

(** [str.lower] on one character: A-Z, and the Latin-1 capitals. *)
Definition lower_char (c : Ascii.ascii) : Ascii.ascii :=
  let n := Ascii.N_of_ascii c in
  if ((65 <=? n) && (n <=? 90)
      || (192 <=? n) && (n <=? 222) && negb (n =? 215))%N
  then Ascii.ascii_of_N (n + 32) else c.

Fixpoint lower (s : string) : string :=
  match s with
  | EmptyString => EmptyString
  | String c rest => String (lower_char c) (lower rest)
  end.

Definition digit_of (c : Ascii.ascii) : option Z :=
  let n := Ascii.N_of_ascii c in
  if ((48 <=? n) && (n <=? 57))%N then Some (Z.of_N n - 48)%Z else None.

(** The digits of [int(s)]: decimal digits, single underscores allowed
    between two digits only. *)
Fixpoint int_digits (acc : Z) (after_digit : bool) (s : string) : option Z :=
  match s with
  | EmptyString => if after_digit then Some acc else None
  | String c rest =>
      match digit_of c with
      | Some d => int_digits (10 * acc + d)%Z true rest
      | None =>
          if Ascii.eqb c "_"%char && after_digit then int_digits acc false rest
          else None
      end
  end.

(** The whitespace [int] skips around the number: TAB..CR, space, NEL and
    NBSP, but not FS..US, which [str.strip] removes. *)
Definition is_int_space (c : Ascii.ascii) : bool :=
  let n := Ascii.N_of_ascii c in
  ((9 <=? n) && (n <=? 13) || (n =? 32) || (n =? 133) || (n =? 160))%N.

Fixpoint int_lstrip (s : string) : string :=
  match s with
  | EmptyString => EmptyString
  | String c rest => if is_int_space c then int_lstrip rest else s
  end.

Fixpoint int_rstrip (s : string) : string :=
  match s with
  | EmptyString => EmptyString
  | String c rest =>
      match int_rstrip rest with
      | EmptyString => if is_int_space c then EmptyString else String c EmptyString
      | kept => String c kept
      end
  end.

(** [int(s)] for a [str]: surrounding whitespace, an optional sign, digits;
    [ValueError] otherwise. *)
Definition py_int (s : string) : result Z :=
  let body sign t :=
    match int_digits 0 false t with
    | Some z => Ret (sign * z)%Z
    | None => Raise ValueError
    end in
  match int_rstrip (int_lstrip s) with
  | String "-"%char t => body (-1)%Z t
  | String "+"%char t => body 1%Z t
  | t => body 1%Z t
  end.

(** *** Regular expressions, by derivatives *)

Inductive regex : Type :=
  | RNone
  | REps
  | RClass (p : Ascii.ascii → bool)
  | RSeq (r1 r2 : regex)
  | RAlt (r1 r2 : regex)
  | RStar (r : regex).

Definition RPlus (r : regex) : regex := RSeq r (RStar r).
Definition RChar (c : Ascii.ascii) : regex := RClass (Ascii.eqb c).

Fixpoint nullable (r : regex) : bool :=
  match r with
  | RNone => false
  | REps => true
  | RClass _ => false
  | RSeq r1 r2 => nullable r1 && nullable r2
  | RAlt r1 r2 => nullable r1 || nullable r2
  | RStar _ => true
  end.

Fixpoint deriv (c : Ascii.ascii) (r : regex) : regex :=
  match r with
  | RNone | REps => RNone
  | RClass p => if p c then REps else RNone
  | RSeq r1 r2 =>
      if nullable r1 then RAlt (RSeq (deriv c r1) r2) (deriv c r2)
      else RSeq (deriv c r1) r2
  | RAlt r1 r2 => RAlt (deriv c r1) (deriv c r2)
  | RStar r1 => RSeq (deriv c r1) (RStar r1)
  end.

(** The whole of [s] is a word of [r]. *)
Fixpoint fullmatch (r : regex) (s : string) : bool :=
  match s with
  | EmptyString => nullable r
  | String c rest => fullmatch (deriv c r) rest
  end.

(** [s] without one final newline, when it ends in one. *)
Fixpoint chomp (s : string) : option string :=
  match s with
  | EmptyString => None
  | String c EmptyString => if Ascii.eqb c "010"%char then Some EmptyString else None
  | String c rest => String c <$> chomp rest
  end.

(** [[^@\s]] *)
Definition email_atom (c : Ascii.ascii) : bool :=
  negb (Ascii.eqb c "@"%char || is_space c).

(** The pattern between [^] and [$] of
    [EMAIL_REGEX = re.compile(r"^[^@\s]+@[^@\s]+\.[^@\s]+$")]. *)
Definition EMAIL_REGEX : regex :=
  RSeq (RPlus (RClass email_atom))
    (RSeq (RChar "@"%char)
       (RSeq (RPlus (RClass email_atom))
          (RSeq (RChar "."%char) (RPlus (RClass email_atom))))).

(** [EMAIL_REGEX.match(s)] is not [None]. [^] is the start of [s]; without
    [re.MULTILINE], [$] is the end of [s] or the position before a newline
    that ends [s]. *)
Definition email_regex_match (s : string) : bool :=
  fullmatch EMAIL_REGEX s
  || match chomp s with Some s' => fullmatch EMAIL_REGEX s' | None => false end.

(** [re.sub(r'<[^>]+>', '', s)]. A match starts at a [<] that is followed by
    at least one character other than [>] and, later, by a [>]; it ends at the
    first such [>]. [in_tag] is true while the characters of a match are being
    dropped. *)
Fixpoint has_gt (s : string) : bool :=
  match s with
  | EmptyString => false
  | String c rest => Ascii.eqb c ">"%char || has_gt rest
  end.

Fixpoint sub_tags (in_tag : bool) (s : string) : string :=
  match s with
  | EmptyString => EmptyString
  | String c rest =>
      if in_tag then
        if Ascii.eqb c ">"%char then sub_tags false rest else sub_tags true rest
      else if Ascii.eqb c "<"%char
              && match rest with
                 | String c' _ => negb (Ascii.eqb c' ">"%char)
                 | EmptyString => false
                 end
              && has_gt rest
           then sub_tags true rest
           else String c (sub_tags false rest)
  end.

(** [sanitize(value)]: falsy values give [''], a string loses its tags and
    its surrounding whitespace, any other value makes [re.sub] raise. *)
Definition sanitize (value : pyval) : result string :=
  if negb (truthy value) then Ret ""
  else match value with
       | PStr s => Ret (strip (sub_tags false s))
       | _ => Raise TypeError
       end.

(** ** The world a request runs in *)

(** The two keys the code keeps in Flask's [session]. *)
Record Session : Type := {
  sess_csrf_token : option string;
  sess_form_time : option Z;
}.

Record EmailMessage : Type := {
  msg_subject : string;
  msg_from : string;
  msg_to : string;
  msg_reply_to : option string;
  msg_content : string;
}.

(** The three sessions the [try] block of [send_email] can open:
    [smtplib.SMTP_SSL], [smtplib.SMTP] followed by [starttls], and
    [smtplib.SMTP] left as it is. *)
Inductive Security : Type := smtp_ssl | smtp_starttls | smtp_plain.

(** One pass through the [try] block of [send_email]. *)
Record SmtpCall : Type := {
  smtp_security : Security;
  smtp_server : string;
  smtp_port : Z;
  smtp_username : string;
  smtp_password : string;
  smtp_message : EmailMessage;
}.

(** How a pass through the [try] block ends. The [with] statement closes
    the session after [send_message] has returned, and closing can raise
    (a [QUIT] the server does not answer with 221): the [except] clause
    then reports a failure for a message that has been handed over. *)
Inductive SmtpOutcome : Type :=
  | smtp_raised_before_sending
  | smtp_raised_after_sending
  | smtp_completed.

Record World : Type := {
  (** the module-level [request_log] *)
  request_log : RequestLog;
  (** the session of the request being handled, as the cookie of the
      request gave it and as the cookie of the response will carry it *)
  session : Session;
  (** [time.time()]: the reading of each successive call *)
  clock : nat → Q;
  clock_reads : nat;
  (** [secrets.token_hex(16)]: the string of each successive call *)
  token_source : nat → string;
  token_draws : nat;
  (** [os.environ] *)
  environ : gmap string string;
  (** [datetime.utcnow().isoformat()] *)
  utcnow_isoformat : string;
  (** the exception [EmailMessage] raises, outside the [try], when it is
      given the headers and the content, if it raises one *)
  email_refuses : EmailMessage → option exn;
  (** how the SMTP session goes *)
  smtp_session : SmtpCall → SmtpOutcome;
  (** the messages [smtp.send_message] has handed over so far *)
  sent : list SmtpCall;
}.

Definition set_request_log (log : RequestLog) (w : World) : World :=
  {| request_log := log; session := session w; clock := clock w;
     clock_reads := clock_reads w; token_source := token_source w;
     token_draws := token_draws w; environ := environ w;
     utcnow_isoformat := utcnow_isoformat w; email_refuses := email_refuses w;
     smtp_session := smtp_session w; sent := sent w |}.

Definition set_session (s : Session) (w : World) : World :=
  {| request_log := request_log w; session := s; clock := clock w;
     clock_reads := clock_reads w; token_source := token_source w;
     token_draws := token_draws w; environ := environ w;
     utcnow_isoformat := utcnow_isoformat w; email_refuses := email_refuses w;
     smtp_session := smtp_session w; sent := sent w |}.

Definition set_clock_reads (n : nat) (w : World) : World :=
  {| request_log := request_log w; session := session w; clock := clock w;
     clock_reads := n; token_source := token_source w;
     token_draws := token_draws w; environ := environ w;
     utcnow_isoformat := utcnow_isoformat w; email_refuses := email_refuses w;
     smtp_session := smtp_session w; sent := sent w |}.

Definition set_token_draws (n : nat) (w : World) : World :=
  {| request_log := request_log w; session := session w; clock := clock w;
     clock_reads := clock_reads w; token_source := token_source w;
     token_draws := n; environ := environ w;
     utcnow_isoformat := utcnow_isoformat w; email_refuses := email_refuses w;
     smtp_session := smtp_session w; sent := sent w |}.

Definition set_sent (l : list SmtpCall) (w : World) : World :=
  {| request_log := request_log w; session := session w; clock := clock w;
     clock_reads := clock_reads w; token_source := token_source w;
     token_draws := token_draws w; environ := environ w;
     utcnow_isoformat := utcnow_isoformat w; email_refuses := email_refuses w;
     smtp_session := smtp_session w; sent := l |}.

(** *** Computations: a result or an exception, and the world left behind *)

Definition M (A : Type) : Type := World → result A * World.

#[global] Instance result_ret : MRet result := @Ret.
#[global] Instance result_bind : MBind result := λ A B f m,
  match m with
  | Ret a => f a
  | Raise e => Raise e
  end.

#[global] Instance M_ret : MRet M := λ A a w, (Ret a, w).
#[global] Instance M_bind : MBind M := λ A B f m w,
  match m w with
  | (Ret a, w') => f a w'
  | (Raise e, w') => (Raise e, w')
  end.

(** A step that cannot touch the world. *)
Definition pure {A : Type} (r : result A) : M A := λ w, (r, w).

Definition gets {A : Type} (f : World → A) : M A := λ w, (Ret (f w), w).
Definition modify (f : World → World) : M unit := λ w, (Ret (), f w).

(** The value the next call of [time.time()] returns. *)
Definition time_now (w : World) : Q := clock w (clock_reads w).

(** The string the next call of [secrets.token_hex(16)] returns. *)
Definition next_token (w : World) : string := token_source w (token_draws w).

Definition time_time : M Q := λ w,
  (Ret (time_now w), set_clock_reads (S (clock_reads w)) w).

Definition token_hex : M string := λ w,
  (Ret (next_token w), set_token_draws (S (token_draws w)) w).

(** [int(x)] of a float: truncation towards zero. *)
Definition py_int_of_float (x : Q) : Z := (Qnum x ÷ Z.pos (Qden x))%Z.

(** [is_rate_limited(ip)] *)
Definition is_rate_limited (ip : string) : M bool :=
  now_ts ← time_time;
  log ← gets request_log;
  let '(limited, log') := is_rate_limited_at ip now_ts log in
  _ ← modify (set_request_log log');
  mret limited.

(** [issue_csrf_token()] *)
Definition issue_csrf_token : M string :=
  token ← token_hex;
  now_ts ← time_time;
  _ ← modify (set_session {| sess_csrf_token := Some token;
                             sess_form_time := Some (py_int_of_float now_ts) |});
  mret token.

(** ** The notifier (app.py, lines 55-109 and 219-230) *)

Definition nl : string := String "010"%char EmptyString.

(** Truth value of an optional string, such as [os.environ.get(name)]:
    [None] and [''] are false. *)
Definition str_truthy (v : option string) : bool :=
  match v with
  | Some s => negb (String.eqb s "")
  | None => false
  end.

(** [send_email(subject, reply_to, body)] *)
Definition send_email (subject : string) (reply_to : option string) (body : string)
  : M (bool * string) :=
  env ← gets environ;
  let server := env !! "MAIL_SERVER" in
  port ← pure (py_int (default "587" (env !! "MAIL_PORT")));
  let username := env !! "MAIL_USERNAME" in
  let password := env !! "MAIL_PASSWORD" in
  let use_tls := String.eqb (lower (default "true" (env !! "MAIL_USE_TLS"))) "true" in
  let use_ssl := String.eqb (lower (default "false" (env !! "MAIL_USE_SSL"))) "true" in
  let destination := env !! "DESTINATION_EMAIL" in
  if negb (str_truthy server && negb (port =? 0)%Z && str_truthy username
           && str_truthy password && str_truthy destination)
  then mret (false, "Email configuration missing. Please set environment variables.")
  else
    let msg := {| msg_subject := subject;
                  msg_from := default "" username;
                  msg_to := default "" destination;
                  msg_reply_to := if str_truthy reply_to then reply_to else None;
                  msg_content := body |} in
    refused ← gets (λ w, email_refuses w msg);
    match refused with
    | Some e => pure (Raise e)
    | None =>
        let call := {| smtp_security := if use_ssl then smtp_ssl
                                        else if use_tls then smtp_starttls
                                        else smtp_plain;
                       smtp_server := default "" server; smtp_port := port;
                       smtp_username := default "" username;
                       smtp_password := default "" password;
                       smtp_message := msg |} in
        outcome ← gets (λ w, smtp_session w call);
        match outcome with
        | smtp_raised_before_sending =>
            mret (false, "Unable to send email at this time.")
        | smtp_raised_after_sending =>
            _ ← modify (λ w, set_sent (sent w ++ [call]) w);
            mret (false, "Unable to send email at this time.")
        | smtp_completed =>
            _ ← modify (λ w, set_sent (sent w ++ [call]) w);
            mret (true, "Request sent successfully.")
        end
    end.

(** [payload[key]] on the sanitized payload. *)
Definition getitem (payload : gmap string string) (key : string) : result string :=
  match payload !! key with
  | Some v => Ret v
  | None => Raise KeyError
  end.

(** [value or 'N/A'] *)
Definition or_na (value : string) : string :=
  if String.eqb value "" then "N/A" else value.

(** [send_care_request_email(payload)] *)
Definition send_care_request_email (payload : gmap string string) : M (bool * string) :=
  stamp ← gets utcnow_isoformat;
  full_name ← pure (getitem payload "full_name");
  phone ← pure (getitem payload "phone");
  email ← pure (getitem payload "email");
  address ← pure (getitem payload "address");
  start_date ← pure (getitem payload "start_date");
  care_type ← pure (getitem payload "care_type");
  notes ← pure (getitem payload "notes");
  let body :=
    "New care request submitted on " +:+ stamp +:+ " UTC" +:+ nl +:+ nl
    +:+ "Full Name: " +:+ full_name +:+ nl
    +:+ "Phone: " +:+ phone +:+ nl
    +:+ "Email: " +:+ email +:+ nl
    +:+ "Address: " +:+ address +:+ nl
    +:+ "Preferred Start Date: " +:+ start_date +:+ nl
    +:+ "Type of Care: " +:+ care_type +:+ nl
    +:+ "Additional Notes: " +:+ or_na notes +:+ nl in
  let subject := "New Care Request from " +:+ full_name in
  send_email subject (payload !! "email") body.

(** [send_appointment_email(payload)] *)
Definition send_appointment_email (payload : gmap string string) : M (bool * string) :=
  stamp ← gets utcnow_isoformat;
  full_name ← pure (getitem payload "full_name");
  email ← pure (getitem payload "email");
  phone ← pure (getitem payload "phone");
  preferred_date ← pure (getitem payload "preferred_date");
  preferred_time ← pure (getitem payload "preferred_time");
  reason ← pure (getitem payload "reason");
  let body :=
    "New in-person appointment request submitted on " +:+ stamp +:+ " UTC"
    +:+ nl +:+ nl
    +:+ "Full Name: " +:+ full_name +:+ nl
    +:+ "Email: " +:+ email +:+ nl
    +:+ "Phone: " +:+ phone +:+ nl
    +:+ "Preferred Date: " +:+ preferred_date +:+ nl
    +:+ "Preferred Time: " +:+ preferred_time +:+ nl
    +:+ "Reason: " +:+ or_na reason +:+ nl in
  let subject := "Appointment Request from " +:+ full_name in
  send_email subject (payload !! "email") body.

(** ** Requests and responses *)

Inductive Endpoint : Type :=
  | ep_index | ep_request_care | ep_thank_you | ep_contact
  | ep_appointment | ep_team | ep_submit_appointment.

Inductive Method : Type := GET | HEAD | POST | OPTIONS.

#[global] Instance Endpoint_eq_dec : EqDecision Endpoint.
Proof. solve_decision. Defined.
#[global] Instance Method_eq_dec : EqDecision Method.
Proof. solve_decision. Defined.

Record Request : Type := {
  (** [request.endpoint], the endpoint of the URL rule *)
  endpoint : Endpoint;
  method : Method;
  (** [request.headers.get('X-Forwarded-For')] *)
  x_forwarded_for : option string;
  (** [request.remote_addr] *)
  remote_addr : option string;
  (** [request.is_json] *)
  is_json : bool;
  (** [request.get_json()]: the parsed body, or [BadRequest] *)
  get_json : result pyval;
}.

Record JsonBody : Type := {
  success : bool;
  message : string;
  errors : option (gmap string string);
  csrf_token : string;
}.

Inductive Response : Type :=
  | Jsonify (body : JsonBody) (status : nat)
  | RenderTemplate (template : string) (token : option string)
  | AutomaticOptions.

(** The token a response carries, if it carries one. *)
Definition response_token (r : Response) : option string :=
  match r with
  | Jsonify body _ => Some (csrf_token body)
  | RenderTemplate _ token => token
  | AutomaticOptions => None
  end.

Definition response_status (r : Response) : nat :=
  match r with
  | Jsonify _ status => status
  | _ => 200
  end.

(** [jsonify({'success': False, 'message': message, 'csrf_token':
    issue_csrf_token()}), status] *)
Definition reject (msg : string) (status : nat) : M Response :=
  token ← issue_csrf_token;
  mret (Jsonify {| success := false; message := msg; errors := None;
                   csrf_token := token |} status).

(** [request.headers.get('X-Forwarded-For', request.remote_addr)] *)
Definition client_ip_of (req : Request) : option string :=
  match x_forwarded_for req with
  | Some v => Some v
  | None => remote_addr req
  end.

(** [apply_simple_rate_limit()], the [before_request] hook: [Some] response
    ends the request, [None] lets it go on to the view. *)
Definition apply_simple_rate_limit (req : Request) : M (option Response) :=
  if bool_decide (endpoint req = ep_request_care) && bool_decide (method req = POST)
  then
    let client_ip := client_ip_of req in
    if str_truthy client_ip then
      limited ← is_rate_limited (default "" client_ip);
      if (limited : bool) then
        response ← reject "Too many requests. Please try later." 429;
        mret (Some response)
      else mret None
    else mret None
  else mret None.

(** ** The submission views (app.py, lines 149-194 and 233-278) *)

(** [payload.get(key, default)] *)
Definition dict_get (payload : gmap string pyval) (key : string) (dflt : pyval)
  : pyval :=
  default dflt (payload !! key).

(** [payload.get]: only a [dict] has the method. *)
Definition as_dict (v : pyval) : result (gmap string pyval) :=
  match v with
  | PDict d => Ret d
  | _ => Raise AttributeError
  end.

(** [value.strip()]: only a [str] has the method. *)
Definition strip_value (v : pyval) : result string :=
  match v with
  | PStr s => Ret (strip s)
  | _ => Raise AttributeError
  end.

(** [csrf_token != session.get('csrf_token')], negated. *)
Definition token_equal (supplied : pyval) (stored : option string) : bool :=
  match supplied, stored with
  | PNone, None => true
  | PStr s, Some t => String.eqb s t
  | _, _ => false
  end.

(** The loop over [required_fields.items()], filling [errors]. *)
Fixpoint required_errors (payload : gmap string pyval)
    (required_fields : list (string * string)) (errors : gmap string string)
  : result (gmap string string) :=
  match required_fields with
  | [] => Ret errors
  | (field, message) :: rest =>
      value ← strip_value (dict_get payload field (PStr ""));
      required_errors payload rest
        (if String.eqb value "" then <[field := message]> errors else errors)
  end.

(** The validation block of a view: the [errors] dict it builds. *)
Definition validate (payload : gmap string pyval)
    (required_fields : list (string * string)) : result (gmap string string) :=
  errors ← required_errors payload required_fields ∅;
  email_value ← strip_value (dict_get payload "email" (PStr ""));
  mret (if negb (String.eqb email_value "") && negb (email_regex_match email_value)
        then <["email" := "Please enter a valid email address."]> errors
        else errors).

(** [{key: sanitize(payload.get(key, '')) for key in keys}] *)
Fixpoint sanitize_fields (payload : gmap string pyval) (keys : list string)
    (acc : gmap string string) : result (gmap string string) :=
  match keys with
  | [] => Ret acc
  | key :: rest =>
      clean ← sanitize (dict_get payload key (PStr ""));
      sanitize_fields payload rest (<[key := clean]> acc)
  end.

(** [not form_time or time.time() - form_time < 3]; the clock is read only
    when [form_time] is set and not zero. This subtraction does not round
    for the readings of a clock: a float below [2 ^ 53] minus a whole number
    between zero and that float is a float. *)
Definition too_quick (form_time : option Z) : M bool :=
  match form_time with
  | None => mret true
  | Some ft =>
      if (ft =? 0)%Z then mret true
      else
        now_ts ← time_time;
        mret (if Qlt_le_dec (now_ts - inject_Z ft) 3 then true else false)
  end.

(** [payload = request.get_json() or {}], as the views use it: every later
    line calls [payload.get], which only a [dict] has. *)
Definition payload_of (req : Request) : result (gmap string pyval) :=
  parsed ← get_json req;
  as_dict (if truthy parsed then parsed else PDict ∅).

(** The last part of a view, from the [required_fields] dict to the final
    [return]: validation, then the hand-over to the notifier. *)
Definition validate_and_forward (required_fields : list (string * string))
    (forwarded : list string) (send : gmap string string → M (bool * string))
    (payload : gmap string pyval) : M Response :=
  errs ← pure (validate payload required_fields);
  if negb (bool_decide (errs = ∅)) then
    token ← issue_csrf_token;
    mret (Jsonify {| success := false;
                     message := "Please review highlighted fields.";
                     errors := Some errs; csrf_token := token |} 400)
  else
    safe_payload ← pure (sanitize_fields payload forwarded ∅);
    '(ok, mail_message) ← send safe_payload;
    token ← issue_csrf_token;
    mret (Jsonify {| success := ok; message := mail_message;
                     errors := None; csrf_token := token |}
            (if (ok : bool) then 200 else 500)).

(** The body shared by [request_care] and [submit_appointment], which differ
    in the honeypot field, the required fields with their messages, the keys
    forwarded, and the mail template. *)
Definition submission_view (honeypot : string)
    (required_fields : list (string * string)) (forwarded : list string)
    (send : gmap string string → M (bool * string)) (req : Request) : M Response :=
  if negb (is_json req) then reject "Invalid submission format." 400
  else
    payload ← pure (payload_of req);
    if truthy (dict_get payload honeypot PNone)
    then reject "Invalid submission." 400
    else
      let supplied := dict_get payload "csrf_token" PNone in
      stored ← gets (λ w, sess_csrf_token (session w));
      if negb (truthy supplied) || negb (token_equal supplied stored)
      then reject "Security token mismatch." 400
      else
        form_time ← gets (λ w, sess_form_time (session w));
        quick ← too_quick form_time;
        if (quick : bool) then reject "Submission too quick; suspected bot." 400
        else validate_and_forward required_fields forwarded send payload.

Definition care_required_fields : list (string * string) :=
  [("full_name", "Full name is required.");
   ("phone", "Phone number is required.");
   ("email", "Valid email is required.");
   ("address", "Address is required.");
   ("start_date", "Preferred start date is required.");
   ("care_type", "Care type selection is required.")].

Definition appointment_required_fields : list (string * string) :=
  [("full_name", "Full name is required.");
   ("email", "A valid email is required.");
   ("phone", "Phone number is required.");
   ("preferred_date", "Preferred date is required.");
   ("preferred_time", "Preferred time is required.")].

(** [request_care()] *)
Definition request_care : Request → M Response :=
  submission_view "service_interest" care_required_fields
    ["full_name"; "phone"; "email"; "address"; "start_date"; "care_type"; "notes"]
    send_care_request_email.

(** [submit_appointment()] *)
Definition submit_appointment : Request → M Response :=
  submission_view "appointment_guard" appointment_required_fields
    ["full_name"; "email"; "phone"; "preferred_date"; "preferred_time"; "reason"]
    send_appointment_email.

(** The page views. *)
Definition page_with_token (template : string) : M Response :=
  token ← issue_csrf_token;
  mret (RenderTemplate template (Some token)).

Definition index : M Response := page_with_token "index.html".
Definition contact : M Response := page_with_token "contact.html".
Definition appointment : M Response := page_with_token "appointment.html".
Definition thank_you : M Response := mret (RenderTemplate "thank_you.html" None).
Definition team : M Response := mret (RenderTemplate "team.html" None).

(** The methods of each URL rule: [POST] for the two submission routes,
    [GET] and [HEAD] for the pages. *)
Definition method_allowed (ep : Endpoint) (m : Method) : bool :=
  match ep, m with
  | (ep_request_care | ep_submit_appointment), POST => true
  | (ep_request_care | ep_submit_appointment), _ => false
  | _, (GET | HEAD) => true
  | _, _ => false
  end.

Definition view_function (req : Request) : M Response :=
  match endpoint req with
  | ep_index => index
  | ep_request_care => request_care req
  | ep_thank_you => thank_you
  | ep_contact => contact
  | ep_appointment => appointment
  | ep_team => team
  | ep_submit_appointment => submit_appointment req
  end.

(** One request through the application: the [before_request] hook, then,
    unless the hook answered, the view of the endpoint. *)
Definition handle_request (req : Request) : M Response :=
  early ← apply_simple_rate_limit req;
  match early with
  | Some response => mret response
  | None =>
      if bool_decide (method req = OPTIONS) then mret AutomaticOptions
      else if method_allowed (endpoint req) (method req) then view_function req
      else pure (Raise MethodNotAllowed)
  end.

(** One request of a client that presents the session cookie [cookie]: the
    answer, the cookie the response carries, and the world left behind. *)
Definition serve (cookie : Session) (req : Request) (w : World)
  : result Response * Session * World :=
  let '(r, w') := handle_request req (set_session cookie w) in
  (r, session w', w').

(** A session of requests, one after the other. *)
Fixpoint handle_requests (reqs : list Request) (w : World)
  : list (result Response) * World :=
  match reqs with
  | [] => ([], w)
  | req :: rest =>
      let '(r, w1) := handle_request req w in
      let '(rs, w2) := handle_requests rest w1 in
      (r :: rs, w2)
  end.

(** ** Vocabulary of the statements *)

(** The world after one more reading of the clock. *)
Definition tick (w : World) : World := set_clock_reads (S (clock_reads w)) w.

(** The world [issue_csrf_token()] leaves: one token drawn, one clock
    reading, both stored in the session. *)
Definition after_issue (w : World) : World :=
  set_session {| sess_csrf_token := Some (next_token w);
                 sess_form_time := Some (py_int_of_float (time_now w)) |}
    (set_clock_reads (S (clock_reads w)) (set_token_draws (S (token_draws w)) w)).

(** The rejection [reject] builds in world [w]. *)
Definition rejection (msg : string) (status : nat) (w : World) : Response :=
  Jsonify {| success := false; message := msg; errors := None;
             csrf_token := next_token w |} status.

(** The token generator is where it was: same source, same number of draws. *)
Definition tokens_kept (w w1 : World) : Prop :=
  token_source w1 = token_source w ∧ token_draws w1 = token_draws w.

(** Every window of the log holds at most [RATE_LIMIT_MAX] timestamps. *)
Definition bounded (log : RequestLog) : Prop :=
  ∀ ip, length (window_of log ip) ≤ RATE_LIMIT_MAX.

(** [x] is a float: a significand of at most 53 bits times a power of two. *)
Definition representable (x : Q) : Prop :=
  ∃ m e : Z, (Z.abs m < 2 ^ 53)%Z ∧ (x == inject_Z m * 2 ^ e)%Q.

(** The age of the timestamp [t] at the reading [now_ts] is a float, so that
    the subtraction [now_ts - t] computes it without rounding. That is so
    for any two readings of one binade, such as the seconds since 1970 read
    between 2004 and 2038, and for whole seconds. *)
Definition exact_age (now_ts t : Q) : Prop := representable (now_ts - t).

(** The window of [ip] ends in [t :: post], whatever comes before. *)
Definition ends_with (log : RequestLog) (ip : string) (t : Q) (post : list Q)
  : Prop :=
  ∃ pre, window_of log ip = pre ++ t :: post.

(** The payload maps [field] to a string, or does not have it. *)
Definition text_or_absent (payload : gmap string pyval) (field : string) : Prop :=
  payload !! field = None ∨ ∃ s, payload !! field = Some (PStr s).

(** The payload maps [field] to a string that is not blank. *)
Definition filled (payload : gmap string pyval) (field : string) : Prop :=
  ∃ s, payload !! field = Some (PStr s) ∧ strip s ≠ "".

(** The two submission endpoints. *)
Definition submission_endpoint (ep : Endpoint) : Prop :=
  ep = ep_request_care ∨ ep = ep_submit_appointment.

(** The four answers a view gives before it looks at the timing: the
    rate-limit answer of the hook and the first three rejections. *)
Definition early_rejections : list (string * nat) :=
  [("Too many requests. Please try later.", 429);
   ("Invalid submission format.", 400);
   ("Invalid submission.", 400);
   ("Security token mismatch.", 400)].

(** The rest of a view once the supplied token has been found equal to the
    stored one: the timing check, the validation and the notifier. *)
Definition from_timing_check (hp : string) (rf : list (string * string))
    (fw : list string) (send : gmap string string → M (bool * string))
    (payload : gmap string pyval) : M Response :=
  form_time ← gets (λ w, sess_form_time (session w));
  quick ← too_quick form_time;
  if (quick : bool) then reject "Submission too quick; suspected bot." 400
  else validate_and_forward rf fw send payload.

(** The honeypot field and the required fields of a submission endpoint,
    as [request_care] and [submit_appointment] instantiate the view. *)
Definition honeypot_field (ep : Endpoint) : string :=
  if bool_decide (ep = ep_request_care) then "service_interest"
  else "appointment_guard".

Definition required_fields_of (ep : Endpoint) : list (string * string) :=
  if bool_decide (ep = ep_request_care) then care_required_fields
  else appointment_required_fields.

(** [w1] differs from [w] in the list of sent messages at most. *)
Definition only_sent (w w1 : World) : Prop := ∃ l, w1 = set_sent l w.

(** Every run of [m] leaves a world related by [R] to the one it started in. *)
Definition keeps {A : Type} (R : World → World → Prop) (m : M A) : Prop :=
  ∀ w, R w (m w).2.

(** ** Sample worlds and requests *)

(** A process with a complete mail configuration, a session that was issued
    the token ["A"] at second 1000, a clock that reads 1010, 1011, ... and a
    token generator that gives ["B"], ["C"], ... *)
Definition demo_world : World :=
  {| request_log := ∅;
     session := {| sess_csrf_token := Some "A"; sess_form_time := Some 1000%Z |};
     clock := λ n, (1010 + inject_Z (Z.of_nat n))%Q;
     clock_reads := 0;
     token_source := λ n, String (ascii_of_nat (65 + n)) EmptyString;
     token_draws := 1;
     environ := list_to_map
       [("MAIL_SERVER", "smtp.example.com"); ("MAIL_USERNAME", "intake");
        ("MAIL_PASSWORD", "secret"); ("DESTINATION_EMAIL", "office@example.com")];
     utcnow_isoformat := "2025-01-01T00:00:00";
     email_refuses := λ _, None;
     smtp_session := λ _, smtp_completed;
     sent := [] |}.

(** The same process with a mail server that takes the message and then
    fails to close the session. *)
Definition closing_fails (w : World) : World :=
  {| request_log := request_log w; session := session w; clock := clock w;
     clock_reads := clock_reads w; token_source := token_source w;
     token_draws := token_draws w; environ := environ w;
     utcnow_isoformat := utcnow_isoformat w; email_refuses := email_refuses w;
     smtp_session := λ _, smtp_raised_after_sending; sent := sent w |}.

Definition with_environ (env : gmap string string) (w : World) : World :=
  {| request_log := request_log w; session := session w; clock := clock w;
     clock_reads := clock_reads w; token_source := token_source w;
     token_draws := token_draws w; environ := env;
     utcnow_isoformat := utcnow_isoformat w; email_refuses := email_refuses w;
     smtp_session := smtp_session w; sent := sent w |}.

(** The valid care request of the specification, with the token ["A"]. *)
Definition jane_payload : gmap string pyval :=
  list_to_map
    [("csrf_token", PStr "A"); ("full_name", PStr "Jane Doe");
     ("phone", PStr "555-1212"); ("email", PStr "jane@example.com");
     ("address", PStr "1 Main St"); ("start_date", PStr "2025-01-01");
     ("care_type", PStr "Companionship"); ("notes", PStr "<b>hi</b>")].

Definition post (ep : Endpoint) (ip : option string) (payload : gmap string pyval)
  : Request :=
  {| endpoint := ep; method := POST; x_forwarded_for := None; remote_addr := ip;
     is_json := true; get_json := Ret (PDict payload) |}.

(** [demo_world] once the identity [ip] has used up its five slots, a few
    seconds ago. *)
Definition crowded_world (ip : string) : World :=
  set_request_log {[ ip := [1005%Q; 1006%Q; 1007%Q; 1008%Q; 1009%Q] ]} demo_world.

(** A care request that carries the header [X-Forwarded-For] with an empty
    value. *)
Definition unidentified_post (payload : gmap string pyval) : Request :=
  {| endpoint := ep_request_care; method := POST; x_forwarded_for := Some "";
     remote_addr := Some "203.0.113.7"; is_json := true;
     get_json := Ret (PDict payload) |}.

(** A valid appointment request, with the token ["A"]. *)
Definition jane_appointment : gmap string pyval :=
  list_to_map
    [("csrf_token", PStr "A"); ("full_name", PStr "Jane Doe");
     ("email", PStr "jane@example.com"); ("phone", PStr "555-1212");
     ("preferred_date", PStr "2025-01-01"); ("preferred_time", PStr "10:00")].

(** The status of the answer, when the request did not end in an exception. *)
Definition status_of (r : result Response) : option nat :=
  match r with
  | Ret resp => Some (response_status resp)
  | Raise _ => None
  end.
(** The trimmed text of a field: [payload.get(field, '').strip()] when that
    is defined, the empty string for a field that is not a string. *)
Definition trimmed (payload : gmap string pyval) (field : string) : string :=
  match payload !! field with
  | Some (PStr s) => strip s
  | _ => ""
  end.

(** The [errors] dict the loop over the required fields leaves when no field
    makes it raise. *)
Definition required_errors_of (payload : gmap string pyval)
    (required_fields : list (string * string)) (errors : gmap string string)
  : gmap string string :=
  foldl (λ errs '(field, message),
           if String.eqb (trimmed payload field) "" then <[field := message]> errs
           else errs)
    errors required_fields.

(** The clock readings of a run of calls never go back: each is at least
    [lo], and at least the one before it. *)
Fixpoint nondecreasing_from (lo : Q) (calls : list (string * Q)) : Prop :=
  match calls with
  | [] => True
  | (_, now_ts) :: rest => (lo <= now_ts)%Q ∧ nondecreasing_from now_ts rest
  end.

(** The timestamps of the calls of a run that were let through for [ip], in
    the order of the calls. *)
Fixpoint admitted_times (ip : string) (calls : list (string * Q))
    (request_log : RequestLog) : list Q :=
  match calls with
  | [] => []
  | (ip', now_ts) :: rest =>
      let '(limited, log1) := is_rate_limited_at ip' now_ts request_log in
      (if bool_decide (ip' = ip) && negb limited then [now_ts] else [])
      ++ admitted_times ip rest log1
  end.

(** Any timestamp of [l] and the fifth one after it are more than
    [RATE_LIMIT_WINDOW] seconds apart. *)
Definition spaced (l : list Q) : Prop :=
  ∀ (i : nat) (t t' : Q),
    l !! i = Some t → l !! (i + RATE_LIMIT_MAX)%nat = Some t' →
    (RATE_LIMIT_WINDOW < t' - t)%Q.

(** The answers of the limiter to the calls of a run made for [ip], each
    with its clock reading, in the order of the calls. *)
Fixpoint answers_for (ip : string) (calls : list (string * Q))
    (request_log : RequestLog) : list (Q * bool) :=
  match calls with
  | [] => []
  | (ip', now_ts) :: rest =>
      let '(limited, log1) := is_rate_limited_at ip' now_ts request_log in
      (if bool_decide (ip' = ip) then [(now_ts, limited)] else [])
      ++ answers_for ip rest log1
  end.

(** The timestamps of a window are in time order, oldest first. *)
Fixpoint rising (window : list Q) : Prop :=
  match window with
  | [] => True
  | t :: rest => Forall (λ u, (t <= u)%Q) rest ∧ rising rest
  end.

(** Every window of the log is in time order and holds no timestamp later
    than [hi]. *)
Definition time_ordered (hi : Q) (request_log : RequestLog) : Prop :=
  ∀ ip, rising (window_of request_log ip)
        ∧ Forall (λ t, (t <= hi)%Q) (window_of request_log ip).

(** The words of a regular expression. *)
Inductive matches : regex → string → Prop :=
  | matches_eps : matches REps ""
  | matches_class p c : p c = true → matches (RClass p) (String c "")
  | matches_seq r1 r2 s1 s2 :
      matches r1 s1 → matches r2 s2 → matches (RSeq r1 r2) (s1 +:+ s2)
  | matches_alt_l r1 r2 s : matches r1 s → matches (RAlt r1 r2) s
  | matches_alt_r r1 r2 s : matches r2 s → matches (RAlt r1 r2) s
  | matches_star_nil r : matches (RStar r) ""
  | matches_star_more r s1 s2 :
      matches r s1 → matches (RStar r) s2 → matches (RStar r) (s1 +:+ s2).

(** Every character of [s] is in the class [p]. *)
Fixpoint all_chars (p : Ascii.ascii → bool) (s : string) : bool :=
  match s with
  | EmptyString => true
  | String c rest => p c && all_chars p rest
  end.

(** A part of an address: at least one character, none of them [@] or
    whitespace. *)
Definition address_part (s : string) : Prop :=
  s ≠ "" ∧ all_chars email_atom s = true.

(** The message [send_email] builds from its arguments and the environment,
    and the SMTP session it opens for it on [port]. *)
Definition mail_message_for (env : gmap string string) (subject : string)
    (reply_to : option string) (body : string) : EmailMessage :=
  {| msg_subject := subject;
     msg_from := default "" (env !! "MAIL_USERNAME");
     msg_to := default "" (env !! "DESTINATION_EMAIL");
     msg_reply_to := if str_truthy reply_to then reply_to else None;
     msg_content := body |}.

Definition smtp_call_for (env : gmap string string) (port : Z)
    (msg : EmailMessage) : SmtpCall :=
  {| smtp_security :=
       if String.eqb (lower (default "false" (env !! "MAIL_USE_SSL"))) "true"
       then smtp_ssl
       else if String.eqb (lower (default "true" (env !! "MAIL_USE_TLS"))) "true"
       then smtp_starttls
       else smtp_plain;
     smtp_server := default "" (env !! "MAIL_SERVER");
     smtp_port := port;
     smtp_username := default "" (env !! "MAIL_USERNAME");
     smtp_password := default "" (env !! "MAIL_PASSWORD");
     smtp_message := msg |}.

(** The server, the user name, the password and the destination are set and
    not empty, and the port is not zero. *)
Definition mail_configured (env : gmap string string) (port : Z) : bool :=
  str_truthy (env !! "MAIL_SERVER") && negb (port =? 0)%Z
  && str_truthy (env !! "MAIL_USERNAME") && str_truthy (env !! "MAIL_PASSWORD")
  && str_truthy (env !! "DESTINATION_EMAIL").

(** The keys a submission endpoint forwards and the notifier it calls, as
    [request_care] and [submit_appointment] instantiate the view. *)
Definition forwarded_fields_of (ep : Endpoint) : list string :=
  if bool_decide (ep = ep_request_care)
  then ["full_name"; "phone"; "email"; "address"; "start_date"; "care_type"; "notes"]
  else ["full_name"; "email"; "phone"; "preferred_date"; "preferred_time"; "reason"].

Definition notifier_of (ep : Endpoint) : gmap string string → M (bool * string) :=
  if bool_decide (ep = ep_request_care) then send_care_request_email
  else send_appointment_email.

(** A notifier reports success only together with exactly one more sent
    message. When it reports a failure it has sent one message or none, and
    when it raises it has sent none. *)
Definition sends_on_success (send : gmap string string → M (bool * string)) : Prop :=
  ∀ p w r w',
    send p w = (r, w') →
    (∃ note call, r = Ret (true, note) ∧ w' = set_sent (sent w ++ [call]) w)
    ∨ (∃ note, r = Ret (false, note)
               ∧ (w' = w ∨ ∃ call, w' = set_sent (sent w ++ [call]) w))
    ∨ (∃ e, r = Raise e ∧ w' = w).

(** The sanitized text of a field of the payload; the empty string where
    [sanitize] raises. *)
Definition cleaned (payload : gmap string pyval) (field : string) : string :=
  match sanitize (dict_get payload field (PStr "")) with
  | Ret clean => clean
  | Raise _ => ""
  end.

(** The text of the mail for a care request, from the time stamp and the
    value of each field. *)
Definition care_request_body (stamp : string) (value : string → string) : string :=
  "New care request submitted on " +:+ stamp +:+ " UTC" +:+ nl +:+ nl
  +:+ "Full Name: " +:+ value "full_name" +:+ nl
  +:+ "Phone: " +:+ value "phone" +:+ nl
  +:+ "Email: " +:+ value "email" +:+ nl
  +:+ "Address: " +:+ value "address" +:+ nl
  +:+ "Preferred Start Date: " +:+ value "start_date" +:+ nl
  +:+ "Type of Care: " +:+ value "care_type" +:+ nl
  +:+ "Additional Notes: " +:+ or_na (value "notes") +:+ nl.

(** The text of the mail for an appointment request. *)
Definition appointment_body (stamp : string) (value : string → string) : string :=
  "New in-person appointment request submitted on " +:+ stamp +:+ " UTC"
  +:+ nl +:+ nl
  +:+ "Full Name: " +:+ value "full_name" +:+ nl
  +:+ "Email: " +:+ value "email" +:+ nl
  +:+ "Phone: " +:+ value "phone" +:+ nl
  +:+ "Preferred Date: " +:+ value "preferred_date" +:+ nl
  +:+ "Preferred Time: " +:+ value "preferred_time" +:+ nl
  +:+ "Reason: " +:+ or_na (value "reason") +:+ nl.

(** The free-text field of a submission endpoint, forwarded but not
    required. *)
Definition optional_field (ep : Endpoint) : string :=
  if bool_decide (ep = ep_request_care) then "notes" else "reason".

(** * Properties

    ** Rounding to a float *)

Lemma round_half_even_inject (x : Q) (z : Z) :
  (x == inject_Z z)%Q → round_half_even x = z.
Proof.
  intros Hx. unfold round_half_even.
  rewrite (Qfloor_comp x (inject_Z z) Hx), Qfloor_Z.
  assert ((x - inject_Z z ?= 1 # 2)%Q = Lt) as ->; [|done].
  change (x - inject_Z z < 1 # 2)%Q. lra.
Qed.

Lemma round_half_even_le (x : Q) (n : Z) :
  (x <= inject_Z n)%Q → (round_half_even x <= n)%Z.
Proof.
  intros Hx. unfold round_half_even.
  pose proof (Qfloor_resp_le _ _ Hx) as Hf. rewrite Qfloor_Z in Hf.
  destruct (decide (Qfloor x = n)) as [Heq|Hne].
  - assert ((x - inject_Z (Qfloor x) ?= 1 # 2)%Q = Lt) as ->; [|lia].
    rewrite Heq. change (x - inject_Z n < 1 # 2)%Q. lra.
  - destruct (_ ?= _)%Q; [destruct (Z.even _)|..]; lia.
Qed.

Lemma pow2_pos (e : Z) : (0 < 2 ^ e)%Q.
Proof. by apply Qpower_0_lt. Qed.

Lemma pow2_inject (n : Z) : (0 <= n)%Z → (2 ^ n == inject_Z (2 ^ n))%Q.
Proof. intros. by rewrite Zpower_Qpower. Qed.

Lemma binade_le (x : Q) : ¬ (x == 0)%Q → (2 ^ binade x <= Qabs x)%Q.
Proof.
  intros Hx. unfold binade. cbv zeta.
  set (a := Z.log2 (Z.abs (Qnum x))). set (b := Z.log2 (Z.pos (Qden x))).
  destruct (Qle_bool _ _) eqn:E; [by apply Qle_bool_iff|]. clear E.
  assert (0 < Z.abs (Qnum x))%Z as Hn.
  { destruct x as [n d]. unfold Qeq in Hx. simpl in *. lia. }
  pose proof (Z.log2_spec _ Hn) as [Ha _]. fold a in Ha.
  pose proof (Z.log2_spec (Z.pos (Qden x)) eq_refl) as [_ Hb]. fold b in Hb.
  assert (0 <= a)%Z as Ha0 by apply Z.log2_nonneg.
  assert (0 <= b)%Z as Hb0 by apply Z.log2_nonneg.
  replace (a - b - 1)%Z with (a + - (b + 1))%Z by lia.
  rewrite Qpower_plus by done. rewrite Qpower_opp.
  rewrite (pow2_inject a), (pow2_inject (b + 1)) by lia.
  replace (Z.succ b) with (b + 1)%Z in Hb by lia.
  assert (0 < 2 ^ (b + 1))%Z as Hp by lia.
  assert (0 < 2 ^ a)%Z as Hpa by lia.
  destruct x as [n d]. unfold Qabs. simpl in *.
  revert Ha Hb Hp Hpa. generalize (2 ^ a)%Z (2 ^ (b + 1))%Z (Z.abs n).
  intros A B N Ha Hb Hp Hpa.
  destruct B as [|pb|pb]; try lia.
  unfold Qle, Qmult, Qinv, inject_Z. simpl. nia.
Qed.

Lemma binade_lt (x : Q) : ¬ (x == 0)%Q → (Qabs x < 2 ^ (binade x + 1))%Q.
Proof.
  intros Hx. unfold binade. cbv zeta.
  set (a := Z.log2 (Z.abs (Qnum x))). set (b := Z.log2 (Z.pos (Qden x))).
  destruct (Qle_bool _ _) eqn:E.
  2:{ replace (a - b - 1 + 1)%Z with (a - b)%Z by lia.
      apply Qnot_le_lt. intros H. apply Qle_bool_iff in H. congruence. }
  clear E.
  assert (0 < Z.abs (Qnum x))%Z as Hn.
  { destruct x as [n d]. unfold Qeq in Hx. simpl in *. lia. }
  pose proof (Z.log2_spec _ Hn) as [_ Ha]. fold a in Ha.
  pose proof (Z.log2_spec (Z.pos (Qden x)) eq_refl) as [Hb _]. fold b in Hb.
  assert (0 <= a)%Z as Ha0 by apply Z.log2_nonneg.
  assert (0 <= b)%Z as Hb0 by apply Z.log2_nonneg.
  replace (a - b + 1)%Z with ((a + 1) + - b)%Z by lia.
  rewrite Qpower_plus by done. rewrite Qpower_opp.
  rewrite (pow2_inject (a + 1)), (pow2_inject b) by lia.
  replace (Z.succ a) with (a + 1)%Z in Ha by lia.
  assert (0 < 2 ^ b)%Z as Hp by lia.
  destruct x as [n d]. unfold Qabs. simpl in *.
  pose proof (Z.abs_nonneg n) as Hn0.
  revert Ha Hb Hp Hn0. generalize (2 ^ (a + 1))%Z (2 ^ b)%Z (Z.abs n).
  intros A B N Ha Hb Hp Hn0.
  destruct B as [|pb|pb]; try lia.
  unfold Qlt, Qmult, Qinv, inject_Z. simpl. nia.
Qed.

(** The rounding is to a nearest integer. *)
Lemma round_half_even_near (x : Q) :
  (Qabs (inject_Z (round_half_even x) - x) <= 1 # 2)%Q.
Proof.
  unfold round_half_even. cbv zeta.
  pose proof (Qfloor_le x) as Hlo. pose proof (Qlt_floor x) as Hhi.
  rewrite inject_Z_plus in Hhi. change (inject_Z 1) with 1%Q in Hhi.
  destruct (_ ?= _)%Q eqn:E.
  - apply Qeq_alt in E.
    destruct (Z.even _); rewrite ?inject_Z_plus; change (inject_Z 1) with 1%Q;
      apply Qabs_Qle_condition; split; lra.
  - change (x - inject_Z (Qfloor x) < 1 # 2)%Q in E.
    apply Qabs_Qle_condition; split; lra.
  - apply Qgt_alt in E. rewrite inject_Z_plus. change (inject_Z 1) with 1%Q.
    apply Qabs_Qle_condition; split; lra.
Qed.

(** The rounding of [x] is within half a unit of the last place of [x]. *)
Lemma float_round_near (x : Q) :
  (Qabs (float_round x - x) <= 2 ^ (binade x - 53))%Q.
Proof.
  unfold float_round. destruct (Qeq_bool x 0) eqn:E.
  { apply Qeq_bool_eq in E. pose proof (pow2_pos (binade x - 53)).
    apply Qabs_Qle_condition; split; lra. }
  cbv zeta. set (ulp := (2 ^ (binade x - 52))%Q).
  assert (0 < ulp)%Q as Hulp by apply pow2_pos.
  assert (2 ^ (binade x - 53) == (1 # 2) * ulp)%Q as ->.
  { unfold ulp. replace (binade x - 53)%Z with (-1 + (binade x - 52))%Z by lia.
    by rewrite Qpower_plus. }
  assert (inject_Z (round_half_even (x / ulp)) * ulp - x
          == (inject_Z (round_half_even (x / ulp)) - x / ulp) * ulp)%Q as ->.
  { field. lra. }
  rewrite Qabs_Qmult, (Qabs_pos ulp) by lra.
  apply Qmult_le_compat_r; [apply round_half_even_near|lra].
Qed.

Lemma Qabs_pow2_mul (m e : Z) :
  (Qabs (inject_Z m * 2 ^ e) == inject_Z (Z.abs m) * 2 ^ e)%Q.
Proof.
  rewrite Qabs_Qmult. rewrite (Qabs_pos (2 ^ e)) by apply Qlt_le_weak, pow2_pos.
  by destruct m.
Qed.

(** The significand of [x] at the precision of its binade is an integer
    when [x] is representable and at least [2 ^ b] in absolute value. *)
Lemma representable_scaled (x : Q) (b : Z) :
  representable x → (2 ^ b <= Qabs x)%Q →
  ∃ z : Z, (x == inject_Z z * 2 ^ (b - 52))%Q.
Proof.
  intros (m & e & Hm & Hx) Hb.
  assert (b < e + 53)%Z as Hlt.
  { apply (Qpower_lt_compat_l_inv 2); [|done].
    eapply Qle_lt_trans; [exact Hb|]. rewrite Hx, Qabs_pow2_mul.
    rewrite Z.add_comm, Qpower_plus by done.
    apply Qmult_lt_compat_r; [apply pow2_pos|].
    rewrite pow2_inject by lia. rewrite <- Zlt_Qlt. done. }
  exists (m * 2 ^ (e - (b - 52)))%Z.
  rewrite Hx, inject_Z_mult, <- pow2_inject by lia.
  rewrite <- Qmult_assoc, <- Qpower_plus by done.
  by replace (e - (b - 52) + (b - 52))%Z with e by lia.
Qed.

Lemma float_round_scaled (x : Q) (z : Z) :
  ¬ (x == 0)%Q → (x == inject_Z z * 2 ^ (binade x - 52))%Q →
  (float_round x == x)%Q.
Proof.
  intros Hx Hz. unfold float_round.
  destruct (Qeq_bool x 0) eqn:E; [by apply Qeq_bool_eq in E|]. cbv zeta.
  rewrite (round_half_even_inject _ z); [by symmetry|].
  rewrite Hz at 1. field. apply Qnot_eq_sym, Qlt_not_eq, pow2_pos.
Qed.

(** A representable number is its own rounding: the subtraction of two
    floats whose difference is a float is exact. *)
Lemma float_round_exact (x : Q) : representable x → (float_round x == x)%Q.
Proof.
  intros Hr. destruct (Qeq_dec x 0) as [H0|H0].
  - unfold float_round. apply Qeq_bool_iff in H0 as H0'. rewrite H0'. by symmetry.
  - destruct (representable_scaled x (binade x) Hr (binade_le x H0)) as [z Hz].
    by apply (float_round_scaled x z).
Qed.

(** Rounding does not cross a representable number. *)
Lemma float_round_le (x y : Q) :
  (0 <= y)%Q → representable y → (x <= y)%Q → (float_round x <= y)%Q.
Proof.
  intros Hy Hr Hxy. unfold float_round.
  destruct (Qeq_bool x 0) eqn:E; [done|]. apply Qeq_bool_neq in E. cbv zeta.
  set (ulp := (2 ^ (binade x - 52))%Q).
  assert (0 < ulp)%Q as Hulp by apply pow2_pos.
  destruct (Qlt_le_dec x 0) as [Hneg|Hpos].
  - apply Qle_trans with 0%Q; [|done].
    assert (round_half_even (x / ulp) <= 0)%Z as Hr0.
    { apply round_half_even_le. apply Qle_shift_div_r; [done|].
      change (x <= 0 * ulp)%Q. lra. }
    rewrite Zle_Qle in Hr0.
    apply Qle_trans with (inject_Z 0 * ulp)%Q; [|change (0 * ulp <= 0)%Q; lra].
    apply Qmult_le_compat_r; [done|lra].
  - pose proof (binade_le x E) as Hb. rewrite Qabs_pos in Hb by done.
    destruct (representable_scaled y (binade x) Hr) as [z Hz].
    { rewrite Qabs_pos by done. lra. }
    fold ulp in Hz.
    assert (round_half_even (x / ulp) <= z)%Z as Hr0.
    { apply round_half_even_le. apply Qle_shift_div_r; [done|]. by rewrite <- Hz. }
    rewrite Zle_Qle in Hr0. rewrite Hz.
    apply Qmult_le_compat_r; [done|lra].
Qed.

Lemma representable_inject_Z (z : Z) : (Z.abs z < 2 ^ 53)%Z → representable (inject_Z z).
Proof. intros Hz. exists z, 0%Z. split; [done|]. change (2 ^ 0)%Q with 1%Q. lra. Qed.

Lemma float_sub_exact (a b : Q) : exact_age a b → (float_sub a b == a - b)%Q.
Proof. apply float_round_exact. Qed.

(** ** The limiter *)

Section limiter.
Implicit Types (log : gmap string (list Q)) (ip : string) (window : list Q).

Lemma representable_window : representable RATE_LIMIT_WINDOW.
Proof. by apply (representable_inject_Z 600). Qed.

(** Rounding never takes an age of at most 600 seconds above 600: an entry
    that is evicted is more than 600 seconds old. *)
Lemma expired_true now_ts t :
  expired now_ts t = true → (RATE_LIMIT_WINDOW < now_ts - t)%Q.
Proof.
  unfold expired, float_sub. destruct (Qlt_le_dec _ _) as [H|H]; [|done].
  intros _. apply Qnot_le_lt. intros Hle. revert H. apply Qle_not_lt.
  by apply float_round_le; [|apply representable_window|].
Qed.

Lemma expired_false now_ts t :
  (now_ts - t <= RATE_LIMIT_WINDOW)%Q → expired now_ts t = false.
Proof.
  intros Hle. destruct (expired now_ts t) eqn:E; [|done].
  apply expired_true in E. exfalso. revert Hle. by apply Qlt_not_le.
Qed.

(** Where the subtraction is exact, the entries evicted are exactly those
    more than 600 seconds old. *)
Lemma expired_exact now_ts t :
  exact_age now_ts t →
  expired now_ts t = true ↔ (RATE_LIMIT_WINDOW < now_ts - t)%Q.
Proof.
  intros Hex. split; [apply expired_true|]. intros Hlt.
  unfold expired. destruct (Qlt_le_dec _ _) as [H|H]; [done|].
  exfalso. revert H. apply Qlt_not_le. by rewrite float_sub_exact.
Qed.

Lemma popleft_expired_split now_ts window :
  ∃ evicted,
    window = evicted ++ popleft_expired now_ts window
    ∧ Forall (λ t, (RATE_LIMIT_WINDOW < now_ts - t)%Q) evicted.
Proof.
  induction window as [|t rest IH]; simpl.
  - by exists [].
  - destruct (expired now_ts t) eqn:E.
    + destruct IH as (ev & Heq & Hall). exists (t :: ev). split.
      * simpl. by rewrite <- Heq.
      * constructor; [by apply expired_true|done].
    + by exists [].
Qed.

Lemma popleft_expired_head now_ts window t rest :
  popleft_expired now_ts window = t :: rest →
  exact_age now_ts t →
  (now_ts - t <= RATE_LIMIT_WINDOW)%Q.
Proof.
  induction window as [|t' rest' IH]; simpl; [done|].
  destruct (expired now_ts t') eqn:E; [done|].
  intros [= -> ->] Hex. apply Qnot_lt_le. intros Hlt.
  apply (expired_exact _ _ Hex) in Hlt. congruence.
Qed.

Lemma popleft_expired_length now_ts window :
  length (popleft_expired now_ts window) ≤ length window.
Proof.
  destruct (popleft_expired_split now_ts window) as (ev & Heq & _).
  rewrite Heq at 2. rewrite length_app. lia.
Qed.

(** An entry that has not expired stops the eviction: it and everything
    behind it stay. *)
Lemma popleft_expired_keeps now_ts pre t post :
  (now_ts - t <= RATE_LIMIT_WINDOW)%Q →
  ∃ pre', popleft_expired now_ts (pre ++ t :: post) = pre' ++ t :: post.
Proof.
  intros Ht. induction pre as [|p pre IH]; simpl.
  - apply expired_false in Ht. rewrite Ht. by exists [].
  - destruct (expired now_ts p); [done|]. by exists (p :: pre).
Qed.

Lemma window_of_insert log ip window :
  window_of (<[ip := window]> log) ip = window.
Proof. unfold window_of. by rewrite lookup_insert_eq. Qed.

Lemma window_of_insert_ne log ip ip' window :
  ip ≠ ip' → window_of (<[ip := window]> log) ip' = window_of log ip'.
Proof. intros. unfold window_of. by rewrite lookup_insert_ne. Qed.

Lemma is_rate_limited_at_unfold ip now_ts log :
  is_rate_limited_at ip now_ts log =
    let kept := popleft_expired now_ts (window_of log ip) in
    if RATE_LIMIT_MAX <=? length kept then (true, <[ip := kept]> log)
    else (false, <[ip := kept ++ [now_ts]]> log).
Proof.
  unfold is_rate_limited_at, _clear_expired. cbv zeta. rewrite window_of_insert.
  destruct (Nat.leb _ _); [done|]. by rewrite insert_insert_eq.
Qed.

Lemma is_rate_limited_at_other ip ip' now_ts log :
  ip ≠ ip' →
  window_of (is_rate_limited_at ip now_ts log).2 ip' = window_of log ip'.
Proof.
  intros. rewrite is_rate_limited_at_unfold. cbv zeta.
  destruct (Nat.leb _ _); cbn [snd]; by rewrite window_of_insert_ne.
Qed.

(** The bound of the windows is kept by every call. *)
Lemma is_rate_limited_at_bounded ip now_ts log :
  bounded log → bounded (is_rate_limited_at ip now_ts log).2.
Proof.
  intros Hb ip'. destruct (decide (ip = ip')) as [<-|Hne].
  - rewrite is_rate_limited_at_unfold. cbv zeta.
    pose proof (popleft_expired_length now_ts (window_of log ip)) as Hl.
    specialize (Hb ip).
    destruct (Nat.leb _ _) eqn:E; cbn [snd]; rewrite window_of_insert.
    + lia.
    + apply Nat.leb_gt in E. rewrite length_app. simpl. lia.
  - by rewrite is_rate_limited_at_other.
Qed.

Lemma run_limiter_bounded calls log :
  bounded log → bounded (run_limiter calls log).2.
Proof.
  revert log. induction calls as [|[ip now_ts] calls IH]; intros log Hb; [done|].
  simpl. destruct (is_rate_limited_at ip now_ts log) as [b log1] eqn:E1.
  destruct (run_limiter calls log1) as [bs log2] eqn:E2. simpl.
  change log2 with (bs, log2).2. rewrite <- E2. apply IH.
  change log1 with (b, log1).2. rewrite <- E1. by apply is_rate_limited_at_bounded.
Qed.

Lemma is_rate_limited_at_first ip t log log' :
  is_rate_limited_at ip t log = (false, log') → ends_with log' ip t [].
Proof.
  rewrite is_rate_limited_at_unfold. cbv zeta.
  destruct (Nat.leb _ _); [done|]. intros [= <-].
  eexists. by rewrite window_of_insert.
Qed.

Lemma is_rate_limited_at_next ip t post now_ts log log' :
  ends_with log ip t post →
  (now_ts - t <= RATE_LIMIT_WINDOW)%Q →
  is_rate_limited_at ip now_ts log = (false, log') →
  ends_with log' ip t (post ++ [now_ts]).
Proof.
  intros [pre Hw] Ht. rewrite is_rate_limited_at_unfold. cbv zeta.
  destruct (popleft_expired_keeps now_ts pre t post Ht) as [pre' Hk].
  rewrite Hw, Hk. destruct (Nat.leb _ _); [done|]. intros [= <-].
  exists pre'. rewrite window_of_insert. by rewrite <- app_assoc.
Qed.

Lemma is_rate_limited_at_full ip t post now_ts log :
  ends_with log ip t post →
  (now_ts - t <= RATE_LIMIT_WINDOW)%Q →
  RATE_LIMIT_MAX ≤ S (length post) →
  (is_rate_limited_at ip now_ts log).1 = true.
Proof.
  intros [pre Hw] Ht Hlen. rewrite is_rate_limited_at_unfold. cbv zeta.
  destruct (popleft_expired_keeps now_ts pre t post Ht) as [pre' Hk].
  rewrite Hw, Hk. destruct (Nat.leb _ _) eqn:E; [done|].
  apply Nat.leb_gt in E. rewrite length_app in E. simpl in E. lia.
Qed.

Lemma is_rate_limited_at_evicts ip t0 rest now_ts log :
  window_of log ip = t0 :: rest →
  length (t0 :: rest) ≤ RATE_LIMIT_MAX →
  exact_age now_ts t0 →
  (RATE_LIMIT_WINDOW < now_ts - t0)%Q →
  (is_rate_limited_at ip now_ts log).1 = false.
Proof.
  intros Hw Hlen Hex Ht. rewrite is_rate_limited_at_unfold. cbv zeta.
  rewrite Hw. simpl popleft_expired. apply (expired_exact _ _ Hex) in Ht. rewrite Ht.
  pose proof (popleft_expired_length now_ts rest) as Hl.
  destruct (Nat.leb _ _) eqn:E; [|done].
  apply Nat.leb_le in E. simpl in Hlen. lia.
Qed.

Lemma is_rate_limited_run ip w :
  is_rate_limited ip w =
    (Ret (is_rate_limited_at ip (time_now w) (request_log w)).1,
     set_request_log (is_rate_limited_at ip (time_now w) (request_log w)).2
       (set_clock_reads (S (clock_reads w)) w)).
Proof.
  unfold is_rate_limited, mbind, M_bind, time_time, gets, modify, mret, M_ret.
  cbn [request_log set_clock_reads].
  by destruct (is_rate_limited_at _ _ _).
Qed.
End limiter.

(** C4 (as the code has it). A call of [is_rate_limited] first drops the
    longest prefix of the window whose timestamps the float subtraction finds
    more than 600 seconds old.
    Every timestamp dropped is more than 600 seconds old, and the first one
    kept is not, when its age is computed without rounding. The call then
    answers true and leaves the window as it is when at least 5 timestamps
    remain, and otherwise appends the clock reading and answers false.
    Hence, after five calls that were let through, a sixth call within 600
    seconds of the first is limited; and a call later than 600 seconds after
    the oldest timestamp of a window of at most 5 is let through, when that
    age is computed without rounding. *)
Theorem sliding_window_admit :
  (∀ (ip : string) (w : World),
     let now_ts := time_now w in
     let window := window_of (request_log w) ip in
     let kept := popleft_expired now_ts window in
     (∃ evicted,
        window = evicted ++ kept
        ∧ Forall (λ t, (600 < now_ts - t)%Q) evicted
        ∧ ∀ t, head kept = Some t → exact_age now_ts t → (now_ts - t <= 600)%Q)
     ∧ is_rate_limited ip w =
         (Ret (5 <=? length kept),
          set_request_log
            (<[ip := if 5 <=? length kept then kept else kept ++ [now_ts]]>
               (request_log w))
            (set_clock_reads (S (clock_reads w)) w)))
  ∧ (∀ (ip : string) (log log' : gmap string (list Q)) (t1 t2 t3 t4 t5 t6 : Q),
       Forall (λ t, (t - t1 <= 600)%Q) [t2; t3; t4; t5; t6] →
       run_limiter [(ip, t1); (ip, t2); (ip, t3); (ip, t4); (ip, t5)] log
         = ([false; false; false; false; false], log') →
       (is_rate_limited_at ip t6 log').1 = true)
  ∧ (∀ (ip : string) (log : gmap string (list Q)) (t0 eps : Q) (rest : list Q),
       window_of log ip = t0 :: rest →
       length (t0 :: rest) ≤ 5 →
       (0 < eps)%Q →
       exact_age (t0 + 600 + eps) t0 →
       (is_rate_limited_at ip (t0 + 600 + eps) log).1 = false).
Proof.
  split; [|split].
  - intros ip w now_ts window kept. split.
    + destruct (popleft_expired_split now_ts window) as (ev & Heq & Hall).
      exists ev. split; [done|]. split; [done|].
      intros t Ht Hex. destruct kept as [|t' rest] eqn:Hk; [done|].
      injection Ht as ->. by eapply popleft_expired_head.
    + rewrite is_rate_limited_run, is_rate_limited_at_unfold. cbv zeta.
      fold now_ts window kept. unfold RATE_LIMIT_MAX.
      by destruct (Nat.leb _ _).
  - intros ip log log' t1 t2 t3 t4 t5 t6 Hin Hrun.
    apply Forall_cons in Hin as [H2 Hin]. apply Forall_cons in Hin as [H3 Hin].
    apply Forall_cons in Hin as [H4 Hin]. apply Forall_cons in Hin as [H5 Hin].
    apply Forall_cons in Hin as [H6 _].
    cbn [run_limiter] in Hrun.
    destruct (is_rate_limited_at ip t1 log) as [b1 l1] eqn:E1.
    destruct (is_rate_limited_at ip t2 l1) as [b2 l2] eqn:E2.
    destruct (is_rate_limited_at ip t3 l2) as [b3 l3] eqn:E3.
    destruct (is_rate_limited_at ip t4 l3) as [b4 l4] eqn:E4.
    destruct (is_rate_limited_at ip t5 l4) as [b5 l5] eqn:E5.
    injection Hrun as -> -> -> -> -> ->.
    apply is_rate_limited_at_first in E1.
    eapply is_rate_limited_at_next in E2; [|done..].
    eapply is_rate_limited_at_next in E3; [|done..].
    eapply is_rate_limited_at_next in E4; [|done..].
    eapply is_rate_limited_at_next in E5; [|done..].
    eapply is_rate_limited_at_full; [done..|]. simpl. unfold RATE_LIMIT_MAX. lia.
  - intros ip log t0 eps rest Hw Hlen Heps Hex.
    eapply is_rate_limited_at_evicts; [done..|]. unfold RATE_LIMIT_WINDOW. lra.
Qed.

(** Five calls at seconds 0 to 4: the call at second 5 is limited, the one
    half a second after second 600 is not. *)
Lemma sliding_window_admit_run :
  let log5 := (run_limiter [("a", 0%Q); ("a", 1%Q); ("a", 2%Q); ("a", 3%Q); ("a", 4%Q)] ∅).2 in
  (is_rate_limited_at "a" 5%Q log5).1 = true
  ∧ (is_rate_limited_at "a" (0 + 600 + (1 # 2))%Q log5).1 = false.
Proof.
  destruct sliding_window_admit as (_ & Hfull & Hevict). split.
  - apply (Hfull "a" ∅ _ 0%Q 1%Q 2%Q 3%Q 4%Q 5%Q).
    + repeat constructor; vm_compute; discriminate.
    + vm_compute. reflexivity.
  - apply (Hevict "a" _ 0%Q (1 # 2)%Q [1%Q; 2%Q; 3%Q; 4%Q]).
    + vm_compute. reflexivity.
    + simpl. lia.
    + reflexivity.
    + exists 1201%Z, (-1)%Z. split; [lia|]. vm_compute. reflexivity.
Defined.

(** Where the subtraction rounds, the boundary moves with it. The floats
    nearest to 0.1 and to 600.1 are more than 600 apart, and their
    difference as a float is 600: in a full window whose oldest timestamp
    is the first, a call at the second evicts nothing and is limited. *)
Lemma rounded_age_is_kept :
  let t0 := (3602879701896397 # 36028797018963968)%Q in
  let now_ts := (5278535422627021 # 8796093022208)%Q in
  let log := ({[ "a" := [t0; 1%Q; 2%Q; 3%Q; 4%Q] ]} : gmap string (list Q)) in
  (0 < now_ts - (t0 + 600))%Q
  ∧ (float_sub now_ts t0 == 600)%Q
  ∧ popleft_expired now_ts (window_of log "a") = window_of log "a"
  ∧ (is_rate_limited_at "a" now_ts log).1 = true.
Proof. cbv zeta. repeat split; vm_compute; reflexivity. Qed.

(** C9. After any run of calls of [is_rate_limited] from the empty log, the
    window of every identity holds at most 5 timestamps. *)
Theorem window_never_exceeds_max (calls : list (string * Q)) (ip : string) :
  length (window_of (run_limiter calls ∅).2 ip) ≤ 5.
Proof.
  apply (run_limiter_bounded calls ∅). intros ip'. unfold window_of.
  rewrite lookup_empty. simpl. unfold RATE_LIMIT_MAX. lia.
Qed.


(** ** Running the computations *)

Lemma bind_run {A B} (m : M A) (f : A → M B) (w : World) :
  (m ≫= f) w =
    match m w with
    | (Ret a, w') => f a w'
    | (Raise e, w') => (Raise e, w')
    end.
Proof. reflexivity. Qed.

Lemma issue_csrf_token_run (w : World) :
  issue_csrf_token w = (Ret (next_token w), after_issue w).
Proof. reflexivity. Qed.

Lemma reject_run (msg : string) (status : nat) (w : World) :
  reject msg status w = (Ret (rejection msg status w), after_issue w).
Proof. reflexivity. Qed.

Lemma too_quick_run (ft : Z) (w : World) :
  too_quick (Some ft) w =
    if (ft =? 0)%Z then (Ret true, w)
    else (Ret (if Qlt_le_dec (time_now w - inject_Z ft) 3 then true else false),
          tick w).
Proof. unfold too_quick. by destruct (ft =? 0)%Z. Qed.

(** The view, path by path. *)
Lemma submission_view_run hp rf fw send (req : Request) (w : World) :
  submission_view hp rf fw send req w =
    if negb (is_json req) then reject "Invalid submission format." 400 w
    else match payload_of req with
         | Raise e => (Raise e, w)
         | Ret payload =>
             if truthy (dict_get payload hp PNone)
             then reject "Invalid submission." 400 w
             else if negb (truthy (dict_get payload "csrf_token" PNone))
                     || negb (token_equal (dict_get payload "csrf_token" PNone)
                                (sess_csrf_token (session w)))
             then reject "Security token mismatch." 400 w
             else match sess_form_time (session w) with
                  | None => reject "Submission too quick; suspected bot." 400 w
                  | Some ft =>
                      if (ft =? 0)%Z
                      then reject "Submission too quick; suspected bot." 400 w
                      else if Qlt_le_dec (time_now w - inject_Z ft) 3
                      then reject "Submission too quick; suspected bot." 400 (tick w)
                      else validate_and_forward rf fw send payload (tick w)
                  end
         end.
Proof.
  unfold submission_view. destruct (is_json req); cbn [negb]; [|done].
  rewrite bind_run. unfold pure at 1.
  destruct (payload_of req) as [payload|e]; [|done].
  destruct (truthy (dict_get payload hp PNone)); [done|].
  cbv zeta. rewrite bind_run. unfold gets at 1.
  destruct (_ || _); [done|].
  rewrite bind_run. unfold gets at 1. rewrite bind_run.
  destruct (sess_form_time (session w)) as [ft|]; [|done].
  rewrite too_quick_run. destruct (ft =? 0)%Z; [done|].
  by destruct (Qlt_le_dec _ _).
Qed.

Lemma validate_and_forward_run rf fw send payload (w : World) :
  validate_and_forward rf fw send payload w =
    match validate payload rf with
    | Raise e => (Raise e, w)
    | Ret errs =>
        if negb (bool_decide (errs = ∅)) then
          (Ret (Jsonify {| success := false;
                           message := "Please review highlighted fields.";
                           errors := Some errs;
                           csrf_token := next_token w |} 400), after_issue w)
        else match sanitize_fields payload fw ∅ with
             | Raise e => (Raise e, w)
             | Ret safe_payload =>
                 match send safe_payload w with
                 | (Ret (ok, mail_message), w1) =>
                     (Ret (Jsonify {| success := ok; message := mail_message;
                                      errors := None;
                                      csrf_token := next_token w1 |}
                             (if ok then 200 else 500)), after_issue w1)
                 | (Raise e, w1) => (Raise e, w1)
                 end
             end
    end.
Proof.
  unfold validate_and_forward. rewrite bind_run. unfold pure at 1.
  destruct (validate payload rf) as [errs|e]; [|done].
  destruct (negb _); [done|].
  rewrite bind_run. unfold pure at 1.
  destruct (sanitize_fields payload fw ∅) as [safe|e]; [|done].
  rewrite bind_run. destruct (send safe w) as [[[ok msg]|e] w1]; done.
Qed.

(** The hook, path by path. *)
Lemma apply_simple_rate_limit_run (req : Request) (w : World) :
  apply_simple_rate_limit req w =
    if bool_decide (endpoint req = ep_request_care)
       && bool_decide (method req = POST) && str_truthy (client_ip_of req)
    then
      let ip := default "" (client_ip_of req) in
      let w1 := set_request_log
                  (is_rate_limited_at ip (time_now w) (request_log w)).2 (tick w) in
      if (is_rate_limited_at ip (time_now w) (request_log w)).1
      then (Ret (Some (rejection "Too many requests. Please try later." 429 w1)),
            after_issue w1)
      else (Ret None, w1)
    else (Ret None, w).
Proof.
  unfold apply_simple_rate_limit.
  destruct (bool_decide (endpoint req = _) && bool_decide (method req = _));
    cbn [andb]; [|done].
  cbv zeta. destruct (str_truthy (client_ip_of req)); [|done].
  rewrite bind_run, is_rate_limited_run.
  by destruct (is_rate_limited_at _ _ _).1.
Qed.

Lemma handle_request_post (req : Request) (w : World) :
  submission_endpoint (endpoint req) → method req = POST →
  handle_request req w =
    match apply_simple_rate_limit req w with
    | (Ret (Some response), w1) => (Ret response, w1)
    | (Ret None, w1) =>
        (if bool_decide (endpoint req = ep_request_care) then request_care req
         else submit_appointment req) w1
    | (Raise e, w1) => (Raise e, w1)
    end.
Proof.
  intros Hep Hm. unfold handle_request. rewrite bind_run.
  destruct (apply_simple_rate_limit req w) as [[[r|]|e] w1]; [done| |done].
  rewrite Hm. unfold view_function.
  destruct Hep as [-> | ->]; done.
Qed.

Lemma view_function_submission (req : Request) :
  submission_endpoint (endpoint req) →
  view_function req
  = submission_view (honeypot_field (endpoint req))
      (required_fields_of (endpoint req)) (forwarded_fields_of (endpoint req))
      (notifier_of (endpoint req)) req.
Proof. unfold view_function. by intros [-> | ->]. Qed.

Lemma hook_keeps_session (req : Request) (w w1 : World) :
  apply_simple_rate_limit req w = (Ret None, w1) → session w1 = session w.
Proof.
  rewrite apply_simple_rate_limit_run. destruct (_ && _ && _); cbv zeta.
  - destruct (is_rate_limited_at _ _ _).1; [done|]. by intros [= <-].
  - by intros [= <-].
Qed.

(** ** What the notifier leaves untouched *)

Section frame.
Context (R : World → World → Prop) `{!Reflexive R, !Transitive R}.

Lemma keeps_ret {A} (a : A) : keeps R (mret a).
Proof. intros w. simpl. reflexivity. Qed.

Lemma keeps_pure {A} (r : result A) : keeps R (pure r).
Proof. intros w. simpl. reflexivity. Qed.

Lemma keeps_gets {A} (f : World → A) : keeps R (gets f).
Proof. intros w. simpl. reflexivity. Qed.

Lemma keeps_bind {A B} (m : M A) (f : A → M B) :
  keeps R m → (∀ a, keeps R (f a)) → keeps R (m ≫= f).
Proof.
  intros Hm Hf w. specialize (Hm w). unfold mbind, M_bind.
  destruct (m w) as [[a|e] w1]; simpl in *; [|done].
  etrans; [done|]. apply Hf.
Qed.
End frame.

#[global] Instance only_sent_refl : Reflexive only_sent.
Proof. intros w. exists (sent w). by destruct w. Qed.
#[global] Instance only_sent_trans : Transitive only_sent.
Proof. intros w w1 w2 [l1 ->] [l2 ->]. by exists l2. Qed.

Ltac keeps_step :=
  first [ apply keeps_bind; [typeclasses eauto..| |intros ?]
        | apply keeps_ret; typeclasses eauto
        | apply keeps_pure; typeclasses eauto
        | apply keeps_gets; typeclasses eauto
        | match goal with |- keeps _ (match ?p with _ => _ end) => destruct p end ].

Lemma send_email_only_sent subject reply_to body :
  keeps only_sent (send_email subject reply_to body).
Proof.
  unfold send_email. repeat keeps_step.
  all: intros w; by eexists.
Qed.

Lemma send_care_request_email_only_sent payload :
  keeps only_sent (send_care_request_email payload).
Proof.
  unfold send_care_request_email.
  repeat first [apply send_email_only_sent | keeps_step].
Qed.

Lemma send_appointment_email_only_sent payload :
  keeps only_sent (send_appointment_email payload).
Proof.
  unfold send_appointment_email.
  repeat first [apply send_email_only_sent | keeps_step].
Qed.

Lemma only_sent_tokens_kept (w w1 : World) : only_sent w w1 → tokens_kept w w1.
Proof. by intros [l ->]. Qed.

Lemma tokens_kept_next_token (w w1 : World) :
  tokens_kept w w1 → next_token w1 = next_token w.
Proof. intros [Hs Hd]. unfold next_token. by rewrite Hs, Hd. Qed.

#[global] Instance tokens_kept_refl : Reflexive tokens_kept.
Proof. by intros w. Qed.
#[global] Instance tokens_kept_trans : Transitive tokens_kept.
Proof. intros w w1 w2 [H1 H2] [H3 H4]. split; congruence. Qed.

(** ** The token is reissued on every path *)

(** Whatever a view answers, its last step is [issue_csrf_token], run in a
    world whose token generator is where the view found it. *)
Lemma submission_view_reissues hp rf fw send (req : Request) (w w' : World)
    (resp : Response) :
  (∀ p, keeps only_sent (send p)) →
  submission_view hp rf fw send req w = (Ret resp, w') →
  ∃ w1 body status,
    tokens_kept w w1 ∧ w' = after_issue w1
    ∧ resp = Jsonify body status ∧ csrf_token body = next_token w1.
Proof.
  intros Hsend. rewrite submission_view_run. rewrite !reject_run.
  destruct (negb (is_json req)).
  { intros [= <- <-]. exists w. by eexists _, _. }
  destruct (payload_of req) as [payload|e]; [|done].
  destruct (truthy (dict_get payload hp PNone)).
  { intros [= <- <-]. exists w. by eexists _, _. }
  destruct (_ || _).
  { intros [= <- <-]. exists w. by eexists _, _. }
  destruct (sess_form_time (session w)) as [ft|].
  2:{ intros [= <- <-]. exists w. by eexists _, _. }
  destruct (ft =? 0)%Z.
  { intros [= <- <-]. exists w. by eexists _, _. }
  destruct (Qlt_le_dec _ _).
  { intros [= <- <-]. exists (tick w). by eexists _, _. }
  rewrite validate_and_forward_run.
  destruct (validate payload rf) as [errs|e]; [|done].
  destruct (negb _).
  { intros [= <- <-]. exists (tick w). by eexists _, _. }
  destruct (sanitize_fields payload fw ∅) as [safe|e]; [|done].
  pose proof (Hsend safe (tick w)) as Hk.
  destruct (send safe (tick w)) as [[[ok msg]|e] w1]; [|done].
  intros [= <- <-]. exists w1. eexists _, _. split; [|done].
  apply only_sent_tokens_kept in Hk. by destruct Hk.
Qed.

Lemma handle_request_reissues (req : Request) (w w' : World) (resp : Response) :
  submission_endpoint (endpoint req) → method req = POST →
  handle_request req w = (Ret resp, w') →
  ∃ w1 body status,
    tokens_kept w w1 ∧ w' = after_issue w1
    ∧ resp = Jsonify body status ∧ csrf_token body = next_token w1.
Proof.
  intros Hep Hm. rewrite handle_request_post by done.
  rewrite apply_simple_rate_limit_run.
  assert (∀ w0 w'', tokens_kept w w0 →
    (if bool_decide (endpoint req = ep_request_care) then request_care req
     else submit_appointment req) w0 = (Ret resp, w'') →
    ∃ w1 body status,
      tokens_kept w w1 ∧ w'' = after_issue w1
      ∧ resp = Jsonify body status ∧ csrf_token body = next_token w1) as Hview.
  { intros w0 w'' Hk Hrun.
    assert (∃ w1 body status,
      tokens_kept w0 w1 ∧ w'' = after_issue w1
      ∧ resp = Jsonify body status ∧ csrf_token body = next_token w1)
      as (w1 & body & status & Hk1 & ? & ? & ?).
    { destruct (bool_decide _); eapply submission_view_reissues; try exact Hrun.
      - apply send_care_request_email_only_sent.
      - apply send_appointment_email_only_sent. }
    exists w1, body, status. split; [by etrans|done]. }
  destruct (_ && _); cbv zeta.
  - destruct (is_rate_limited_at _ _ _).1.
    + intros [= <- <-]. eexists. eexists _, _. split; [|done]. by split.
    + apply Hview. done.
  - by apply Hview.
Qed.

Lemma token_equal_other (supplied : pyval) (token : string) :
  supplied ≠ PStr token →
  negb (truthy supplied) || negb (token_equal supplied (Some token)) = true.
Proof.
  intros Hne. destruct supplied as [|b|q|s|l|d]; try by rewrite orb_true_r.
  cbn [token_equal]. apply orb_true_iff. right.
  apply negb_true_iff, String.eqb_neq. congruence.
Qed.

(** A submission that supplies a token other than the stored one gets one of
    the early rejections, and nothing is sent. *)
Lemma mismatched_token_rejected (req : Request) (w w' : World)
    (payload : gmap string pyval) (r : result Response) :
  submission_endpoint (endpoint req) → method req = POST →
  payload_of req = Ret payload →
  negb (truthy (dict_get payload "csrf_token" PNone))
  || negb (token_equal (dict_get payload "csrf_token" PNone)
             (sess_csrf_token (session w))) = true →
  handle_request req w = (r, w') →
  sent w' = sent w
  ∧ ∃ msg status token,
      (msg, status) ∈ early_rejections
      ∧ r = Ret (Jsonify {| success := false; message := msg; errors := None;
                            csrf_token := token |} status).
Proof.
  intros Hep Hm Hp Htok. rewrite handle_request_post by done.
  rewrite apply_simple_rate_limit_run.
  assert (∀ w0, session w0 = session w → sent w0 = sent w →
    (if bool_decide (endpoint req = ep_request_care) then request_care req
     else submit_appointment req) w0 = (r, w') →
    sent w' = sent w
    ∧ ∃ msg status token,
        (msg, status) ∈ early_rejections
        ∧ r = Ret (Jsonify {| success := false; message := msg; errors := None;
                              csrf_token := token |} status)) as Hview.
  { intros w0 Hs Hsent Hrun.
    assert (∃ hp rf fw send, submission_view hp rf fw send req w0 = (r, w'))
      as (hp & rf & fw & send & Hrun').
    { destruct (bool_decide _); by eexists _, _, _, _. }
    clear Hrun. revert Hrun'. rewrite submission_view_run, !reject_run, Hp, Hs, Htok.
    unfold early_rejections, rejection.
    destruct (negb (is_json req)).
    { intros [= <- <-]. split; [done|]. eexists _, _, _. split; [|done]. repeat constructor. }
    destruct (truthy (dict_get payload hp PNone)).
    { intros [= <- <-]. split; [done|]. eexists _, _, _. split; [|done]. repeat constructor. }
    intros [= <- <-]. split; [done|]. eexists _, _, _. split; [|done]. repeat constructor. }
  destruct (_ && _); cbv zeta; [|by apply Hview].
  destruct (is_rate_limited_at _ _ _).1; [|by apply Hview].
  intros [= <- <-]. split; [done|]. unfold early_rejections, rejection.
  eexists _, _, _. split; [|done]. repeat constructor.
Qed.

(** An answer with [success] comes from the notifier: the request was JSON
    with an object as its body, the honeypot was empty and the supplied
    token was the stored one. *)
Lemma submission_view_success_inv hp rf fw send (req : Request) (w w' : World)
    (body : JsonBody) (status : nat) :
  submission_view hp rf fw send req w = (Ret (Jsonify body status), w') →
  success body = true →
  is_json req = true
  ∧ ∃ payload,
      payload_of req = Ret payload
      ∧ truthy (dict_get payload hp PNone) = false
      ∧ negb (truthy (dict_get payload "csrf_token" PNone))
        || negb (token_equal (dict_get payload "csrf_token" PNone)
                   (sess_csrf_token (session w))) = false.
Proof.
  rewrite submission_view_run, !reject_run. unfold rejection.
  destruct (is_json req); cbn [negb]; [|by intros [= <- <- <-]].
  destruct (payload_of req) as [payload|e]; [|done].
  destruct (truthy (dict_get payload hp PNone)) eqn:Hhp; [by intros [= <- <- <-]|].
  destruct (_ || _) eqn:Htok; [by intros [= <- <- <-]|].
  intros _ _. split; [done|]. by exists payload.
Qed.

(** Whether a submission gets past the token check depends on the request
    and on the session it presents, and on nothing else. *)
Lemma submission_view_past_token hp rf fw send (req : Request) (w : World)
    (payload : gmap string pyval) :
  is_json req = true →
  payload_of req = Ret payload →
  truthy (dict_get payload hp PNone) = false →
  negb (truthy (dict_get payload "csrf_token" PNone))
  || negb (token_equal (dict_get payload "csrf_token" PNone)
             (sess_csrf_token (session w))) = false →
  submission_view hp rf fw send req w = from_timing_check hp rf fw send payload w.
Proof.
  intros Hjson Hpay Hhp Htok. unfold submission_view, from_timing_check.
  rewrite Hjson. cbn [negb]. rewrite bind_run. unfold pure at 1. rewrite Hpay, Hhp.
  cbv zeta. rewrite bind_run. unfold gets at 1. by rewrite Htok.
Qed.

(** C5 (as the code has it). Every response to a submission, the rate-limit
    answer of the hook and each return of the two views, ends with
    [issue_csrf_token]: the response carries the token drawn while the
    request ran, and the session cookie of the response stores that token
    and the integer part of the clock reading taken with it. A later
    submission that presents this cookie is accepted with this token only:
    with any other token it gets an early rejection and never reaches the
    timing check, the validation or the notifier. The tokens are kept
    nowhere but in the cookie: a submission that was answered with
    [success], presented once more with the cookie it came with, gets past
    the token check again, whatever has been answered in between. *)
Theorem every_response_reissues_token (cookie cookie' : Session) (req : Request)
    (w w' : World) (resp : Response) :
  submission_endpoint (endpoint req) → method req = POST →
  serve cookie req w = (Ret resp, cookie', w') →
  ∃ w1 body status,
    resp = Jsonify body status
    ∧ tokens_kept w w1 ∧ w' = after_issue w1
    ∧ csrf_token body = next_token w
    ∧ token_draws w' = S (token_draws w)
    ∧ cookie' = {| sess_csrf_token := Some (csrf_token body);
                   sess_form_time := Some (py_int_of_float (time_now w1)) |}
    ∧ (∀ (req2 : Request) (payload2 : gmap string pyval)
         (r2 : result Response) (cookie2 : Session) (w2 w3 : World),
         submission_endpoint (endpoint req2) → method req2 = POST →
         payload_of req2 = Ret payload2 →
         dict_get payload2 "csrf_token" PNone ≠ PStr (csrf_token body) →
         serve cookie' req2 w2 = (r2, cookie2, w3) →
         sent w3 = sent w2
         ∧ ∃ msg status2 token,
             (msg, status2) ∈ early_rejections
             ∧ r2 = Ret (Jsonify {| success := false; message := msg;
                                    errors := None; csrf_token := token |}
                           status2))
    ∧ (success body = true →
       ∃ payload,
         payload_of req = Ret payload
         ∧ ∀ w2 w2' : World,
             apply_simple_rate_limit req (set_session cookie w2) = (Ret None, w2') →
             serve cookie req w2
             = let '(r, w3) :=
                 from_timing_check (honeypot_field (endpoint req))
                   (required_fields_of (endpoint req))
                   (forwarded_fields_of (endpoint req))
                   (notifier_of (endpoint req)) payload w2' in
               (r, session w3, w3)).
Proof.
  intros Hep Hm. unfold serve at 1.
  destruct (handle_request req (set_session cookie w)) as [r0 w0] eqn:Hrun.
  intros [= -> <- ->].
  destruct (handle_request_reissues req _ w' resp Hep Hm Hrun)
    as (w1 & body & status & Hk & -> & -> & Htok).
  pose proof (tokens_kept_next_token _ _ Hk) as Hnext.
  change (next_token (set_session cookie w)) with (next_token w) in Hnext.
  exists w1, body, status. split; [done|]. split; [by destruct Hk|].
  split; [done|]. split; [congruence|].
  split; [simpl; by destruct Hk as [_ ->]|].
  split; [cbn; by rewrite Htok|]. split.
  - intros req2 payload2 r2 cookie2 w2 w3 Hep2 Hm2 Hp2 Ht2. unfold serve.
    destruct (handle_request req2 _) as [r3 w4] eqn:Hrun2. intros [= -> _ ->].
    apply (mismatched_token_rejected req2 _ _ payload2 _ Hep2 Hm2 Hp2) in Hrun2.
    + done.
    + cbn [session set_session after_issue sess_csrf_token].
      apply token_equal_other. congruence.
  - intros Hok. revert Hrun. unfold handle_request at 1.
    rewrite bind_run. rewrite Hm.
    rewrite (bool_decide_eq_false_2 (POST = OPTIONS)) by done.
    assert (method_allowed (endpoint req) POST = true) as ->
      by (by destruct Hep as [-> | ->]).
    rewrite view_function_submission by done.
    destruct (apply_simple_rate_limit req (set_session cookie w))
      as [[[early|]|e] w0] eqn:Hhook; [|intros Hview|done].
    { revert Hhook. rewrite apply_simple_rate_limit_run.
      destruct (_ && _ && _); cbv zeta; [|done].
      destruct (is_rate_limited_at _ _ _).1; [|done].
      intros [= <- <-] [= <- _]. done. }
    apply hook_keeps_session in Hhook as Hsess.
    destruct (submission_view_success_inv _ _ _ _ _ _ _ _ _ Hview Hok)
      as (Hjson & payload & Hpay & Hhp & Hcheck).
    rewrite Hsess in Hcheck. exists payload. split; [done|].
    intros w2 w2' Hhook2. apply hook_keeps_session in Hhook2 as Hsess2.
    unfold serve, handle_request. rewrite bind_run, Hhook2, Hm.
    rewrite (bool_decide_eq_false_2 (POST = OPTIONS)) by done.
    assert (method_allowed (endpoint req) POST = true) as ->
      by (by destruct Hep as [-> | ->]).
    rewrite view_function_submission by done.
    rewrite (submission_view_past_token _ _ _ _ _ _ payload); try done.
    by rewrite Hsess2.
Qed.

(** The valid request of the specification, sent in [demo_world] with its
    cookie: it is forwarded, and the cookie of the answer holds ["B"], no
    longer ["A"]; a second request with the new cookie and the token ["A"]
    sends nothing. *)
Lemma every_response_reissues_token_run :
  let req := post ep_request_care (Some "203.0.113.7") jane_payload in
  let first := serve (session demo_world) req demo_world in
  (∃ body, first.1.1 = Ret (Jsonify body 200) ∧ csrf_token body = "B")
  ∧ sess_csrf_token first.1.2 = Some "B"
  ∧ sent (serve first.1.2 req first.2).2 = sent first.2.
Proof.
  cbv zeta.
  destruct (serve (session demo_world)
              (post ep_request_care (Some "203.0.113.7") jane_payload) demo_world)
    as [[r cookie'] w'] eqn:Hrun. cbn [fst snd].
  assert (∃ body, r = Ret (Jsonify body 200)) as [body ->].
  { change r with (r, cookie', w').1.1. rewrite <- Hrun. eexists. vm_compute.
    reflexivity. }
  destruct (every_response_reissues_token (session demo_world) cookie'
              (post ep_request_care (Some "203.0.113.7") jane_payload) demo_world
              w' (Jsonify body 200) (or_introl eq_refl) eq_refl Hrun)
    as (w1 & body' & status & Hresp & _ & _ & Htok & _ & Hcookie & Hold & _).
  clear Hrun. injection Hresp as <- <-.
  assert (csrf_token body = "B") as HB by (rewrite Htok; reflexivity).
  split; [by exists body|]. split; [by rewrite Hcookie, HB|].
  destruct (serve cookie' (post ep_request_care (Some "203.0.113.7") jane_payload) w')
    as [[r2 cookie2] w3] eqn:Hrun2. cbn [snd].
  destruct (Hold (post ep_request_care (Some "203.0.113.7") jane_payload)
              jane_payload r2 cookie2 w' w3 (or_introl eq_refl) eq_refl eq_refl)
    as [Hsent _]; [|done|done].
  rewrite HB. vm_compute. discriminate.
Defined.

(** The same request presented a second time with the cookie it came with,
    the token ["A"] in both: the cookie of the first answer holds ["B"], and
    still the request is forwarded again and a second mail is sent. *)
Lemma replayed_cookie_validates_again :
  let req := post ep_request_care (Some "203.0.113.7") jane_payload in
  let cookie := session demo_world in
  let first := serve cookie req demo_world in
  let again := serve cookie req first.2 in
  sess_csrf_token cookie = Some "A"
  ∧ status_of first.1.1 = Some 200
  ∧ sess_csrf_token first.1.2 = Some "B"
  ∧ status_of again.1.1 = Some 200
  ∧ length (sent again.2) = 2.
Proof. vm_compute. repeat split. Qed.

(** ** The checks of a view, in their order *)

(** The view of a submission endpoint is [submission_view] at the honeypot
    field and the required fields of the endpoint. *)
Lemma submission_view_of_endpoint (req : Request) :
  submission_endpoint (endpoint req) →
  ∃ fw send,
    (∀ p, keeps only_sent (send p))
    ∧ (if bool_decide (endpoint req = ep_request_care) then request_care req
       else submit_appointment req)
      = submission_view (honeypot_field (endpoint req))
          (required_fields_of (endpoint req)) fw send req.
Proof.
  intros [Hep | Hep]; rewrite Hep; eexists _, _; (split; [|reflexivity]).
  - apply send_care_request_email_only_sent.
  - apply send_appointment_email_only_sent.
Qed.

(** C6. A submission that got past the rate-limit hook, whose honeypot field
    is empty and whose token is the stored one, is rejected with the
    bot-timing answer when the clock reads less than 3 seconds more than the
    stored issuance time; the fields of the payload play no part, validation
    and the notifier are not run. *)
Theorem quick_submission_rejected (req : Request) (w w1 : World)
    (payload : gmap string pyval) (ft : Z) :
  submission_endpoint (endpoint req) → method req = POST →
  apply_simple_rate_limit req w = (Ret None, w1) →
  is_json req = true →
  payload_of req = Ret payload →
  truthy (dict_get payload (honeypot_field (endpoint req)) PNone) = false →
  truthy (dict_get payload "csrf_token" PNone) = true →
  token_equal (dict_get payload "csrf_token" PNone) (sess_csrf_token (session w1))
    = true →
  sess_form_time (session w1) = Some ft →
  (time_now w1 - inject_Z ft < 3)%Q →
  ∃ w2,
    (w2 = w1 ∨ w2 = tick w1)
    ∧ handle_request req w =
        (Ret (rejection "Submission too quick; suspected bot." 400 w1),
         after_issue w2).
Proof.
  intros Hep Hm Hhook Hjson Hpay Hhp Htok Heq Hft Hquick.
  rewrite handle_request_post, Hhook by done.
  destruct (submission_view_of_endpoint req Hep) as (fw & send & _ & ->).
  rewrite submission_view_run, Hjson, Hpay, Hhp, Htok, Heq, Hft. cbn [negb orb].
  rewrite !reject_run. destruct (ft =? 0)%Z; [by exists w1; split; [left|]|].
  destruct (Qlt_le_dec _ _) as [_|Hge].
  - exists (tick w1). split; [by right|done].
  - exfalso. revert Hquick. by apply Qle_not_lt.
Qed.

(** A submission with the right token and every field valid, sent one second
    after the token was issued. *)
Lemma quick_submission_rejected_run :
  let w := {| request_log := ∅;
              session := {| sess_csrf_token := Some "A";
                            sess_form_time := Some 1010%Z |};
              clock := clock demo_world; clock_reads := 0;
              token_source := token_source demo_world; token_draws := 1;
              environ := environ demo_world;
              utcnow_isoformat := utcnow_isoformat demo_world;
              email_refuses := email_refuses demo_world;
              smtp_session := smtp_session demo_world; sent := [] |} in
  ∃ w', handle_request (post ep_request_care (Some "203.0.113.7") jane_payload) w
        = (Ret (Jsonify {| success := false;
                           message := "Submission too quick; suspected bot.";
                           errors := None; csrf_token := "B" |} 400), w').
Proof.
  intros w.
  destruct (quick_submission_rejected
              (post ep_request_care (Some "203.0.113.7") jane_payload) w
              (set_request_log {[ "203.0.113.7" := [1010%Q] ]} (tick w))
              jane_payload 1010%Z) as (w2 & _ & Hrun).
  - by left.
  - reflexivity.
  - vm_compute. reflexivity.
  - reflexivity.
  - vm_compute. reflexivity.
  - vm_compute. reflexivity.
  - vm_compute. reflexivity.
  - vm_compute. reflexivity.
  - reflexivity.
  - vm_compute. reflexivity.
  - exists (after_issue w2). exact Hrun.
Defined.

(** ** What the views leave untouched *)

(** A view never touches the request log, and never answers 429. *)
Lemma submission_view_frame hp rf fw send (req : Request) (w w' : World)
    (r : result Response) :
  (∀ p, keeps only_sent (send p)) →
  submission_view hp rf fw send req w = (r, w') →
  request_log w' = request_log w
  ∧ ∀ resp, r = Ret resp → response_status resp ≠ 429.
Proof.
  intros Hsend. rewrite submission_view_run, !reject_run.
  destruct (negb (is_json req)); [by intros [= <- <-]; split; [|intros ? [= <-]]|].
  destruct (payload_of req) as [payload|e]; [|by intros [= <- <-]].
  destruct (truthy (dict_get payload hp PNone));
    [by intros [= <- <-]; split; [|intros ? [= <-]]|].
  destruct (_ || _); [by intros [= <- <-]; split; [|intros ? [= <-]]|].
  destruct (sess_form_time (session w)) as [ft|];
    [|by intros [= <- <-]; split; [|intros ? [= <-]]].
  destruct (ft =? 0)%Z; [by intros [= <- <-]; split; [|intros ? [= <-]]|].
  destruct (Qlt_le_dec _ _); [by intros [= <- <-]; split; [|intros ? [= <-]]|].
  rewrite validate_and_forward_run.
  destruct (validate payload rf) as [errs|e]; [|by intros [= <- <-]].
  destruct (negb _); [by intros [= <- <-]; split; [|intros ? [= <-]]|].
  destruct (sanitize_fields payload fw ∅) as [safe|e]; [|by intros [= <- <-]].
  destruct (Hsend safe (tick w)) as [l Hl].
  destruct (send safe (tick w)) as [[[ok msg]|e] w1]; simpl in Hl; subst w1.
  - intros [= <- <-]. split; [done|]. intros ? [= <-]. by destruct ok.
  - by intros [= <- <-].
Qed.

Lemma view_function_frame (req : Request) (w w' : World) (r : result Response) :
  view_function req w = (r, w') →
  request_log w' = request_log w
  ∧ ∀ resp, r = Ret resp → response_status resp ≠ 429.
Proof.
  unfold view_function. destruct (endpoint req).
  1,3,4,5,6: by intros [= <- <-]; split; [|intros ? [= <-]].
  - apply submission_view_frame, send_care_request_email_only_sent.
  - apply submission_view_frame, send_appointment_email_only_sent.
Qed.

(** Past the hook, a request goes to its view or is refused by the router:
    the log stays, and the answer is not 429. *)
Lemma handle_request_past_hook (req : Request) (w w1 w' : World)
    (r : result Response) :
  apply_simple_rate_limit req w = (Ret None, w1) →
  handle_request req w = (r, w') →
  request_log w' = request_log w1
  ∧ ∀ resp, r = Ret resp → response_status resp ≠ 429.
Proof.
  intros Hhook. unfold handle_request. rewrite bind_run, Hhook.
  destruct (bool_decide _); [by intros [= <- <-]; split; [|intros ? [= <-]]|].
  destruct (method_allowed _ _); [|by intros [= <- <-]].
  apply view_function_frame.
Qed.

(** ** The hook *)

Lemma hook_skips_other_endpoints (req : Request) (w : World) :
  endpoint req ≠ ep_request_care ∨ method req ≠ POST →
  apply_simple_rate_limit req w = (Ret None, w).
Proof.
  intros H. rewrite apply_simple_rate_limit_run.
  destruct H as [H|H]; [rewrite (bool_decide_eq_false_2 _ H)|
                        rewrite (bool_decide_eq_false_2 _ H), andb_false_r]; done.
Qed.

(** C3 (as the code has it). A request whose client identity is missing or
    the empty string goes past the hook untouched: no window is read, nothing
    is recorded, and the request is never answered 429. *)
Theorem unidentified_client_not_limited (req : Request) (w : World) :
  client_ip_of req = None ∨ client_ip_of req = Some "" →
  apply_simple_rate_limit req w = (Ret None, w)
  ∧ ∀ (r : result Response) (w' : World),
      handle_request req w = (r, w') →
      request_log w' = request_log w
      ∧ ∀ resp, r = Ret resp → response_status resp ≠ 429.
Proof.
  intros Hip.
  assert (apply_simple_rate_limit req w = (Ret None, w)) as Hhook.
  { rewrite apply_simple_rate_limit_run.
    destruct Hip as [-> | ->]; cbn [str_truthy String.eqb negb];
      by rewrite andb_false_r. }
  split; [done|]. intros r w'. by apply handle_request_past_hook.
Qed.

Lemma unidentified_client_not_limited_run :
  apply_simple_rate_limit (unidentified_post jane_payload) (crowded_world "")
    = (Ret None, crowded_world "").
Proof.
  apply (unidentified_client_not_limited (unidentified_post jane_payload)
           (crowded_world "")).
  right. reflexivity.
Defined.

(** The bucket of the empty identity is full, and a request with the empty
    identity is forwarded all the same: the bucket is not consulted and stays
    as it was. The same request from an identity with a full bucket is
    answered 429. *)
Lemma empty_identity_bypasses_limiter :
  let run := handle_request (unidentified_post jane_payload) (crowded_world "") in
  length (window_of (request_log (crowded_world "")) "") = 5
  ∧ status_of run.1 = Some 200
  ∧ request_log run.2 = request_log (crowded_world "")
  ∧ status_of
      (handle_request (post ep_request_care (Some "203.0.113.7") jane_payload)
         (crowded_world "203.0.113.7")).1 = Some 429.
Proof. vm_compute. repeat split. Qed.

(** ** The honeypot *)

(** C2 (as the code has it). A JSON submission whose honeypot field is truthy
    is rejected by the view at once, with a reissued token: the token, the
    timing and the fields are not looked at, the notifier is not called, and
    the view leaves the request log alone. The hook, however, runs before the
    view: on the care-request endpoint, for a client with an identity, the
    submission is answered 429 when the window is full and otherwise has its
    timestamp recorded in the window before the view rejects it. *)
Theorem honeypot_rejection (req : Request) (w : World)
    (payload : gmap string pyval) :
  submission_endpoint (endpoint req) → method req = POST →
  is_json req = true →
  payload_of req = Ret payload →
  truthy (dict_get payload (honeypot_field (endpoint req)) PNone) = true →
  view_function req w = (Ret (rejection "Invalid submission." 400 w), after_issue w)
  ∧ ∀ ip : string,
      endpoint req = ep_request_care → client_ip_of req = Some ip → ip ≠ "" →
      let now_ts := time_now w in
      let kept := popleft_expired now_ts (window_of (request_log w) ip) in
      ∃ (resp : Response) (w' : World),
        handle_request req w = (Ret resp, w')
        ∧ sent w' = sent w
        ∧ if 5 <=? length kept
          then response_status resp = 429
               ∧ window_of (request_log w') ip = kept
          else resp = rejection "Invalid submission." 400 w
               ∧ window_of (request_log w') ip = kept ++ [now_ts].
Proof.
  intros Hep Hm Hjson Hpay Hhp.
  assert (∀ w0, view_function req w0
                = (Ret (rejection "Invalid submission." 400 w0), after_issue w0))
    as Hview.
  { intros w0. unfold view_function.
    destruct Hep as [Hep | Hep]; rewrite Hep in *.
    - change (honeypot_field ep_request_care) with "service_interest" in Hhp.
      unfold request_care. by rewrite submission_view_run, Hjson, Hpay, Hhp.
    - change (honeypot_field ep_submit_appointment) with "appointment_guard" in Hhp.
      unfold submit_appointment. by rewrite submission_view_run, Hjson, Hpay, Hhp. }
  split; [done|]. intros ip Hcare Hip Hne now_ts kept.
  unfold handle_request. rewrite bind_run, apply_simple_rate_limit_run.
  rewrite Hcare, Hm, Hip. rewrite !bool_decide_eq_true_2 by done.
  assert (str_truthy (Some ip) = true) as ->.
  { simpl. apply negb_true_iff, String.eqb_neq. done. }
  cbn [andb]. cbv zeta. change (default "" (Some ip)) with ip.
  rewrite is_rate_limited_at_unfold. cbv zeta. fold now_ts kept.
  unfold RATE_LIMIT_MAX. destruct (5 <=? length kept) eqn:Hfull; cbn [fst snd].
  - eexists _, _. split; [reflexivity|]. split; [done|]. split; [done|].
    cbn [request_log after_issue set_session set_clock_reads set_token_draws
         set_request_log]. by rewrite window_of_insert.
  - rewrite bool_decide_eq_false_2 by done.
    cbn [method_allowed]. rewrite Hview.
    eexists _, _. split; [reflexivity|]. split; [done|]. split; [done|].
    cbn [request_log after_issue set_session set_clock_reads set_token_draws
         set_request_log tick]. by rewrite window_of_insert.
Qed.

(** A care request with the honeypot filled in, from a client that has sent
    nothing before: it is rejected as a honeypot hit. *)
Lemma honeypot_rejection_run :
  view_function
    (post ep_request_care (Some "203.0.113.7")
       (<["service_interest" := PStr "bot"]> jane_payload)) demo_world
  = (Ret (rejection "Invalid submission." 400 demo_world), after_issue demo_world).
Proof.
  apply (honeypot_rejection
           (post ep_request_care (Some "203.0.113.7")
              (<["service_interest" := PStr "bot"]> jane_payload))
           demo_world (<["service_interest" := PStr "bot"]> jane_payload)).
  - by left.
  - reflexivity.
  - reflexivity.
  - vm_compute. reflexivity.
  - vm_compute. reflexivity.
Defined.

(** The honeypot hit of a client that has sent nothing before uses up one of
    its five slots: the window, empty before, holds the timestamp of the
    rejected request. And when the window is full, the hit is answered 429,
    not with the honeypot rejection. *)
Lemma honeypot_hit_consumes_slot :
  let req := post ep_request_care (Some "203.0.113.7")
               (<["service_interest" := PStr "bot"]> jane_payload) in
  let run := handle_request req demo_world in
  window_of (request_log demo_world) "203.0.113.7" = []
  ∧ run.1 = Ret (Jsonify {| success := false; message := "Invalid submission.";
                            errors := None; csrf_token := "B" |} 400)
  ∧ window_of (request_log run.2) "203.0.113.7" = [1010%Q]
  ∧ status_of (handle_request req (crowded_world "203.0.113.7")).1 = Some 429.
Proof. vm_compute. repeat split. Qed.

(** ** The endpoints the hook covers *)

(** C1 (where the code departs from it). The hook limits POSTs to the
    care-request endpoint, before the body is looked at, and no page view;
    but it does not limit the appointment endpoint: from an identity whose
    five slots are used up, a care request is answered 429, while an
    appointment request is forwarded and the log stays as it was. *)
Theorem appointment_not_rate_limited :
  (∀ (req : Request) (w : World),
     endpoint req ≠ ep_request_care ∨ method req ≠ POST →
     apply_simple_rate_limit req w = (Ret None, w))
  ∧ (∀ (req req' : Request) (w : World),
       endpoint req = ep_request_care → method req = POST →
       endpoint req' = ep_request_care → method req' = POST →
       client_ip_of req' = client_ip_of req →
       apply_simple_rate_limit req' w = apply_simple_rate_limit req w)
  ∧ status_of
      (handle_request (post ep_request_care (Some "203.0.113.7") jane_payload)
         (crowded_world "203.0.113.7")).1 = Some 429
  ∧ status_of
      (handle_request (post ep_submit_appointment (Some "203.0.113.7")
                         jane_appointment)
         (crowded_world "203.0.113.7")).1 = Some 200
  ∧ request_log
      (handle_request (post ep_submit_appointment (Some "203.0.113.7")
                         jane_appointment)
         (crowded_world "203.0.113.7")).2
    = request_log (crowded_world "203.0.113.7").
Proof.
  split; [exact hook_skips_other_endpoints|]. split.
  - intros req req' w He Hm He' Hm' Hip.
    by rewrite !apply_simple_rate_limit_run, He, Hm, He', Hm', Hip.
  - vm_compute. repeat split.
Qed.

(** ** Validation *)

Lemma strip_value_text (payload : gmap string pyval) (field : string) :
  text_or_absent payload field →
  strip_value (dict_get payload field (PStr "")) = Ret (trimmed payload field).
Proof.
  unfold dict_get, trimmed. by intros [-> | [s ->]].
Qed.

Lemma strip_value_ret_inv (payload : gmap string pyval) (field s : string) :
  strip_value (dict_get payload field (PStr "")) = Ret s →
  text_or_absent payload field.
Proof.
  unfold dict_get, text_or_absent.
  destruct (payload !! field) as [[]|]; simpl; try done; eauto.
Qed.

Lemma strip_value_raise_inv (v : pyval) (e : exn) :
  strip_value v = Raise e → e = AttributeError.
Proof. destruct v; simpl; congruence. Qed.

Lemma required_errors_text (payload : gmap string pyval)
    (rf : list (string * string)) (acc : gmap string string) :
  (∀ field, field ∈ rf.*1 → text_or_absent payload field) →
  required_errors payload rf acc = Ret (required_errors_of payload rf acc).
Proof.
  revert acc. induction rf as [|[field message] rf IH]; intros acc Hall; [done|].
  cbn [required_errors]. rewrite strip_value_text by (apply Hall; left).
  cbn [mbind result_bind]. rewrite IH; [done|].
  intros f Hf. apply Hall. by right.
Qed.

Lemma required_errors_ret_inv (payload : gmap string pyval)
    (rf : list (string * string)) (acc errs : gmap string string) :
  required_errors payload rf acc = Ret errs →
  ∀ field, field ∈ rf.*1 → text_or_absent payload field.
Proof.
  revert acc. induction rf as [|[field message] rf IH]; intros acc Hrun f Hf.
  { by apply elem_of_nil in Hf. }
  cbn [required_errors] in Hrun.
  destruct (strip_value (dict_get payload field (PStr ""))) as [s|e] eqn:Hs;
    [|done].
  cbn [mbind result_bind] in Hrun.
  apply elem_of_cons in Hf as [-> | Hf].
  - by eapply strip_value_ret_inv.
  - by eapply IH.
Qed.

Lemma required_errors_raise_inv (payload : gmap string pyval)
    (rf : list (string * string)) (acc : gmap string string) (e : exn) :
  required_errors payload rf acc = Raise e → e = AttributeError.
Proof.
  revert acc. induction rf as [|[field message] rf IH]; intros acc Hrun; [done|].
  cbn [required_errors] in Hrun.
  destruct (strip_value (dict_get payload field (PStr ""))) as [s|e'] eqn:Hs.
  - by eapply IH.
  - injection Hrun as <-. by eapply strip_value_raise_inv.
Qed.

(** The validation block on a payload whose fields are strings or absent. *)
Lemma validate_text (payload : gmap string pyval) (rf : list (string * string)) :
  (∀ field, field ∈ "email" :: rf.*1 → text_or_absent payload field) →
  validate payload rf =
    Ret (let errs := required_errors_of payload rf ∅ in
         if negb (String.eqb (trimmed payload "email") "")
            && negb (email_regex_match (trimmed payload "email"))
         then <["email" := "Please enter a valid email address."]> errs
         else errs).
Proof.
  intros Hall. unfold validate.
  rewrite required_errors_text by (intros f Hf; apply Hall; by right).
  cbn [mbind result_bind]. by rewrite strip_value_text by (apply Hall; left).
Qed.

Lemma trimmed_filled (payload : gmap string pyval) (field : string) :
  filled payload field → String.eqb (trimmed payload field) "" = false.
Proof.
  intros (s & Hs & Hne). unfold trimmed. rewrite Hs. by apply String.eqb_neq.
Qed.

Lemma filled_text (payload : gmap string pyval) (field : string) :
  filled payload field → text_or_absent payload field.
Proof. intros (s & Hs & _). right. eauto. Qed.

Ltac care_field H :=
  apply H; cbn; repeat constructor.

(** C7. On a care request whose six required fields are strings that are not
    blank and whose trimmed email does not match the pattern, as
    ["not-an-email"] does not, the validation block leaves exactly one error,
    under the key [email], and the view answers with it. The pattern is tried
    on a trimmed email that is not empty only: when the trimmed email is
    empty the errors are those of the required-field loop, and with the
    other five fields filled in the only error is the required-field message
    of the email. *)
Theorem malformed_email_single_error :
  (∀ (payload : gmap string pyval) (e : string),
     (∀ field, field ∈ care_required_fields.*1 → filled payload field) →
     payload !! "email" = Some (PStr e) →
     email_regex_match (strip e) = false →
     validate payload care_required_fields
       = Ret {[ "email" := "Please enter a valid email address." ]}
     ∧ ∀ fw send (w : World),
         validate_and_forward care_required_fields fw send payload w
         = (Ret (Jsonify
                   {| success := false;
                      message := "Please review highlighted fields.";
                      errors := Some {[ "email" :=
                                          "Please enter a valid email address." ]};
                      csrf_token := next_token w |} 400), after_issue w))
  ∧ email_regex_match (strip "not-an-email") = false
  ∧ (∀ (payload : gmap string pyval) (rf : list (string * string)),
       strip_value (dict_get payload "email" (PStr "")) = Ret "" →
       validate payload rf = required_errors payload rf ∅)
  ∧ (∀ payload : gmap string pyval,
       (∀ field, field ∈ care_required_fields.*1 → field ≠ "email" →
                 filled payload field) →
       payload !! "email" = None
       ∨ (∃ e, payload !! "email" = Some (PStr e) ∧ strip e = "") →
       validate payload care_required_fields
         = Ret {[ "email" := "Valid email is required." ]}).
Proof.
  split; [|split; [|split]].
  - intros payload e Hall He Hbad.
    assert (validate payload care_required_fields
            = Ret {[ "email" := "Please enter a valid email address." ]}) as Hv.
    { rewrite validate_text by (intros f [-> | Hf]%elem_of_cons;
                                apply filled_text, Hall; [cbn; repeat constructor|done]).
      cbv zeta. unfold required_errors_of, care_required_fields. cbn [foldl].
      rewrite !trimmed_filled by care_field Hall.
      unfold trimmed. rewrite He, Hbad.
      cbn [negb andb]. by rewrite insert_empty. }
    split; [done|]. intros fw send w.
    rewrite validate_and_forward_run, Hv.
    rewrite bool_decide_eq_false_2; [done|].
    intros Hempty. apply (f_equal (λ m : gmap string string, m !! "email")) in Hempty.
    by rewrite lookup_singleton_eq, lookup_empty in Hempty.
  - vm_compute. reflexivity.
  - intros payload rf He. unfold validate.
    destruct (required_errors payload rf ∅) as [errs|e]; [|done].
    cbn [mbind result_bind]. by rewrite He.
  - intros payload Hall He.
    assert (text_or_absent payload "email" ∧ trimmed payload "email" = "")
      as [Htext Htrim].
    { unfold text_or_absent, trimmed.
      destruct He as [-> | (e & -> & ->)]; [by split; [left|]|by split; [right; eauto|]]. }
    rewrite validate_text.
    2:{ intros f Hf. destruct (decide (f = "email")) as [-> | Hne]; [done|].
        apply filled_text, Hall; [|done].
        apply elem_of_cons in Hf as [-> | Hf]; done. }
    cbv zeta. unfold required_errors_of, care_required_fields. cbn [foldl].
    rewrite Htrim.
    rewrite !trimmed_filled by (apply Hall; [cbn; repeat constructor|done]).
    cbn [String.eqb negb andb]. by rewrite insert_empty.
Qed.

(** The care request of the specification with its email replaced by
    ["not-an-email"], and with its email removed. *)
Lemma malformed_email_single_error_run :
  validate (<["email" := PStr "not-an-email"]> jane_payload) care_required_fields
    = Ret {[ "email" := "Please enter a valid email address." ]}
  ∧ validate (delete "email" jane_payload) care_required_fields
    = Ret {[ "email" := "Valid email is required." ]}.
Proof.
  destruct malformed_email_single_error as (Hbad & _ & _ & Hempty). split.
  - apply (Hbad (<["email" := PStr "not-an-email"]> jane_payload) "not-an-email").
    + intros field Hf. cbn in Hf.
      repeat (apply elem_of_cons in Hf as [-> | Hf];
              [eexists; split; [vm_compute; reflexivity|vm_compute; discriminate]|]).
      by apply elem_of_nil in Hf.
    + vm_compute. reflexivity.
    + vm_compute. reflexivity.
  - apply (Hempty (delete "email" jane_payload)).
    + intros field Hf Hne. cbn in Hf.
      repeat (apply elem_of_cons in Hf as [-> | Hf];
              [first [done
                     |eexists; split; [vm_compute; reflexivity|vm_compute; discriminate]]|]).
      by apply elem_of_nil in Hf.
    + left. vm_compute. reflexivity.
Defined.

(** C10. The validation block returns its errors exactly when the email and
    every required field of the payload are strings or absent; otherwise it
    raises [AttributeError]. So a submission that gets past the hook, the
    honeypot, the token and the timing checks and maps a required field to a
    value that is not a string ends in an exception that no handler of the
    view catches, not in a validation answer. *)
Theorem non_string_field_raises :
  (∀ (payload : gmap string pyval) (rf : list (string * string)),
     (∃ errs, validate payload rf = Ret errs)
     ↔ ∀ field, field ∈ "email" :: rf.*1 → text_or_absent payload field)
  ∧ (∀ (payload : gmap string pyval) (rf : list (string * string)) (e : exn),
       validate payload rf = Raise e → e = AttributeError)
  ∧ (∀ (req : Request) (w w1 : World) (payload : gmap string pyval) (ft : Z)
       (field : string) (v : pyval),
       submission_endpoint (endpoint req) → method req = POST →
       apply_simple_rate_limit req w = (Ret None, w1) →
       is_json req = true →
       payload_of req = Ret payload →
       truthy (dict_get payload (honeypot_field (endpoint req)) PNone) = false →
       truthy (dict_get payload "csrf_token" PNone) = true →
       token_equal (dict_get payload "csrf_token" PNone)
         (sess_csrf_token (session w1)) = true →
       sess_form_time (session w1) = Some ft → ft ≠ 0%Z →
       (3 <= time_now w1 - inject_Z ft)%Q →
       field ∈ (required_fields_of (endpoint req)).*1 →
       payload !! field = Some v → (∀ s, v ≠ PStr s) →
       handle_request req w = (Raise AttributeError, tick w1)).
Proof.
  assert (∀ (payload : gmap string pyval) (rf : list (string * string)),
     (∃ errs, validate payload rf = Ret errs)
     ↔ ∀ field, field ∈ "email" :: rf.*1 → text_or_absent payload field) as Hiff.
  { intros payload rf. split.
    - intros [errs Hv] field Hf. unfold validate in Hv.
      destruct (required_errors payload rf ∅) as [errs0|e] eqn:Hreq; [|done].
      cbn [mbind result_bind] in Hv.
      destruct (strip_value (dict_get payload "email" (PStr ""))) as [s|e] eqn:Hs;
        [|done].
      apply elem_of_cons in Hf as [-> | Hf].
      + by eapply strip_value_ret_inv.
      + by eapply required_errors_ret_inv.
    - intros Hall. rewrite validate_text by done. eauto. }
  assert (∀ (payload : gmap string pyval) (rf : list (string * string)) (e : exn),
       validate payload rf = Raise e → e = AttributeError) as Hexn.
  { intros payload rf e. unfold validate.
    destruct (required_errors payload rf ∅) as [errs0|e0] eqn:Hreq.
    - cbn [mbind result_bind].
      destruct (strip_value (dict_get payload "email" (PStr ""))) as [s|e1] eqn:Hs;
        [done|].
      intros [= <-]. by eapply strip_value_raise_inv.
    - intros [= <-]. by eapply required_errors_raise_inv. }
  split; [done|]. split; [done|].
  intros req w w1 payload ft field v Hep Hm Hhook Hjson Hpay Hhp Htok Heq Hft Hnz
    Hslow Hfield Hv Hnot.
  rewrite handle_request_post, Hhook by done.
  destruct (submission_view_of_endpoint req Hep) as (fw & send & _ & ->).
  rewrite submission_view_run, Hjson, Hpay, Hhp, Htok, Heq, Hft. cbn [negb orb].
  rewrite (proj2 (Z.eqb_neq ft 0) Hnz).
  destruct (Qlt_le_dec _ _) as [Hlt|_].
  { exfalso. revert Hlt. by apply Qle_not_lt. }
  rewrite validate_and_forward_run.
  destruct (validate payload (required_fields_of (endpoint req))) as [errs|e] eqn:Hval.
  - exfalso.
    destruct (proj1 (Hiff _ _) (ex_intro _ errs Hval) field) as [Hnone | [s Hs]].
    + by right.
    + congruence.
    + rewrite Hs in Hv. injection Hv as <-. by eapply Hnot.
  - by rewrite (Hexn _ _ _ Hval).
Qed.

(** The care request of the specification with [null] for the full name. *)
Lemma non_string_field_raises_run :
  (handle_request
     (post ep_request_care (Some "203.0.113.7") (<["full_name" := PNone]> jane_payload))
     demo_world).1 = Raise AttributeError.
Proof.
  destruct non_string_field_raises as (_ & _ & Hraise).
  erewrite (Hraise
              (post ep_request_care (Some "203.0.113.7")
                 (<["full_name" := PNone]> jane_payload))
              demo_world _ (<["full_name" := PNone]> jane_payload) 1000%Z
              "full_name" PNone).
  - reflexivity.
  - by left.
  - reflexivity.
  - vm_compute. reflexivity.
  - reflexivity.
  - vm_compute. reflexivity.
  - vm_compute. reflexivity.
  - vm_compute. reflexivity.
  - vm_compute. reflexivity.
  - reflexivity.
  - discriminate.
  - vm_compute. discriminate.
  - cbn. repeat constructor.
  - vm_compute. reflexivity.
  - discriminate.
Defined.

(** ** The notifier *)

(** With a port that parses, a missing or empty server, user name, password
    or destination makes [send_email] report the failure. *)
Lemma send_email_missing_configuration subject reply_to body (w : World) (port : Z) :
  py_int (default "587" (environ w !! "MAIL_PORT")) = Ret port →
  str_truthy (environ w !! "MAIL_SERVER")
  && str_truthy (environ w !! "MAIL_USERNAME")
  && str_truthy (environ w !! "MAIL_PASSWORD")
  && str_truthy (environ w !! "DESTINATION_EMAIL") = false →
  send_email subject reply_to body w
    = (Ret (false, "Email configuration missing. Please set environment variables."),
       w).
Proof.
  intros Hport Hmissing. unfold send_email.
  rewrite bind_run. unfold gets at 1. rewrite bind_run. unfold pure at 1.
  rewrite Hport. cbv zeta.
  destruct (str_truthy (environ w !! "MAIL_SERVER")),
    (str_truthy (environ w !! "MAIL_USERNAME")),
    (str_truthy (environ w !! "MAIL_PASSWORD")),
    (str_truthy (environ w !! "DESTINATION_EMAIL")); try done;
    by rewrite ?andb_false_r.
Qed.

(** C8 (where the code departs from it). [MAIL_PORT] is converted with
    [int] before the configuration is checked and outside the [try]: when
    it is set to a text that is not a number, the empty text included,
    [send_email] raises [ValueError], whatever else is configured; the
    exception goes through the view, and the request ends without an
    answer of the pipeline. *)
Theorem send_email_bad_port_raises :
  (∀ (w : World) (subject : string) (reply_to : option string)
     (body port : string),
     environ w !! "MAIL_PORT" = Some port →
     py_int port = Raise ValueError →
     send_email subject reply_to body w = (Raise ValueError, w))
  ∧ py_int "" = Raise ValueError
  ∧ send_email "New Care Request from Jane Doe" (Some "jane@example.com") "body"
      (with_environ {[ "MAIL_PORT" := "" ]} demo_world)
    = (Raise ValueError, with_environ {[ "MAIL_PORT" := "" ]} demo_world)
  ∧ (handle_request (post ep_request_care (Some "203.0.113.7") jane_payload)
       (with_environ {[ "MAIL_PORT" := "" ]} demo_world)).1 = Raise ValueError.
Proof.
  assert (∀ (w : World) (subject : string) (reply_to : option string)
     (body port : string),
     environ w !! "MAIL_PORT" = Some port →
     py_int port = Raise ValueError →
     send_email subject reply_to body w = (Raise ValueError, w)) as Hgen.
  { intros w subject reply_to body port Henv Hport. unfold send_email.
    rewrite bind_run. unfold gets at 1. rewrite bind_run. unfold pure at 1.
    rewrite Henv. change (default "587" (Some port)) with port. by rewrite Hport. }
  split; [done|]. split; [reflexivity|]. split.
  - by apply (Hgen _ _ _ _ "").
  - vm_compute. reflexivity.
Qed.

(** ** The request log under whole requests *)

(** The hook leaves the log as it was or as one call of the limiter left it. *)
Lemma apply_simple_rate_limit_log (req : Request) (w : World) :
  request_log (apply_simple_rate_limit req w).2 = request_log w
  ∨ ∃ ip now_ts,
      request_log (apply_simple_rate_limit req w).2
      = (is_rate_limited_at ip now_ts (request_log w)).2.
Proof.
  rewrite apply_simple_rate_limit_run. destruct (_ && _); [|by left].
  right. eexists _, _. cbv zeta. by destruct (is_rate_limited_at _ _ _).1.
Qed.

Lemma handle_request_bounded (req : Request) (w : World) :
  bounded (request_log w) → bounded (request_log (handle_request req w).2).
Proof.
  intros Hb.
  assert (bounded (request_log (apply_simple_rate_limit req w).2)) as Hhook.
  { destruct (apply_simple_rate_limit_log req w) as [-> | (ip & now_ts & ->)];
      [done|by apply is_rate_limited_at_bounded]. }
  destruct (handle_request req w) as [r w'] eqn:Hrun. cbn [snd].
  destruct (apply_simple_rate_limit req w) as [[[resp|]|e] w1] eqn:Hh;
    cbn [snd] in Hhook.
  - unfold handle_request in Hrun. rewrite bind_run, Hh in Hrun.
    by injection Hrun as <- <-.
  - destruct (handle_request_past_hook req w w1 w' r Hh Hrun) as [-> _]. done.
  - unfold handle_request in Hrun. rewrite bind_run, Hh in Hrun.
    by injection Hrun as <- <-.
Qed.

(** Whatever requests arrive, in whatever order, no window of the request
    log grows beyond 5 timestamps: the limiter is the only code that writes
    to the log. *)
Theorem request_log_stays_bounded (reqs : list Request) (w : World) :
  bounded (request_log w) →
  bounded (request_log (handle_requests reqs w).2).
Proof.
  revert w. induction reqs as [|req reqs IH]; intros w Hb; [done|].
  cbn [handle_requests].
  pose proof (handle_request_bounded req w Hb) as H1.
  destruct (handle_request req w) as [r w1]. cbn [snd] in H1.
  specialize (IH w1 H1). destruct (handle_requests reqs w1) as [rs w2]. done.
Qed.

(** Seven care requests in a row from one address. *)
Lemma request_log_stays_bounded_run :
  length (window_of
            (request_log
               (handle_requests
                  (replicate 7 (post ep_request_care (Some "203.0.113.7")
                                  jane_payload)) demo_world).2)
            "203.0.113.7") ≤ 5.
Proof.
  apply (request_log_stays_bounded
           (replicate 7 (post ep_request_care (Some "203.0.113.7") jane_payload))
           demo_world).
  intros ip. vm_compute. lia.
Defined.

(** ** The guarantee of the limiter *)

Lemma spaced_snoc (old kept : list Q) (now_ts : Q) :
  spaced (old ++ kept) →
  length kept < RATE_LIMIT_MAX →
  Forall (λ t, (RATE_LIMIT_WINDOW < now_ts - t)%Q) old →
  spaced (old ++ kept ++ [now_ts]).
Proof.
  intros Hsp Hlen Hold i t t' Hi Hi'.
  rewrite app_assoc in Hi, Hi'.
  destruct (decide (i + RATE_LIMIT_MAX < length (old ++ kept))%nat) as [Hlt|Hge].
  - rewrite lookup_app_l in Hi' by done.
    rewrite lookup_app_l in Hi by lia. by eapply Hsp.
  - assert (i + RATE_LIMIT_MAX = length (old ++ kept))%nat as Heq.
    { apply lookup_lt_Some in Hi'. rewrite length_app in Hi'. simpl in Hi'. lia. }
    rewrite Heq, lookup_app_r, Nat.sub_diag in Hi' by done.
    injection Hi' as <-.
    rewrite length_app in Heq.
    rewrite lookup_app_l in Hi by (rewrite length_app; lia).
    rewrite lookup_app_l in Hi by lia.
    eapply Forall_lookup_1 in Hold; [|done]. done.
Qed.

Lemma admitted_times_spaced (ip : string) (calls : list (string * Q))
    (log : gmap string (list Q)) (old : list Q) (lo : Q) :
  nondecreasing_from lo calls →
  length (window_of log ip) ≤ RATE_LIMIT_MAX →
  Forall (λ t, (RATE_LIMIT_WINDOW < lo - t)%Q) old →
  spaced (old ++ window_of log ip) →
  spaced (old ++ window_of log ip ++ admitted_times ip calls log).
Proof.
  revert log old lo.
  induction calls as [|[ip' now_ts] calls IH]; intros log old lo Hmono Hlen Hold Hsp.
  { simpl. by rewrite app_nil_r. }
  destruct Hmono as [Hlo Hmono]. cbn [admitted_times].
  assert (Forall (λ t, (RATE_LIMIT_WINDOW < now_ts - t)%Q) old) as Hold1.
  { eapply Forall_impl; [exact Hold|]. intros t Ht. simpl in Ht. lra. }
  destruct (decide (ip' = ip)) as [->|Hne].
  - rewrite is_rate_limited_at_unfold. cbv zeta.
    rewrite bool_decide_eq_true_2 by done. cbn [andb].
    destruct (popleft_expired_split now_ts (window_of log ip)) as (ev & Hw & Hev).
    set (kept := popleft_expired now_ts (window_of log ip)) in *.
    assert (Forall (λ t, (RATE_LIMIT_WINDOW < now_ts - t)%Q) (old ++ ev)) as Hold'.
    { apply Forall_app. by split. }
    assert (length kept ≤ length (window_of log ip)) as Hk
      by apply popleft_expired_length.
    destruct (RATE_LIMIT_MAX <=? length kept) eqn:Hfull.
    + cbn [negb app].
      specialize (IH (<[ip := kept]> log) (old ++ ev) now_ts Hmono).
      rewrite window_of_insert in IH.
      rewrite Hw. rewrite <- (app_assoc ev), (app_assoc old).
      apply IH; [lia|done|]. by rewrite <- app_assoc, <- Hw.
    + cbn [negb]. apply Nat.leb_gt in Hfull.
      specialize (IH (<[ip := kept ++ [now_ts]]> log) (old ++ ev) now_ts Hmono).
      rewrite window_of_insert in IH.
      rewrite Hw. rewrite <- (app_assoc ev), (app_assoc old).
      rewrite (app_assoc kept).
      apply IH.
      * rewrite length_app. simpl. lia.
      * done.
      * apply spaced_snoc; [|done|done]. by rewrite <- app_assoc, <- Hw.
  - pose proof (is_rate_limited_at_other ip' ip now_ts log Hne) as Hsame.
    destruct (is_rate_limited_at ip' now_ts log) as [limited log1].
    cbn [snd] in Hsame.
    rewrite bool_decide_eq_false_2 by done. cbn [andb app].
    rewrite <- Hsame. apply (IH log1 old now_ts Hmono); rewrite ?Hsame; done.
Qed.

(** The guarantee of the limiter. When the clock never goes back, the calls
    let through for one identity are spaced: any one of them and the fifth
    one after it are more than 600 seconds apart, so no span of 600 seconds
    holds more than 5 of them, whatever calls for other identities and
    whatever limited calls come in between. *)
Theorem at_most_five_per_window (ip : string) (calls : list (string * Q)) (lo : Q)
    (i : nat) (t t' : Q) :
  nondecreasing_from lo calls →
  admitted_times ip calls ∅ !! i = Some t →
  admitted_times ip calls ∅ !! (i + 5)%nat = Some t' →
  (600 < t' - t)%Q.
Proof.
  intros Hmono.
  pose proof (admitted_times_spaced ip calls ∅ [] lo Hmono) as H.
  unfold window_of in H. rewrite lookup_empty in H. simpl in H.
  apply H; [unfold RATE_LIMIT_MAX; lia|done|]. intros j u u' Hj. done.
Qed.

(** Calls for one client at seconds 0 to 5, one for another client, and one
    at second 601: the sixth admission is the call at second 601. *)
Lemma at_most_five_per_window_run :
  admitted_times "a"
    [("a", 0%Q); ("a", 1%Q); ("a", 2%Q); ("a", 3%Q); ("a", 4%Q); ("a", 5%Q);
     ("b", 100%Q); ("a", 601%Q)] ∅
    = [0%Q; 1%Q; 2%Q; 3%Q; 4%Q; 601%Q]
  ∧ (600 < 601 - 0)%Q.
Proof.
  split; [vm_compute; reflexivity|].
  apply (at_most_five_per_window "a"
           [("a", 0%Q); ("a", 1%Q); ("a", 2%Q); ("a", 3%Q); ("a", 4%Q);
            ("a", 5%Q); ("b", 100%Q); ("a", 601%Q)] 0%Q 0 0%Q 601%Q).
  - simpl. repeat split; unfold Qle; simpl; lia.
  - vm_compute. reflexivity.
  - vm_compute. reflexivity.
Defined.

(** ** One identity does not see the others *)

Lemma is_rate_limited_at_same_window (ip : string) (now_ts : Q)
    (log log' : gmap string (list Q)) :
  window_of log ip = window_of log' ip →
  (is_rate_limited_at ip now_ts log).1 = (is_rate_limited_at ip now_ts log').1
  ∧ window_of (is_rate_limited_at ip now_ts log).2 ip
    = window_of (is_rate_limited_at ip now_ts log').2 ip.
Proof.
  intros Hw. rewrite !is_rate_limited_at_unfold. cbv zeta. rewrite Hw.
  destruct (RATE_LIMIT_MAX <=? _); cbn [fst snd]; by rewrite !window_of_insert.
Qed.

Lemma answers_for_same_window (ip : string) (calls : list (string * Q))
    (log log' : gmap string (list Q)) :
  window_of log ip = window_of log' ip →
  answers_for ip calls log
    = answers_for ip (filter (λ call, call.1 = ip) calls) log'
  ∧ window_of (run_limiter calls log).2 ip
    = window_of (run_limiter (filter (λ call, call.1 = ip) calls) log').2 ip.
Proof.
  revert log log'. induction calls as [|[ip' now_ts] calls IH]; intros log log' Hw.
  { done. }
  destruct (decide (ip' = ip)) as [->|Hne].
  - rewrite filter_cons_True by done. cbn [answers_for run_limiter].
    destruct (is_rate_limited_at_same_window ip now_ts log log' Hw) as [Hb Hw'].
    destruct (is_rate_limited_at ip now_ts log) as [b log1].
    destruct (is_rate_limited_at ip now_ts log') as [b' log1'].
    cbn [fst snd] in Hb, Hw'. subst b'.
    destruct (IH log1 log1' Hw') as [Ha Hr]. rewrite Ha.
    destruct (run_limiter calls log1) as [bs log2].
    destruct (run_limiter (filter _ calls) log1') as [bs' log2']. done.
  - rewrite filter_cons_False by done. cbn [answers_for run_limiter].
    pose proof (is_rate_limited_at_other ip' ip now_ts log Hne) as Hsame.
    destruct (is_rate_limited_at ip' now_ts log) as [b log1]. cbn [snd] in Hsame.
    rewrite bool_decide_eq_false_2 by done. cbn [app].
    destruct (IH log1 log' (eq_trans Hsame Hw)) as [Ha Hr]. rewrite Ha.
    destruct (run_limiter calls log1) as [bs log2]. done.
Qed.

(** The answers an identity gets, and the window the limiter keeps for it,
    are what they would be had the calls for all other identities not been
    made. *)
Theorem other_identities_do_not_interfere (ip : string)
    (calls : list (string * Q)) (log : gmap string (list Q)) :
  answers_for ip calls log
    = answers_for ip (filter (λ call, call.1 = ip) calls) log
  ∧ window_of (run_limiter calls log).2 ip
    = window_of (run_limiter (filter (λ call, call.1 = ip) calls) log).2 ip.
Proof. by apply answers_for_same_window. Qed.

(** ** The windows under a clock that never goes back *)

Lemma rising_app (a b : list Q) :
  rising (a ++ b)
  ↔ rising a ∧ rising b ∧ Forall (λ x, Forall (λ y, (x <= y)%Q) b) a.
Proof.
  induction a as [|t a IH]; simpl.
  - split; [by intros ?|by intros (_ & ? & _)].
  - rewrite Forall_app, IH, Forall_cons. tauto.
Qed.

Lemma is_rate_limited_at_time_ordered (ip : string) (now_ts hi : Q)
    (log : gmap string (list Q)) :
  time_ordered hi log → (hi <= now_ts)%Q →
  time_ordered now_ts (is_rate_limited_at ip now_ts log).2.
Proof.
  intros Hord Hhi ip'.
  assert (∀ w, Forall (λ t, (t <= hi)%Q) w → Forall (λ t, (t <= now_ts)%Q) w)
    as Hmono.
  { intros w Hw. eapply Forall_impl; [exact Hw|]. intros t Ht. simpl in Ht. lra. }
  destruct (decide (ip = ip')) as [<-|Hne].
  2:{ rewrite is_rate_limited_at_other by done.
      destruct (Hord ip') as [? ?]. split; [done|by apply Hmono]. }
  destruct (Hord ip) as [Hr Hle].
  rewrite is_rate_limited_at_unfold. cbv zeta.
  destruct (popleft_expired_split now_ts (window_of log ip)) as (ev & Hw & _).
  set (kept := popleft_expired now_ts (window_of log ip)) in *.
  rewrite Hw in Hr, Hle. apply rising_app in Hr as (_ & Hk & _).
  apply Forall_app in Hle as [_ Hle]. apply Hmono in Hle.
  destruct (RATE_LIMIT_MAX <=? length kept); cbn [snd]; rewrite window_of_insert.
  - done.
  - split.
    + apply rising_app. split; [done|]. split; [by repeat constructor|].
      eapply Forall_impl; [exact Hle|]. intros t Ht. by repeat constructor.
    + apply Forall_app. split; [done|]. repeat constructor. lra.
Qed.

(** What holds of the timestamps of a window and of the clock reading holds
    of the timestamps of the window after the call. *)
Lemma is_rate_limited_at_Forall (P : Q → Prop) (ip ip' : string) (now_ts : Q)
    (log : gmap string (list Q)) :
  P now_ts → Forall P (window_of log ip') →
  Forall P (window_of (is_rate_limited_at ip now_ts log).2 ip').
Proof.
  intros Hnow Hall. destruct (decide (ip = ip')) as [<-|Hne].
  2:{ by rewrite is_rate_limited_at_other. }
  rewrite is_rate_limited_at_unfold. cbv zeta.
  destruct (popleft_expired_split now_ts (window_of log ip)) as (ev & Hw & _).
  set (kept := popleft_expired now_ts (window_of log ip)) in *.
  rewrite Hw in Hall. apply Forall_app in Hall as [_ Hk].
  destruct (RATE_LIMIT_MAX <=? length kept); cbn [snd]; rewrite window_of_insert.
  - done.
  - apply Forall_app. split; [done|]. by repeat constructor.
Qed.

(** After a call for [ip] at [now_ts], in a log whose windows are in time
    order and not ahead of the clock, the window of [ip] holds only
    timestamps of the last 600 seconds, provided their ages are computed
    without rounding: the eviction of the expired prefix then leaves no
    expired timestamp behind. *)
Lemma is_rate_limited_at_fresh (ip : string) (now_ts hi : Q)
    (log : gmap string (list Q)) :
  time_ordered hi log → (hi <= now_ts)%Q →
  Forall (exact_age now_ts) (window_of log ip) →
  Forall (λ t, (t <= now_ts)%Q ∧ (now_ts - t <= 600)%Q)
    (window_of (is_rate_limited_at ip now_ts log).2 ip).
Proof.
  intros Hord Hhi Hex. destruct (Hord ip) as [Hr Hle].
  rewrite is_rate_limited_at_unfold. cbv zeta.
  destruct (popleft_expired_split now_ts (window_of log ip)) as (ev & Hw & _).
  pose proof (popleft_expired_head now_ts (window_of log ip)) as Hhead.
  set (kept := popleft_expired now_ts (window_of log ip)) in *.
  rewrite Hw in Hr, Hle, Hex. apply rising_app in Hr as (_ & Hk & _).
  apply Forall_app in Hle as [_ Hle]. apply Forall_app in Hex as [_ Hex].
  assert (Forall (λ t, (t <= now_ts)%Q ∧ (now_ts - t <= 600)%Q) kept) as Hfresh.
  { destruct kept as [|t0 rest]; [done|].
    apply Forall_cons in Hex as [Hex0 _].
    specialize (Hhead t0 rest eq_refl Hex0). unfold RATE_LIMIT_WINDOW in Hhead.
    destruct Hk as [Hge _]. apply Forall_cons in Hle as [Ht0 Hle].
    constructor; [split; lra|].
    apply Forall_forall. intros t Ht.
    eapply Forall_forall in Hge; [|done]. eapply Forall_forall in Hle; [|done].
    simpl in *. split; lra. }
  destruct (RATE_LIMIT_MAX <=? length kept); cbn [snd]; rewrite window_of_insert.
  - done.
  - apply Forall_app. split; [done|]. repeat constructor; lra.
Qed.

(** With a clock that never goes back, from the empty log, the window of an
    identity right after a call for it is in time order; and it holds only
    timestamps of the last 600 seconds when the ages of the earlier calls
    at that reading are computed without rounding. *)
Theorem window_holds_last_ten_minutes (calls : list (string * Q)) (lo : Q)
    (ip : string) (now_ts : Q) :
  nondecreasing_from lo (calls ++ [(ip, now_ts)]) →
  let window := window_of (run_limiter (calls ++ [(ip, now_ts)]) ∅).2 ip in
  rising window
  ∧ (Forall (λ call, exact_age now_ts call.2) calls →
     Forall (λ t, (t <= now_ts)%Q ∧ (now_ts - t <= 600)%Q) window).
Proof.
  intros Hm window.
  assert (∀ (cs : list (string * Q)) (lo' : Q) (log : gmap string (list Q)),
    nondecreasing_from lo' (cs ++ [(ip, now_ts)]) → time_ordered lo' log →
    let w := window_of (run_limiter (cs ++ [(ip, now_ts)]) log).2 ip in
    rising w
    ∧ (Forall (λ call, exact_age now_ts call.2) cs →
       (∀ ip', Forall (exact_age now_ts) (window_of log ip')) →
       Forall (λ t, (t <= now_ts)%Q ∧ (now_ts - t <= 600)%Q) w)) as Hgen.
  { induction cs as [|[ip' t'] cs IH]; intros lo' log Hm' Hord.
    - destruct Hm' as [Hlo _]. cbn [app run_limiter].
      pose proof (is_rate_limited_at_time_ordered ip now_ts lo' log Hord Hlo ip)
        as [Hr _].
      pose proof (is_rate_limited_at_fresh ip now_ts lo' log Hord Hlo) as Hf.
      destruct (is_rate_limited_at ip now_ts log) as [b log1].
      split; [done|]. intros _ Hex. by apply Hf.
    - destruct Hm' as [Hlo Hm']. cbn [app run_limiter].
      pose proof (is_rate_limited_at_time_ordered ip' t' lo' log Hord Hlo) as H1.
      pose proof (λ ip0, is_rate_limited_at_Forall (exact_age now_ts) ip' ip0 t' log)
        as H2.
      destruct (is_rate_limited_at ip' t' log) as [b log1]. cbn [snd] in H1, H2.
      specialize (IH t' log1 Hm' H1).
      destruct (run_limiter (cs ++ [(ip, now_ts)]) log1) as [bs log2].
      destruct IH as [IHr IHf]. split; [done|]. intros Hcs Hex.
      apply Forall_cons in Hcs as [Ht' Hcs]. apply IHf; [done|].
      intros ip0. by apply H2. }
  destruct (Hgen calls lo ∅ Hm) as [Hr Hf].
  { intros ip'. unfold window_of. rewrite lookup_empty. by split. }
  split; [done|]. intros Hex. apply Hf; [done|].
  intros ip'. unfold window_of. by rewrite lookup_empty.
Qed.

Lemma window_holds_last_ten_minutes_run :
  let window :=
    window_of (run_limiter [("a", 0%Q); ("a", 300%Q); ("b", 400%Q); ("a", 700%Q)] ∅).2
      "a" in
  window = [300%Q; 700%Q]
  ∧ Forall (λ t, (t <= 700)%Q ∧ (700 - t <= 600)%Q) window.
Proof.
  split; [vm_compute; reflexivity|].
  apply (window_holds_last_ten_minutes
           [("a", 0%Q); ("a", 300%Q); ("b", 400%Q)] 0%Q "a" 700%Q).
  - simpl. repeat split; unfold Qle; simpl; lia.
  - repeat constructor.
    + by apply (representable_inject_Z 700).
    + by apply (representable_inject_Z 400).
    + by apply (representable_inject_Z 300).
Defined.

(** ** The matcher and the pattern of the email *)

Lemma append_cons (c : Ascii.ascii) (a b : string) :
  String c a +:+ b = String c (a +:+ b).
Proof. reflexivity. Qed.

Lemma append_empty_l (b : string) : "" +:+ b = b.
Proof. reflexivity. Qed.

Lemma append_empty_r (s : string) : s +:+ "" = s.
Proof. induction s as [|c s IH]; [done|]. by rewrite append_cons, IH. Qed.

Lemma append_assoc (a b c : string) : (a +:+ b) +:+ c = a +:+ b +:+ c.
Proof. induction a as [|x a IH]; [done|]. by rewrite !append_cons, IH. Qed.

Lemma append_eq_empty (a b : string) : a +:+ b = "" → a = "" ∧ b = "".
Proof. destruct a; [done|]. rewrite append_cons. discriminate. Qed.

Lemma nullable_matches (r : regex) : nullable r = true ↔ matches r "".
Proof.
  induction r as [| |p|r1 IH1 r2 IH2|r1 IH1 r2 IH2|r IH]; simpl.
  - split; [done|]. inversion 1.
  - split; [constructor|done].
  - split; [done|]. inversion 1.
  - rewrite andb_true_iff, IH1, IH2. split.
    + intros [H1 H2]. by apply (matches_seq r1 r2 "" "").
    + inversion 1 as [| |? ? s1 s2 H1 H2 [Hr1 Hr2] Hs| | | |]; subst.
      apply append_eq_empty in Hs as [-> ->]. done.
  - rewrite orb_true_iff, IH1, IH2. split.
    + intros [H|H]; [by apply matches_alt_l|by apply matches_alt_r].
    + inversion 1; subst; auto.
  - split; [constructor|done].
Qed.

(** A word of [RStar r] that starts with [c] starts with a word of [r] that
    starts with [c]. *)
Lemma matches_star_cons_inv (r : regex) (t : string) :
  matches (RStar r) t →
  ∀ c s, t = String c s →
  ∃ s1 s2, s = s1 +:+ s2 ∧ matches r (String c s1) ∧ matches (RStar r) s2.
Proof.
  remember (RStar r) as r' eqn:Hr. intros H. revert Hr.
  induction H as [| | | | | |r0 s1 s2 H1 _ H2 IH2]; intros Hr x u Ht;
    try discriminate.
  injection Hr as ->. destruct s1 as [|c1 s1]; rewrite ?append_empty_l, ?append_cons in Ht.
  - by apply IH2.
  - injection Ht as -> <-. by exists s1, s2.
Qed.

Lemma deriv_matches (r : regex) (c : Ascii.ascii) (s : string) :
  matches (deriv c r) s ↔ matches r (String c s).
Proof.
  revert s. induction r as [| |p|r1 IH1 r2 IH2|r1 IH1 r2 IH2|r IH]; intros s; simpl.
  - split; inversion 1.
  - split; inversion 1.
  - destruct (p c) eqn:Hp; split.
    + inversion 1; subst. by constructor.
    + inversion 1; subst. constructor.
    + inversion 1.
    + inversion 1; subst. congruence.
  - assert (matches (RSeq (deriv c r1) r2) s
            ↔ ∃ s1 s2, s = s1 +:+ s2 ∧ matches r1 (String c s1) ∧ matches r2 s2)
      as Hseq.
    { split.
      - inversion 1 as [| |? ? s1 s2 H1 H2| | | |]; subst.
        exists s1, s2. by rewrite <- IH1.
      - intros (s1 & s2 & -> & H1 & H2). constructor; [by apply IH1|done]. }
    assert (matches (RSeq r1 r2) (String c s)
            ↔ (∃ s1 s2, s = s1 +:+ s2 ∧ matches r1 (String c s1) ∧ matches r2 s2)
              ∨ (matches r1 "" ∧ matches r2 (String c s))) as Hall.
    { split.
      - inversion 1 as [| |? ? s1 s2 H1 H2 [Hr1 Hr2] Hs| | | |]; subst.
        destruct s1 as [|c1 s1]; rewrite ?append_empty_l, ?append_cons in Hs.
        + subst. by right.
        + injection Hs as -> <-. left. by exists s1, s2.
      - intros [(s1 & s2 & -> & H1 & H2) | [H1 H2]].
        + by apply (matches_seq r1 r2 (String c s1) s2).
        + by apply (matches_seq r1 r2 "" (String c s)). }
    rewrite Hall. destruct (nullable r1) eqn:Hn.
    + split.
      * inversion 1; subst; [left; by apply Hseq|].
        right. split; [by apply nullable_matches|by apply IH2].
      * intros [H | [_ H]]; [apply matches_alt_l; by apply Hseq|].
        apply matches_alt_r. by apply IH2.
    + rewrite Hseq. split; [by left|]. intros [H | [H _]]; [done|].
      apply nullable_matches in H. congruence.
  - split.
    + inversion 1; subst; [apply matches_alt_l; by apply IH1|
                           apply matches_alt_r; by apply IH2].
    + inversion 1; subst; [apply matches_alt_l; by apply IH1|
                           apply matches_alt_r; by apply IH2].
  - split.
    + inversion 1 as [| |? ? s1 s2 H1 H2| | | |]; subst.
      apply (matches_star_more r (String c s1) s2); [by apply IH|done].
    + intros H.
      destruct (matches_star_cons_inv r _ H c s eq_refl) as (s1 & s2 & -> & H1 & H2).
      constructor; [by apply IH|done].
Qed.

(** The matcher by derivatives accepts the words of the expression, and no
    other string. *)
Theorem fullmatch_matches (r : regex) (s : string) :
  fullmatch r s = true ↔ matches r s.
Proof.
  revert r. induction s as [|c s IH]; intros r; simpl.
  - apply nullable_matches.
  - by rewrite IH, deriv_matches.
Qed.

Lemma matches_star_class (p : Ascii.ascii → bool) (s : string) :
  matches (RStar (RClass p)) s ↔ all_chars p s = true.
Proof.
  split.
  - remember (RStar (RClass p)) as r eqn:Hr. intros H. revert Hr.
    induction H as [| | | | | |r0 s1 s2 H1 _ H2 IH2]; intros Hr; try discriminate.
    + done.
    + injection Hr as ->. inversion H1; subst. rewrite append_cons, append_empty_l.
      simpl. rewrite andb_true_iff. auto.
  - induction s as [|c s IH]; simpl; [constructor|].
    rewrite andb_true_iff. intros [Hc Hs].
    apply (matches_star_more (RClass p) (String c "") s); [by constructor|auto].
Qed.

Lemma matches_plus_class (p : Ascii.ascii → bool) (s : string) :
  matches (RPlus (RClass p)) s ↔ s ≠ "" ∧ all_chars p s = true.
Proof.
  unfold RPlus. split.
  - inversion 1 as [| |? ? s1 s2 H1 H2| | | |]; subst.
    inversion H1; subst. rewrite append_cons, append_empty_l.
    apply matches_star_class in H2. simpl. rewrite andb_true_iff. done.
  - intros [Hne Hall]. destruct s as [|c s]; [done|]. simpl in Hall.
    apply andb_true_iff in Hall as [Hc Hs].
    apply (matches_seq (RClass p) _ (String c "") s); [by constructor|].
    by apply matches_star_class.
Qed.

Lemma matches_char_seq (c : Ascii.ascii) (r : regex) (s : string) :
  matches (RSeq (RChar c) r) s ↔ ∃ s', s = String c s' ∧ matches r s'.
Proof.
  unfold RChar. split.
  - inversion 1 as [| |? ? s1 s2 H1 H2| | | |]; subst.
    inversion H1 as [|? c' Hc| | | | |]; subst.
    apply Ascii.eqb_eq in Hc as <-. by exists s2.
  - intros (s' & -> & H).
    apply (matches_seq _ r (String c "") s'); [|done].
    constructor. apply Ascii.eqb_refl.
Qed.

Lemma matches_EMAIL_REGEX (s : string) :
  matches EMAIL_REGEX s
  ↔ ∃ l m r, s = l +:+ "@" +:+ m +:+ "." +:+ r
             ∧ address_part l ∧ address_part m ∧ address_part r.
Proof.
  unfold EMAIL_REGEX, address_part. split.
  - inversion 1 as [| |? ? l s2 Hl H2| | | |]; subst.
    apply matches_char_seq in H2 as (s3 & -> & H3).
    inversion H3 as [| |? ? m s4 Hm H4| | | |]; subst.
    apply matches_char_seq in H4 as (r & -> & Hr).
    apply matches_plus_class in Hl, Hm, Hr. by exists l, m, r.
  - intros (l & m & r & -> & Hl & Hm & Hr).
    apply matches_plus_class in Hl, Hm, Hr.
    constructor; [done|]. apply matches_char_seq. eexists. split; [reflexivity|].
    constructor; [done|]. apply matches_char_seq. eexists. split; [reflexivity|].
    done.
Qed.

Lemma chomp_append (s s' : string) : chomp s = Some s' ↔ s = s' +:+ nl.
Proof.
  revert s'. induction s as [|c s IH]; intros s'.
  - simpl. split; [done|]. intros H. symmetry in H.
    apply append_eq_empty in H as [_ H]. discriminate.
  - cbn [chomp]. destruct s as [|c2 s].
    + destruct (Ascii.eqb c "010") eqn:Hc.
      * apply Ascii.eqb_eq in Hc as ->. split.
        -- by intros [= <-].
        -- destruct s' as [|x s']; [done|]. rewrite append_cons. intros [= _ H].
           symmetry in H. apply append_eq_empty in H as [_ H]. discriminate.
      * split; [done|]. destruct s' as [|x s'].
        -- rewrite append_empty_l. intros [= Hn]. apply Ascii.eqb_neq in Hc. done.
        -- rewrite append_cons. intros [= -> H].
           symmetry in H. apply append_eq_empty in H as [_ H]. discriminate.
    + destruct (chomp (String c2 s)) as [t|] eqn:Ht; simpl.
      * pose proof (proj1 (IH t) eq_refl) as Hs. split.
        -- intros [= <-]. by rewrite append_cons, <- Hs.
        -- destruct s' as [|x s'].
           ++ rewrite append_empty_l. discriminate.
           ++ rewrite append_cons. intros [= <- H]. apply IH in H.
              by injection H as ->.
      * split; [done|]. destruct s' as [|x s'].
        -- rewrite append_empty_l. discriminate.
        -- rewrite append_cons. intros [= <- H]. by apply IH in H.
Qed.

(** [EMAIL_REGEX.match] accepts exactly the strings [l@m.r], alone or
    followed by one newline, in which [l], [m] and [r] are not empty and hold
    no [@] and no whitespace; [m] and [r] may hold dots. *)
Theorem email_regex_match_iff (s : string) :
  email_regex_match s = true
  ↔ ∃ l m r : string,
      (s = l +:+ "@" +:+ m +:+ "." +:+ r
       ∨ s = (l +:+ "@" +:+ m +:+ "." +:+ r) +:+ nl)
      ∧ address_part l ∧ address_part m ∧ address_part r.
Proof.
  unfold email_regex_match. rewrite orb_true_iff, fullmatch_matches. split.
  - intros [H | H].
    + apply matches_EMAIL_REGEX in H as (l & m & r & -> & ?). exists l, m, r. auto.
    + destruct (chomp s) as [s'|] eqn:Hc; [|done].
      apply chomp_append in Hc as ->.
      apply fullmatch_matches, matches_EMAIL_REGEX in H as (l & m & r & -> & ?).
      exists l, m, r. auto.
  - intros (l & m & r & [-> | ->] & Hparts).
    + left. apply matches_EMAIL_REGEX. by exists l, m, r.
    + right. rewrite (proj2 (chomp_append _ _) eq_refl).
      apply fullmatch_matches, matches_EMAIL_REGEX. by exists l, m, r.
Qed.

(** ** The sanitizer *)

Lemma sub_tags_length (b : bool) (s : string) :
  String.length (sub_tags b s) ≤ String.length s.
Proof.
  revert b. induction s as [|c s IH]; intros b; [done|]. cbn [sub_tags].
  pose proof (IH true). pose proof (IH false).
  destruct b; [destruct (Ascii.eqb c ">"); simpl; lia|].
  destruct (_ && _); simpl; lia.
Qed.

Lemma has_gt_sub_tags (b : bool) (s : string) :
  has_gt (sub_tags b s) = true → has_gt s = true.
Proof.
  revert b. induction s as [|c s IH]; intros b; [done|]. cbn [sub_tags has_gt].
  destruct b.
  - destruct (Ascii.eqb c ">"); [done|]. simpl. apply IH.
  - destruct (_ && _).
    + intros H%IH. rewrite H. apply orb_true_r.
    + cbn [has_gt]. destruct (Ascii.eqb c ">"); [done|]. simpl. apply IH.
Qed.

(** What [re.sub] returns holds no match of the pattern any more. *)
Lemma sub_tags_idempotent (b : bool) (s : string) :
  sub_tags false (sub_tags b s) = sub_tags b s.
Proof.
  revert b. induction s as [|c s IH]; intros b; [done|]. cbn [sub_tags].
  destruct b.
  { destruct (Ascii.eqb c ">"); apply IH. }
  destruct (_ && _ && _) eqn:Hcond; [apply IH|].
  cbn [sub_tags]. rewrite IH.
  assert (Ascii.eqb c "<"
          && match sub_tags false s with
             | String c' _ => negb (Ascii.eqb c' ">")
             | EmptyString => false
             end
          && has_gt (sub_tags false s) = false) as ->; [|done].
  apply andb_false_iff in Hcond as [Hcond | Hcond].
  - apply andb_false_iff in Hcond as [-> | Hcond]; [done|].
    destruct s as [|c' s']; [by rewrite andb_false_r|].
    apply negb_false_iff in Hcond. cbn [sub_tags].
    apply Ascii.eqb_eq in Hcond as ->.
    replace (Ascii.eqb ">" "<") with false by reflexivity. cbn [andb].
    rewrite Ascii.eqb_refl. by rewrite andb_false_r.
  - destruct (has_gt (sub_tags false s)) eqn:Hgt; [|by rewrite andb_false_r].
    apply has_gt_sub_tags in Hgt. congruence.
Qed.

Lemma lstrip_idempotent (s : string) : lstrip (lstrip s) = lstrip s.
Proof.
  induction s as [|c s IH]; [done|]. simpl.
  destruct (is_space c) eqn:Hc; [done|]. simpl. by rewrite Hc.
Qed.

Lemma rstrip_idempotent (s : string) : rstrip (rstrip s) = rstrip s.
Proof.
  induction s as [|c s IH]; [done|]. cbn [rstrip].
  destruct (rstrip s) as [|c' s'] eqn:Hs.
  - destruct (is_space c) eqn:Hc; [done|]. simpl. by rewrite Hc.
  - cbn [rstrip]. cbn [rstrip] in IH. by rewrite IH.
Qed.

(** The first character of a string that does not start with whitespace
    survives [rstrip]. *)
Lemma lstrip_rstrip (s : string) : lstrip s = s → lstrip (rstrip s) = rstrip s.
Proof.
  destruct s as [|c s]; [done|]. simpl.
  destruct (is_space c) eqn:Hc.
  - intros H. apply (f_equal String.length) in H. simpl in H.
    assert (String.length (lstrip s) ≤ String.length s).
    { clear. induction s as [|x s IH]; [done|]. simpl.
      destruct (is_space x); simpl; lia. }
    lia.
  - intros _. destruct (rstrip s); simpl; by rewrite Hc.
Qed.

Lemma strip_idempotent (s : string) : strip (strip s) = strip s.
Proof.
  unfold strip.
  rewrite (lstrip_rstrip (lstrip s)) by apply lstrip_idempotent.
  apply rstrip_idempotent.
Qed.

Lemma has_gt_rstrip (s : string) : has_gt s = false → has_gt (rstrip s) = false.
Proof.
  induction s as [|c s IH]; [done|]. cbn [has_gt rstrip].
  intros [Hc Hs]%orb_false_iff. specialize (IH Hs).
  destruct (rstrip s) as [|c' s'].
  - destruct (is_space c); [done|]. simpl. by rewrite Hc.
  - cbn [has_gt] in *. by rewrite Hc.
Qed.

(** A string without a match keeps none when whitespace is trimmed off. *)
Lemma sub_tags_lstrip (s : string) :
  sub_tags false s = s → sub_tags false (lstrip s) = lstrip s.
Proof.
  induction s as [|c s IH]; [done|]. cbn [lstrip].
  destruct (is_space c) eqn:Hc; [|done].
  cbn [sub_tags]. destruct (Ascii.eqb c "<") eqn:Hlt.
  { apply Ascii.eqb_eq in Hlt as ->. done. }
  cbn [andb]. intros [= H]. by apply IH.
Qed.

Lemma sub_tags_keeps_inv (c : Ascii.ascii) (s : string) :
  sub_tags false (String c s) = String c s →
  sub_tags false s = s
  ∧ (Ascii.eqb c "<" = true →
     match s with
     | String c' _ => negb (Ascii.eqb c' ">")
     | EmptyString => false
     end && has_gt s = false).
Proof.
  cbn [sub_tags]. destruct (_ && _ && _) eqn:Hcond.
  - intros H. apply (f_equal String.length) in H. simpl in H.
    pose proof (sub_tags_length true s). lia.
  - intros [= H]. split; [done|]. intros Hc. by rewrite Hc in Hcond.
Qed.

Lemma sub_tags_false_cons (c : Ascii.ascii) (s : string) :
  sub_tags false (String c s) =
    if Ascii.eqb c "<"
       && match s with
          | String c' _ => negb (Ascii.eqb c' ">")
          | EmptyString => false
          end
       && has_gt s
    then sub_tags true s else String c (sub_tags false s).
Proof. reflexivity. Qed.

Lemma sub_tags_rstrip (s : string) :
  sub_tags false s = s → sub_tags false (rstrip s) = rstrip s.
Proof.
  induction s as [|c s IH]; [done|].
  intros [Hs Hcond]%sub_tags_keeps_inv. specialize (IH Hs). cbn [rstrip].
  destruct (rstrip s) as [|c' s'] eqn:Hr.
  - destruct (is_space c); [done|]. cbn [sub_tags]. by rewrite andb_false_r.
  - rewrite sub_tags_false_cons, IH.
    destruct (Ascii.eqb c "<") eqn:Hc; [|done]. cbn [andb].
    specialize (Hcond eq_refl).
    destruct s as [|c2 s2]; [done|].
    assert (c' = c2) as ->.
    { cbn [rstrip] in Hr. destruct (rstrip s2); [|by injection Hr].
      destruct (is_space c2); [done|by injection Hr]. }
    apply andb_false_iff in Hcond as [Hcond | Hcond]; [by rewrite Hcond|].
    rewrite <- Hr, (has_gt_rstrip _ Hcond). by rewrite andb_false_r.
Qed.

(** Sanitizing what [sanitize] returned changes nothing: the result holds no
    tag and no surrounding whitespace any more. *)
Theorem sanitize_idempotent (s clean : string) :
  sanitize (PStr s) = Ret clean → sanitize (PStr clean) = Ret clean.
Proof.
  unfold sanitize. cbn [truthy]. rewrite !negb_involutive.
  assert (∀ t, strip (sub_tags false t) = t →
               (if String.eqb t "" then Ret "" else Ret (strip (sub_tags false t)))
               = Ret t :> result string) as Hfix.
  { intros t Ht. destruct (String.eqb t "") eqn:He; [|by rewrite Ht].
    apply String.eqb_eq in He. by subst. }
  assert (∀ t, strip (sub_tags false (strip (sub_tags false t)))
               = strip (sub_tags false t)) as Hidem.
  { intros t. unfold strip at 2.
    rewrite sub_tags_rstrip by apply sub_tags_lstrip, sub_tags_idempotent.
    apply strip_idempotent. }
  destruct (String.eqb s "") eqn:He.
  - intros [= <-]. done.
  - intros [= <-]. apply Hfix, Hidem.
Qed.

Lemma sanitize_idempotent_run :
  sanitize (PStr "  <p>Call <b>after</b> 5pm</p> ") = Ret "Call after 5pm"
  ∧ sanitize (PStr "Call after 5pm") = Ret "Call after 5pm".
Proof.
  split; [vm_compute; reflexivity|].
  apply (sanitize_idempotent "  <p>Call <b>after</b> 5pm</p> "). vm_compute. reflexivity.
Defined.

Lemma sub_tags_no_gt (s : string) : has_gt s = false → sub_tags false s = s.
Proof.
  induction s as [|c s IH]; [done|]. cbn [has_gt sub_tags].
  intros [_ Hs]%orb_false_iff. rewrite Hs, andb_false_r. by rewrite IH.
Qed.

(** The sanitizer removes closed tags only: from a text that holds no [>]
    nothing is removed but the surrounding whitespace, so a [<] that is never
    closed stays in what is forwarded. *)
Theorem sanitize_without_closing_bracket (s : string) :
  has_gt s = false → sanitize (PStr s) = Ret (strip s).
Proof.
  intros Hgt. unfold sanitize. cbn [truthy]. rewrite negb_involutive.
  destruct (String.eqb s "") eqn:He.
  - apply String.eqb_eq in He as ->. done.
  - by rewrite sub_tags_no_gt.
Qed.

Lemma sanitize_without_closing_bracket_run :
  sanitize (PStr " <script src=x ") = Ret "<script src=x".
Proof.
  apply (sanitize_without_closing_bracket " <script src=x "). reflexivity.
Defined.

(** ** The errors of the validation, field by field *)

Lemma required_errors_of_other (payload : gmap string pyval)
    (rf : list (string * string)) (acc : gmap string string) (field : string) :
  (field ∉ rf.*1 ∨ trimmed payload field ≠ "") →
  required_errors_of payload rf acc !! field = acc !! field.
Proof.
  revert acc. unfold required_errors_of.
  induction rf as [|[f m] rf IH]; intros acc H; [done|]. cbn [foldl].
  rewrite IH.
  - destruct (String.eqb (trimmed payload f) "") eqn:He; [|done].
    apply String.eqb_eq in He. apply lookup_insert_ne. intros ->.
    destruct H as [H | H]; [|done]. apply H. cbn. left.
  - destruct H as [H | H]; [left|by right]. intros Hin. apply H. cbn. by right.
Qed.

Lemma required_errors_of_blank (payload : gmap string pyval)
    (rf : list (string * string)) (acc : gmap string string)
    (field message : string) :
  NoDup rf.*1 → (field, message) ∈ rf → trimmed payload field = "" →
  required_errors_of payload rf acc !! field = Some message.
Proof.
  revert acc. unfold required_errors_of.
  induction rf as [|[f m] rf IH]; intros acc Hnd Hin Hblank.
  { by apply elem_of_nil in Hin. }
  cbn [fmap list_fmap fst] in Hnd. apply NoDup_cons in Hnd as [Hnotin Hnd].
  cbn [foldl]. apply elem_of_cons in Hin as [[= <- <-] | Hin].
  - rewrite Hblank. cbn [String.eqb].
    pose proof (required_errors_of_other payload rf (<[field:=message]> acc) field)
      as Hother.
    unfold required_errors_of in Hother. rewrite Hother by (by left).
    apply lookup_insert_eq.
  - by apply IH.
Qed.

Lemma required_errors_of_is_Some (payload : gmap string pyval)
    (rf : list (string * string)) (acc : gmap string string) (field : string) :
  is_Some (required_errors_of payload rf acc !! field) →
  is_Some (acc !! field) ∨ (field ∈ rf.*1 ∧ trimmed payload field = "").
Proof.
  intros H. destruct (decide (field ∈ rf.*1)) as [Hin|Hnotin].
  - destruct (decide (trimmed payload field = "")) as [Hb|Hnb]; [by right|].
    left. by rewrite required_errors_of_other in H by (by right).
  - left. by rewrite required_errors_of_other in H by (by left).
Qed.

(** On a payload whose fields are strings or absent, the validation block
    reports every blank required field under its own message, reports an
    email that is not blank and does not match the pattern, and reports
    nothing else; it reports nothing at all exactly when every required
    field is filled in and the email, if there is one, matches. *)
Theorem validate_errors_exactly (payload : gmap string pyval)
    (rf : list (string * string)) :
  NoDup rf.*1 →
  (∀ field, field ∈ "email" :: rf.*1 → text_or_absent payload field) →
  ∃ errs,
    validate payload rf = Ret errs
    ∧ (∀ field message,
         (field, message) ∈ rf → trimmed payload field = "" →
         errs !! field = Some message)
    ∧ (trimmed payload "email" ≠ "" →
       email_regex_match (trimmed payload "email") = false →
       errs !! "email" = Some "Please enter a valid email address.")
    ∧ (∀ field, is_Some (errs !! field) →
         (field ∈ rf.*1 ∧ trimmed payload field = "")
         ∨ (field = "email" ∧ trimmed payload "email" ≠ ""
            ∧ email_regex_match (trimmed payload "email") = false))
    ∧ (errs = ∅
       ↔ (∀ field, field ∈ rf.*1 → trimmed payload field ≠ "")
         ∧ (trimmed payload "email" = ""
            ∨ email_regex_match (trimmed payload "email") = true)).
Proof.
  intros Hnd Htext. rewrite validate_text by done. cbv zeta.
  set (base := required_errors_of payload rf ∅).
  set (bad := negb (String.eqb (trimmed payload "email") "")
              && negb (email_regex_match (trimmed payload "email"))).
  assert (bad = true ↔ trimmed payload "email" ≠ ""
                       ∧ email_regex_match (trimmed payload "email") = false)
    as Hbad.
  { unfold bad. rewrite andb_true_iff, !negb_true_iff, String.eqb_neq. done. }
  eexists. split; [reflexivity|].
  assert (∀ field message, (field, message) ∈ rf → trimmed payload field = "" →
          base !! field = Some message) as Hblank.
  { intros. by apply required_errors_of_blank. }
  assert (∀ field, is_Some (base !! field) →
          field ∈ rf.*1 ∧ trimmed payload field = "") as Hbase.
  { intros field H. apply required_errors_of_is_Some in H as [H | H]; [|done].
    rewrite lookup_empty in H. by destruct H. }
  split; [|split; [|split]].
  - intros field message Hin Hb. destruct bad; [|by apply Hblank].
    destruct (proj1 Hbad eq_refl) as [Hne _].
    rewrite lookup_insert_ne; [by apply Hblank|]. intros <-. done.
  - intros Hne Hm. rewrite (proj2 Hbad) by done. apply lookup_insert_eq.
  - intros field H. destruct bad; [|left; by apply Hbase].
    destruct (decide (field = "email")) as [->|Hne].
    { right. split; [done|]. by apply Hbad. }
    rewrite lookup_insert_ne in H by done. left. by apply Hbase.
  - split.
    + intros Hempty. destruct bad.
      { exfalso. apply (f_equal (λ m : gmap string string, m !! "email")) in Hempty.
        by rewrite lookup_insert_eq, lookup_empty in Hempty. }
      split.
      * intros field Hin Hb. apply list_elem_of_fmap in Hin as [[f m] [-> Hin]].
        specialize (Hblank f m Hin Hb). by rewrite Hempty, lookup_empty in Hblank.
      * destruct (decide (trimmed payload "email" = "")) as [|Hne]; [by left|].
        right. destruct (email_regex_match _) eqn:Hm; [done|].
        exfalso. assert (false = true) by (by apply Hbad). done.
    + intros [Hfilled Hmail]. destruct bad.
      { exfalso. destruct (proj1 Hbad eq_refl) as [? ?].
        destruct Hmail; congruence. }
      apply map_empty. intros field. apply eq_None_not_Some. intros H.
      apply Hbase in H as [Hin Hb]. by apply (Hfilled field).
Qed.

(** A care request without a phone number and with a malformed email: two
    errors. *)
Lemma validate_errors_exactly_run :
  ∃ errs,
    validate (<["email" := PStr "jane@example"]> (delete "phone" jane_payload))
      care_required_fields = Ret errs
    ∧ errs !! "phone" = Some "Phone number is required."
    ∧ errs !! "email" = Some "Please enter a valid email address."
    ∧ errs ≠ ∅.
Proof.
  destruct (validate_errors_exactly
              (<["email" := PStr "jane@example"]> (delete "phone" jane_payload))
              care_required_fields) as (errs & Hv & Hblank & Hmail & _ & Hempty).
  - apply (bool_decide_unpack _). by vm_compute.
  - intros field Hf. cbn in Hf.
    repeat (apply elem_of_cons in Hf as [-> | Hf];
            [first [by left; vm_compute | right; eexists; vm_compute; reflexivity]|]).
    by apply elem_of_nil in Hf.
  - exists errs. split; [done|]. clear Hv. split; [|split].
    + apply Hblank; [cbn; repeat constructor|by vm_compute].
    + apply Hmail; by vm_compute.
    + intros He. apply Hempty in He as [_ [He | He]]; by vm_compute in He.
Defined.

(** ** The notifier, outcome by outcome *)

Lemma py_int_raise_inv (s : string) (e : exn) : py_int s = Raise e → e = ValueError.
Proof.
  unfold py_int.
  destruct (int_rstrip (int_lstrip s)) as [|c t]; [by intros [= <-]|].
  repeat case_match; by intros [= <-].
Qed.

(** [int] skips the blanks around a number, not the separators FS to US. *)
Lemma py_int_blanks :
  py_int (String " "%char (String "009"%char ("587" +:+ nl))) = Ret 587%Z
  ∧ py_int (String "031"%char "587") = Raise ValueError
  ∧ strip (String "031"%char "587") = "587".
Proof. repeat split. Qed.

Lemma send_email_run subject reply_to body (w : World) :
  send_email subject reply_to body w =
    match py_int (default "587" (environ w !! "MAIL_PORT")) with
    | Raise e => (Raise e, w)
    | Ret port =>
        if negb (mail_configured (environ w) port)
        then (Ret (false,
                   "Email configuration missing. Please set environment variables."),
              w)
        else
          let msg := mail_message_for (environ w) subject reply_to body in
          let call := smtp_call_for (environ w) port msg in
          match email_refuses w msg with
          | Some e => (Raise e, w)
          | None =>
              match smtp_session w call with
              | smtp_raised_before_sending =>
                  (Ret (false, "Unable to send email at this time."), w)
              | smtp_raised_after_sending =>
                  (Ret (false, "Unable to send email at this time."),
                   set_sent (sent w ++ [call]) w)
              | smtp_completed =>
                  (Ret (true, "Request sent successfully."),
                   set_sent (sent w ++ [call]) w)
              end
          end
    end.
Proof.
  unfold send_email. rewrite bind_run. unfold gets at 1. rewrite bind_run.
  unfold pure at 1.
  destruct (py_int _) as [port|e]; [|done]. cbv zeta.
  fold (mail_configured (environ w) port).
  destruct (negb (mail_configured (environ w) port)); [done|].
  fold (mail_message_for (environ w) subject reply_to body).
  rewrite bind_run. unfold gets at 1.
  destruct (email_refuses w _); [done|].
  fold (smtp_call_for (environ w) port
          (mail_message_for (environ w) subject reply_to body)).
  rewrite bind_run. unfold gets at 1.
  by destruct (smtp_session w _).
Qed.

(** [send_email] reports success only when the SMTP session has completed,
    and then it has handed over exactly one message: the message with the
    given subject and body, from [MAIL_USERNAME] to [DESTINATION_EMAIL].
    With an incomplete configuration, and when [int] or [EmailMessage]
    raises, nothing is sent and the world is as before. The answer that the
    mail could not be sent does not tell whether it was: the session raised
    before the message was handed over, or after it, while closing. *)
Theorem send_email_outcome subject reply_to body (w w' : World)
    (r : result (bool * string)) :
  send_email subject reply_to body w = (r, w') →
  let msg := mail_message_for (environ w) subject reply_to body in
  (∃ port,
     py_int (default "587" (environ w !! "MAIL_PORT")) = Ret port
     ∧ mail_configured (environ w) port = true
     ∧ email_refuses w msg = None
     ∧ let call := smtp_call_for (environ w) port msg in
       match smtp_session w call with
       | smtp_completed =>
           r = Ret (true, "Request sent successfully.")
           ∧ w' = set_sent (sent w ++ [call]) w
       | smtp_raised_after_sending =>
           r = Ret (false, "Unable to send email at this time.")
           ∧ w' = set_sent (sent w ++ [call]) w
       | smtp_raised_before_sending =>
           r = Ret (false, "Unable to send email at this time.") ∧ w' = w
       end)
  ∨ (w' = w
     ∧ (r = Ret (false,
                 "Email configuration missing. Please set environment variables.")
        ∨ (r = Raise ValueError
           ∧ py_int (default "587" (environ w !! "MAIL_PORT")) = Raise ValueError)
        ∨ ∃ e, r = Raise e ∧ email_refuses w msg = Some e)).
Proof.
  rewrite send_email_run.
  destruct (py_int _) as [port|e] eqn:Hport.
  2:{ intros [= <- <-]. right. split; [done|]. right. left.
      by rewrite (py_int_raise_inv _ _ Hport). }
  destruct (mail_configured (environ w) port) eqn:Hconf; cbn [negb].
  2:{ intros [= <- <-]. right. auto. }
  cbv zeta. destruct (email_refuses w _) as [e|] eqn:Hmsg.
  { intros [= <- <-]. right. split; [done|]. right. right. by exists e. }
  intros Hrun. left. exists port. split; [done|]. split; [done|]. split; [done|].
  cbv zeta. destruct (smtp_session w _); by injection Hrun as <- <-.
Qed.

Lemma send_email_outcome_run :
  ∃ call,
    send_email "Subject" (Some "jane@example.com") "Body" demo_world
    = (Ret (true, "Request sent successfully."), set_sent [call] demo_world)
    ∧ smtp_port call = 587%Z ∧ smtp_security call = smtp_starttls.
Proof.
  destruct (send_email "Subject" (Some "jane@example.com") "Body" demo_world)
    as [r w'] eqn:Hrun.
  destruct (send_email_outcome _ _ _ _ _ _ Hrun)
    as [(port & Hport & _ & _ & Hout) | (_ & Hfail)].
  - clear Hrun. injection Hport as <-. destruct Hout as [-> ->].
    eexists. split; [reflexivity|]. by vm_compute.
  - exfalso. assert (r = Ret (true, "Request sent successfully.")) as ->.
    { change r with (r, w').1. rewrite <- Hrun. by vm_compute. }
    clear Hrun. by destruct Hfail as [|[[? _]|[? [? _]]]].
Defined.

(** The transport of every message [send_email] hands over. The port is
    587 when [MAIL_PORT] is unset. When [MAIL_USE_SSL] is [true] in any
    letter case the session is an [SMTP_SSL] one, and [starttls] is not
    called whatever [MAIL_USE_TLS] says. Otherwise the session is a plain
    [SMTP] one, upgraded with [starttls] when [MAIL_USE_TLS] is unset or is
    [true] in any letter case, and left in clear text for any other value. *)
Theorem send_email_transport subject reply_to body (w w' : World)
    (r : result (bool * string)) (call : SmtpCall) :
  send_email subject reply_to body w = (r, w') →
  sent w' = sent w ++ [call] →
  let ssl := String.eqb (lower (default "false" (environ w !! "MAIL_USE_SSL"))) "true" in
  let tls := String.eqb (lower (default "true" (environ w !! "MAIL_USE_TLS"))) "true" in
  smtp_server call = default "" (environ w !! "MAIL_SERVER")
  ∧ (environ w !! "MAIL_PORT" = None → smtp_port call = 587%Z)
  ∧ (smtp_security call = smtp_ssl ↔ ssl = true)
  ∧ (smtp_security call = smtp_starttls ↔ ssl = false ∧ tls = true)
  ∧ (smtp_security call = smtp_plain ↔ ssl = false ∧ tls = false)
  ∧ (environ w !! "MAIL_USE_SSL" = None → environ w !! "MAIL_USE_TLS" = None →
     smtp_security call = smtp_starttls).
Proof.
  rewrite send_email_run. intros Hrun Hsent ssl tls.
  assert (∀ l : list SmtpCall, l ≠ l ++ [call]) as Hno.
  { intros l Hl. apply (f_equal length) in Hl. rewrite length_app in Hl.
    simpl in Hl. lia. }
  destruct (py_int _) as [port|e] eqn:Hport.
  2:{ injection Hrun as <- <-. by destruct (Hno (sent w)). }
  destruct (negb (mail_configured (environ w) port)).
  { injection Hrun as <- <-. by destruct (Hno (sent w)). }
  cbv zeta in Hrun. destruct (email_refuses w _).
  { injection Hrun as <- <-. by destruct (Hno (sent w)). }
  assert (call = smtp_call_for (environ w) port
                   (mail_message_for (environ w) subject reply_to body)) as ->.
  { destruct (smtp_session w _); injection Hrun as <- <-.
    - by destruct (Hno (sent w)).
    - cbn [sent set_sent] in Hsent. by apply app_inj_tail in Hsent as [_ <-].
    - cbn [sent set_sent] in Hsent. by apply app_inj_tail in Hsent as [_ <-]. }
  cbn [smtp_call_for smtp_server smtp_port smtp_security]. fold ssl tls.
  split; [done|]. split.
  { intros Hnone. rewrite Hnone in Hport. by injection Hport as <-. }
  assert (environ w !! "MAIL_USE_SSL" = None → ssl = false) as Hs.
  { intros Hn. unfold ssl. by rewrite Hn. }
  assert (environ w !! "MAIL_USE_TLS" = None → tls = true) as Ht.
  { intros Hn. unfold tls. by rewrite Hn. }
  destruct ssl, tls; repeat split; try done; try (by intros [? ?]);
    intros H1 H2; try (by specialize (Hs H1)); by specialize (Ht H2).
Qed.

(** [MAIL_USE_SSL] set to [True], [MAIL_USE_TLS] left unset: the message goes
    through an [SMTP_SSL] session on port 587, and not through [starttls]. *)
Lemma send_email_transport_run :
  ∃ call,
    sent (send_email "Subject" None "Body"
            (with_environ (<["MAIL_USE_SSL" := "True"]> (environ demo_world))
               demo_world)).2 = [call]
    ∧ smtp_security call = smtp_ssl ∧ smtp_port call = 587%Z.
Proof.
  destruct (send_email "Subject" None "Body"
              (with_environ (<["MAIL_USE_SSL" := "True"]> (environ demo_world))
                 demo_world)) as [r w'] eqn:Hrun.
  assert (∃ call, sent w' = [call]) as [call Hsent].
  { change w' with (r, w').2. rewrite <- Hrun. eexists. vm_compute. reflexivity. }
  destruct (send_email_transport _ _ _ _ _ _ call Hrun Hsent)
    as (_ & Hport & Hssl & _).
  clear Hrun. exists call. cbn [snd]. split; [done|]. split.
  - apply Hssl. by vm_compute.
  - apply Hport. by vm_compute.
Defined.


(** ** Success and the mail that was sent *)

Lemma bind_pure_run {A B} (r : result A) (f : A → M B) (w : World) :
  (pure r ≫= f) w = match r with Ret a => f a w | Raise e => (Raise e, w) end.
Proof. by destruct r. Qed.

Lemma send_email_sends_on_success subject reply_to body (w w' : World)
    (r : result (bool * string)) :
  send_email subject reply_to body w = (r, w') →
  (∃ note call, r = Ret (true, note) ∧ w' = set_sent (sent w ++ [call]) w)
  ∨ (∃ note, r = Ret (false, note)
             ∧ (w' = w ∨ ∃ call, w' = set_sent (sent w ++ [call]) w))
  ∨ (∃ e, r = Raise e ∧ w' = w).
Proof.
  rewrite send_email_run.
  destruct (py_int _) as [port|e]; [|intros [= <- <-]; right; right; by exists e].
  destruct (negb (mail_configured (environ w) port)).
  { intros [= <- <-]. right. left. eexists. split; [done|]. by left. }
  cbv zeta. destruct (email_refuses w _) as [e|].
  { intros [= <- <-]. right. right. by exists e. }
  destruct (smtp_session w _); intros [= <- <-].
  - right. left. eexists. split; [done|]. by left.
  - right. left. eexists. split; [done|]. right. by eexists.
  - left. by eexists _, _.
Qed.

Lemma send_care_request_email_sends : sends_on_success send_care_request_email.
Proof.
  intros p w r w'. unfold send_care_request_email.
  rewrite bind_run. unfold gets at 1.
  repeat (rewrite bind_pure_run;
          match goal with
          | |- context [getitem p ?k] =>
              destruct (getitem p k) as [?|e];
              [|intros [= <- <-]; right; right; by exists e]
          end).
  apply send_email_sends_on_success.
Qed.

Lemma send_appointment_email_sends : sends_on_success send_appointment_email.
Proof.
  intros p w r w'. unfold send_appointment_email.
  rewrite bind_run. unfold gets at 1.
  repeat (rewrite bind_pure_run;
          match goal with
          | |- context [getitem p ?k] =>
              destruct (getitem p k) as [?|e];
              [|intros [= <- <-]; right; right; by exists e]
          end).
  apply send_email_sends_on_success.
Qed.

Lemma notifier_of_sends (ep : Endpoint) : sends_on_success (notifier_of ep).
Proof.
  unfold notifier_of. destruct (bool_decide _);
    [apply send_care_request_email_sends|apply send_appointment_email_sends].
Qed.

Lemma submission_view_success hp rf fw send (req : Request) (w w' : World)
    (r : result Response) :
  sends_on_success send →
  submission_view hp rf fw send req w = (r, w') →
  match r with
  | Ret (Jsonify body status) =>
      (success body = true ↔ status = 200)
      ∧ status ∈ [200; 400; 429; 500]
      ∧ (success body = true → ∃ call, sent w' = sent w ++ [call])
      ∧ (status = 400 ∨ status = 429 → sent w' = sent w)
      ∧ (status = 500 → sent w' = sent w ∨ ∃ call, sent w' = sent w ++ [call])
      ∧ (is_Some (errors body) → status = 400 ∧ success body = false)
  | Ret _ => False
  | Raise _ => sent w' = sent w
  end.
Proof.
  intros Hsend. rewrite submission_view_run, !reject_run.
  assert (∀ msg w0, sent w0 = sent w →
    match Ret (rejection msg 400 w0) with
    | Ret (Jsonify body status) =>
        (success body = true ↔ status = 200)
        ∧ status ∈ [200; 400; 429; 500]
        ∧ (success body = true → ∃ call, sent (after_issue w0) = sent w ++ [call])
        ∧ (status = 400 ∨ status = 429 → sent (after_issue w0) = sent w)
        ∧ (status = 500 →
           sent (after_issue w0) = sent w
           ∨ ∃ call, sent (after_issue w0) = sent w ++ [call])
        ∧ (is_Some (errors body) → status = 400 ∧ success body = false)
    | Ret _ => False
    | Raise _ => sent (after_issue w0) = sent w
    end) as Hrej.
  { intros msg w0 Hs. cbn. split; [done|]. split; [repeat constructor|].
    split; [done|]. split; [done|]. split; [done|]. by intros [? ?]. }
  destruct (negb (is_json req)); [intros [= <- <-]; by apply Hrej|].
  destruct (payload_of req) as [payload|e]; [|by intros [= <- <-]].
  destruct (truthy (dict_get payload hp PNone)); [intros [= <- <-]; by apply Hrej|].
  destruct (_ || _); [intros [= <- <-]; by apply Hrej|].
  destruct (sess_form_time (session w)) as [ft|]; [|intros [= <- <-]; by apply Hrej].
  destruct (ft =? 0)%Z; [intros [= <- <-]; by apply Hrej|].
  destruct (Qlt_le_dec _ _); [intros [= <- <-]; by apply Hrej|].
  rewrite validate_and_forward_run.
  destruct (validate payload rf) as [errs|e]; [|by intros [= <- <-]].
  destruct (negb _).
  { intros [= <- <-]. cbn. split; [done|]. split; [repeat constructor|].
    split; [done|]. split; [done|]. split; [done|]. done. }
  destruct (sanitize_fields payload fw ∅) as [safe|e]; [|by intros [= <- <-]].
  destruct (send safe (tick w)) as [r0 w1] eqn:Hrun.
  destruct (Hsend _ _ _ _ Hrun)
    as [(note & call & -> & ->) | [(note & -> & Hw1) | (e & -> & ->)]].
  - intros [= <- <-]. cbn. split; [done|]. split; [repeat constructor|].
    split; [by exists call|]. split; [by intros [|]|]. split; [done|].
    by intros [? ?].
  - intros [= <- <-]. cbn. split; [done|]. split; [repeat constructor|].
    split; [done|]. split; [by intros [|]|]. split.
    + intros _. destruct Hw1 as [-> | [call ->]]; [by left|right; by exists call].
    + by intros [? ?].
  - by intros [= <- <-].
Qed.

(** A submission is answered with [success] exactly when the status is 200,
    and then one message, and only one, has been handed to SMTP. Every
    rejection (400, 429) and every exception leaves the list of sent
    messages as it was. The answer 500 of a notifier that failed comes with
    no message sent, or with one: the session can fail after the message
    has been handed over. The status is one of 200, 400, 429 and 500, and
    field errors come with 400 only. *)
Theorem success_means_sent (req : Request) (w w' : World) (r : result Response) :
  submission_endpoint (endpoint req) → method req = POST →
  handle_request req w = (r, w') →
  match r with
  | Ret (Jsonify body status) =>
      (success body = true ↔ status = 200)
      ∧ status ∈ [200; 400; 429; 500]
      ∧ (success body = true → ∃ call, sent w' = sent w ++ [call])
      ∧ (status = 400 ∨ status = 429 → sent w' = sent w)
      ∧ (status = 500 → sent w' = sent w ∨ ∃ call, sent w' = sent w ++ [call])
      ∧ (is_Some (errors body) → status = 400 ∧ success body = false)
  | Ret _ => False
  | Raise _ => sent w' = sent w
  end.
Proof.
  intros Hep Hm. unfold handle_request. rewrite bind_run, apply_simple_rate_limit_run.
  rewrite Hm. rewrite (bool_decide_eq_false_2 (POST = OPTIONS)) by done.
  assert (method_allowed (endpoint req) POST = true) as ->
    by (by destruct Hep as [-> | ->]).
  rewrite view_function_submission by done.
  destruct (_ && _ && _); cbv zeta.
  - destruct (is_rate_limited_at _ _ _).1.
    + intros [= <- <-]. cbn. split; [done|]. split; [repeat constructor|].
      split; [done|]. split; [done|]. split; [done|]. by intros [? ?].
    + intros Hrun.
      apply submission_view_success in Hrun; [|apply notifier_of_sends]. done.
  - intros Hrun.
    apply submission_view_success in Hrun; [|apply notifier_of_sends]. done.
Qed.

(** The valid care request is answered 200 with one message sent; with a
    session that fails while it is closed, the same request is answered 500
    and the message has been sent all the same. *)
Lemma success_means_sent_run :
  (∃ call,
     sent (handle_request (post ep_request_care (Some "203.0.113.7") jane_payload)
             demo_world).2 = [call])
  ∧ let run := handle_request
                 (post ep_request_care (Some "203.0.113.7") jane_payload)
                 (closing_fails demo_world) in
    status_of run.1 = Some 500 ∧ length (sent run.2) = 1.
Proof.
  split.
  - destruct (handle_request (post ep_request_care (Some "203.0.113.7") jane_payload)
                demo_world) as [r w'] eqn:Hrun.
    assert (∃ body, r = Ret (Jsonify body 200) ∧ success body = true)
      as (body & -> & Hok).
    { change r with (r, w').1. rewrite <- Hrun. eexists. vm_compute.
      split; reflexivity. }
    pose proof (success_means_sent
                  (post ep_request_care (Some "203.0.113.7") jane_payload)
                  demo_world w' (Ret (Jsonify body 200)) (or_introl eq_refl) eq_refl
                  Hrun) as H.
    clear Hrun. cbn beta iota in H. destruct H as (_ & _ & Hsent & _).
    exact (Hsent Hok).
  - vm_compute. done.
Defined.

(** ** From the request to the mail *)

Lemma sanitize_cleaned (payload : gmap string pyval) (field clean : string) :
  sanitize (dict_get payload field (PStr "")) = Ret clean →
  sanitize (dict_get payload field (PStr "")) = Ret (cleaned payload field).
Proof. intros H. unfold cleaned. by rewrite H. Qed.

(** The sanitized payload of a care request whose fields all sanitize. *)
Lemma sanitize_fields_care (payload : gmap string pyval) :
  (∀ field, field ∈ forwarded_fields_of ep_request_care →
            ∃ clean, sanitize (dict_get payload field (PStr "")) = Ret clean) →
  ∃ safe,
    sanitize_fields payload (forwarded_fields_of ep_request_care) ∅ = Ret safe
    ∧ ∀ field, field ∈ forwarded_fields_of ep_request_care →
               safe !! field = Some (cleaned payload field).
Proof.
  intros Hall.
  assert (∀ field, field ∈ forwarded_fields_of ep_request_care →
          sanitize (dict_get payload field (PStr "")) = Ret (cleaned payload field))
    as Hc.
  { intros field Hf. destruct (Hall field Hf) as [clean H].
    by eapply sanitize_cleaned. }
  change (forwarded_fields_of ep_request_care)
    with ["full_name"; "phone"; "email"; "address"; "start_date"; "care_type"; "notes"]
    in *.
  eexists. split.
  - cbn [sanitize_fields].
    rewrite !Hc by (repeat constructor). cbn [mbind result_bind]. reflexivity.
  - intros field Hf.
    repeat (apply elem_of_cons in Hf as [-> | Hf]; [by simplify_map_eq|]).
    by apply elem_of_nil in Hf.
Qed.

Lemma send_care_request_email_run (safe : gmap string string) (value : string → string)
    (w : World) :
  (∀ field, field ∈ forwarded_fields_of ep_request_care →
            safe !! field = Some (value field)) →
  send_care_request_email safe w
  = send_email ("New Care Request from " +:+ value "full_name")
      (Some (value "email")) (care_request_body (utcnow_isoformat w) value) w.
Proof.
  intros Hsafe.
  change (forwarded_fields_of ep_request_care)
    with ["full_name"; "phone"; "email"; "address"; "start_date"; "care_type"; "notes"]
    in *.
  unfold send_care_request_email. rewrite bind_run. unfold gets at 1.
  unfold getitem. rewrite !Hsafe by (repeat constructor).
  by rewrite !bind_pure_run.
Qed.

(** End to end. A care request that gets past the hook, with an empty
    honeypot, the stored token, at least 3 seconds after the token was
    issued, with no validation error and fields that all sanitize, under a
    complete mail configuration, is forwarded: the message is built, its
    subject, its reply address and its text from the sanitized fields, not
    from the fields as they were sent. The answer is then the one of the
    libraries. When [EmailMessage] takes the message and the SMTP session
    completes, the answer is 200 with [success] and a new token, and
    exactly this one message is handed to SMTP. When the session raises,
    the answer is 500 with a new token, and the message has been handed
    over if the session raised only while closing. When [EmailMessage]
    raises, the exception leaves the view: nothing is sent and no token is
    issued. *)
Theorem care_request_forwarded (req : Request) (w w1 : World)
    (payload : gmap string pyval) (ft port : Z) :
  endpoint req = ep_request_care → method req = POST →
  apply_simple_rate_limit req w = (Ret None, w1) →
  is_json req = true →
  payload_of req = Ret payload →
  truthy (dict_get payload "service_interest" PNone) = false →
  truthy (dict_get payload "csrf_token" PNone) = true →
  token_equal (dict_get payload "csrf_token" PNone) (sess_csrf_token (session w1))
    = true →
  sess_form_time (session w1) = Some ft → ft ≠ 0%Z →
  (3 <= time_now w1 - inject_Z ft)%Q →
  validate payload care_required_fields = Ret ∅ →
  (∀ field, field ∈ forwarded_fields_of ep_request_care →
            ∃ clean, sanitize (dict_get payload field (PStr "")) = Ret clean) →
  py_int (default "587" (environ w1 !! "MAIL_PORT")) = Ret port →
  mail_configured (environ w1) port = true →
  let msg := mail_message_for (environ w1)
               ("New Care Request from " +:+ cleaned payload "full_name")
               (Some (cleaned payload "email"))
               (care_request_body (utcnow_isoformat w1) (cleaned payload)) in
  let call := smtp_call_for (environ w1) port msg in
  handle_request req w
  = match email_refuses w1 msg with
    | Some e => (Raise e, tick w1)
    | None =>
        match smtp_session w1 call with
        | smtp_completed =>
            (Ret (Jsonify {| success := true;
                             message := "Request sent successfully.";
                             errors := None; csrf_token := next_token w1 |} 200),
             after_issue (set_sent (sent w1 ++ [call]) (tick w1)))
        | smtp_raised_after_sending =>
            (Ret (Jsonify {| success := false;
                             message := "Unable to send email at this time.";
                             errors := None; csrf_token := next_token w1 |} 500),
             after_issue (set_sent (sent w1 ++ [call]) (tick w1)))
        | smtp_raised_before_sending =>
            (Ret (Jsonify {| success := false;
                             message := "Unable to send email at this time.";
                             errors := None; csrf_token := next_token w1 |} 500),
             after_issue (tick w1))
        end
    end.
Proof.
  intros Hep Hm Hhook Hjson Hpay Hhp Htok Heq Hft Hnz Hslow Hval Hclean Hport Hconf
    msg call.
  rewrite handle_request_post, Hhook by (by (left + idtac)).
  rewrite Hep. rewrite bool_decide_eq_true_2 by done. unfold request_care.
  rewrite submission_view_run, Hjson, Hpay, Hhp, Htok, Heq, Hft. cbn [negb orb].
  rewrite (proj2 (Z.eqb_neq ft 0) Hnz).
  destruct (Qlt_le_dec _ _) as [Hlt|_].
  { exfalso. revert Hlt. by apply Qle_not_lt. }
  rewrite validate_and_forward_run, Hval.
  rewrite bool_decide_eq_true_2 by done. cbn [negb].
  destruct (sanitize_fields_care payload Hclean) as (safe & Hsafe & Hlook).
  change (forwarded_fields_of ep_request_care)
    with ["full_name"; "phone"; "email"; "address"; "start_date"; "care_type"; "notes"]
    in Hsafe.
  rewrite Hsafe.
  rewrite (send_care_request_email_run safe (cleaned payload)) by done.
  rewrite send_email_run.
  change (environ (tick w1)) with (environ w1).
  change (utcnow_isoformat (tick w1)) with (utcnow_isoformat w1).
  change (email_refuses (tick w1)) with (email_refuses w1).
  change (smtp_session (tick w1)) with (smtp_session w1).
  rewrite Hport, Hconf. cbn [negb]. cbv zeta. fold msg. fold call.
  destruct (email_refuses w1 msg); [done|]. by destruct (smtp_session w1 call).
Qed.

(** The valid care request of the specification, whose notes are
    [<b>hi</b>]: the mail says [hi]. *)
Lemma care_request_forwarded_run :
  ∃ call,
    sent (handle_request (post ep_request_care (Some "203.0.113.7") jane_payload)
            demo_world).2 = [call]
    ∧ msg_subject (smtp_message call) = "New Care Request from Jane Doe"
    ∧ msg_reply_to (smtp_message call) = Some "jane@example.com"
    ∧ msg_content (smtp_message call)
      = care_request_body "2025-01-01T00:00:00" (cleaned jane_payload)
    ∧ cleaned jane_payload "notes" = "hi".
Proof.
  eassert (handle_request (post ep_request_care (Some "203.0.113.7") jane_payload)
             demo_world = _) as Hrun.
  { apply (care_request_forwarded
             (post ep_request_care (Some "203.0.113.7") jane_payload) demo_world
             (set_request_log {[ "203.0.113.7" := [1010%Q] ]} (tick demo_world))
             jane_payload 1000%Z 587%Z).
    - reflexivity.
    - reflexivity.
    - vm_compute. reflexivity.
    - reflexivity.
    - vm_compute. reflexivity.
    - vm_compute. reflexivity.
    - vm_compute. reflexivity.
    - vm_compute. reflexivity.
    - reflexivity.
    - discriminate.
    - vm_compute. discriminate.
    - vm_compute. reflexivity.
    - intros field Hf. cbn in Hf.
      repeat (apply elem_of_cons in Hf as [-> | Hf];
              [eexists; vm_compute; reflexivity|]).
      by apply elem_of_nil in Hf.
    - vm_compute. reflexivity.
    - vm_compute. reflexivity. }
  rewrite Hrun. clear Hrun. eexists. split; [reflexivity|].
  vm_compute. repeat split.
Defined.

Lemma sanitize_fields_appointment (payload : gmap string pyval) :
  (∀ field, field ∈ forwarded_fields_of ep_submit_appointment →
            ∃ clean, sanitize (dict_get payload field (PStr "")) = Ret clean) →
  ∃ safe,
    sanitize_fields payload (forwarded_fields_of ep_submit_appointment) ∅ = Ret safe
    ∧ ∀ field, field ∈ forwarded_fields_of ep_submit_appointment →
               safe !! field = Some (cleaned payload field).
Proof.
  intros Hall.
  assert (∀ field, field ∈ forwarded_fields_of ep_submit_appointment →
          sanitize (dict_get payload field (PStr "")) = Ret (cleaned payload field))
    as Hc.
  { intros field Hf. destruct (Hall field Hf) as [clean H].
    by eapply sanitize_cleaned. }
  change (forwarded_fields_of ep_submit_appointment)
    with ["full_name"; "email"; "phone"; "preferred_date"; "preferred_time"; "reason"]
    in *.
  eexists. split.
  - cbn [sanitize_fields].
    rewrite !Hc by (repeat constructor). cbn [mbind result_bind]. reflexivity.
  - intros field Hf.
    repeat (apply elem_of_cons in Hf as [-> | Hf]; [by simplify_map_eq|]).
    by apply elem_of_nil in Hf.
Qed.

Lemma send_appointment_email_run (safe : gmap string string)
    (value : string → string) (w : World) :
  (∀ field, field ∈ forwarded_fields_of ep_submit_appointment →
            safe !! field = Some (value field)) →
  send_appointment_email safe w
  = send_email ("Appointment Request from " +:+ value "full_name")
      (Some (value "email")) (appointment_body (utcnow_isoformat w) value) w.
Proof.
  intros Hsafe.
  change (forwarded_fields_of ep_submit_appointment)
    with ["full_name"; "email"; "phone"; "preferred_date"; "preferred_time"; "reason"]
    in *.
  unfold send_appointment_email. rewrite bind_run. unfold gets at 1.
  unfold getitem. rewrite !Hsafe by (repeat constructor).
  by rewrite !bind_pure_run.
Qed.

(** End to end for an appointment request. The hook does not act on these
    requests, so nothing depends on the request log: a request with an empty
    honeypot, the stored token, at least 3 seconds after the token was
    issued, with no validation error and fields that all sanitize, under a
    complete mail configuration, is forwarded, the message being built from
    the sanitized fields. When [EmailMessage] takes the message and the
    SMTP session completes, the answer is 200 with [success] and a new
    token, and exactly this one message is handed to SMTP. When the session
    raises, the answer is 500 with a new token, and the message has been
    handed over if the session raised only while closing. When
    [EmailMessage] raises, the exception leaves the view: nothing is sent
    and no token is issued. *)
Theorem appointment_forwarded (req : Request) (w : World)
    (payload : gmap string pyval) (ft port : Z) :
  endpoint req = ep_submit_appointment → method req = POST →
  is_json req = true →
  payload_of req = Ret payload →
  truthy (dict_get payload "appointment_guard" PNone) = false →
  truthy (dict_get payload "csrf_token" PNone) = true →
  token_equal (dict_get payload "csrf_token" PNone) (sess_csrf_token (session w))
    = true →
  sess_form_time (session w) = Some ft → ft ≠ 0%Z →
  (3 <= time_now w - inject_Z ft)%Q →
  validate payload appointment_required_fields = Ret ∅ →
  (∀ field, field ∈ forwarded_fields_of ep_submit_appointment →
            ∃ clean, sanitize (dict_get payload field (PStr "")) = Ret clean) →
  py_int (default "587" (environ w !! "MAIL_PORT")) = Ret port →
  mail_configured (environ w) port = true →
  let msg := mail_message_for (environ w)
               ("Appointment Request from " +:+ cleaned payload "full_name")
               (Some (cleaned payload "email"))
               (appointment_body (utcnow_isoformat w) (cleaned payload)) in
  let call := smtp_call_for (environ w) port msg in
  handle_request req w
  = match email_refuses w msg with
    | Some e => (Raise e, tick w)
    | None =>
        match smtp_session w call with
        | smtp_completed =>
            (Ret (Jsonify {| success := true;
                             message := "Request sent successfully.";
                             errors := None; csrf_token := next_token w |} 200),
             after_issue (set_sent (sent w ++ [call]) (tick w)))
        | smtp_raised_after_sending =>
            (Ret (Jsonify {| success := false;
                             message := "Unable to send email at this time.";
                             errors := None; csrf_token := next_token w |} 500),
             after_issue (set_sent (sent w ++ [call]) (tick w)))
        | smtp_raised_before_sending =>
            (Ret (Jsonify {| success := false;
                             message := "Unable to send email at this time.";
                             errors := None; csrf_token := next_token w |} 500),
             after_issue (tick w))
        end
    end.
Proof.
  intros Hep Hm Hjson Hpay Hhp Htok Heq Hft Hnz Hslow Hval Hclean Hport Hconf
    msg call.
  rewrite handle_request_post by (by (right + idtac)).
  rewrite hook_skips_other_endpoints by (left; by rewrite Hep).
  rewrite Hep. rewrite bool_decide_eq_false_2 by done. unfold submit_appointment.
  rewrite submission_view_run, Hjson, Hpay, Hhp, Htok, Heq, Hft. cbn [negb orb].
  rewrite (proj2 (Z.eqb_neq ft 0) Hnz).
  destruct (Qlt_le_dec _ _) as [Hlt|_].
  { exfalso. revert Hlt. by apply Qle_not_lt. }
  rewrite validate_and_forward_run, Hval.
  rewrite bool_decide_eq_true_2 by done. cbn [negb].
  destruct (sanitize_fields_appointment payload Hclean) as (safe & Hsafe & Hlook).
  change (forwarded_fields_of ep_submit_appointment)
    with ["full_name"; "email"; "phone"; "preferred_date"; "preferred_time"; "reason"]
    in Hsafe.
  rewrite Hsafe.
  rewrite (send_appointment_email_run safe (cleaned payload)) by done.
  rewrite send_email_run.
  change (environ (tick w)) with (environ w).
  change (utcnow_isoformat (tick w)) with (utcnow_isoformat w).
  change (email_refuses (tick w)) with (email_refuses w).
  change (smtp_session (tick w)) with (smtp_session w).
  rewrite Hport, Hconf. cbn [negb]. cbv zeta. fold msg. fold call.
  destruct (email_refuses w msg); [done|]. by destruct (smtp_session w call).
Qed.

Lemma appointment_forwarded_run :
  ∃ call,
    sent (handle_request
            (post ep_submit_appointment (Some "203.0.113.7") jane_appointment)
            demo_world).2 = [call]
    ∧ msg_subject (smtp_message call) = "Appointment Request from Jane Doe"
    ∧ msg_content (smtp_message call)
      = appointment_body "2025-01-01T00:00:00" (cleaned jane_appointment)
    ∧ or_na (cleaned jane_appointment "reason") = "N/A".
Proof.
  eassert (handle_request
             (post ep_submit_appointment (Some "203.0.113.7") jane_appointment)
             demo_world = _) as Hrun.
  { apply (appointment_forwarded
             (post ep_submit_appointment (Some "203.0.113.7") jane_appointment)
             demo_world jane_appointment 1000%Z 587%Z).
    - reflexivity.
    - reflexivity.
    - reflexivity.
    - vm_compute. reflexivity.
    - vm_compute. reflexivity.
    - vm_compute. reflexivity.
    - vm_compute. reflexivity.
    - reflexivity.
    - discriminate.
    - vm_compute. discriminate.
    - vm_compute. reflexivity.
    - intros field Hf. cbn in Hf.
      repeat (apply elem_of_cons in Hf as [-> | Hf];
              [eexists; vm_compute; reflexivity|]).
      by apply elem_of_nil in Hf.
    - vm_compute. reflexivity.
    - vm_compute. reflexivity. }
  rewrite Hrun. clear Hrun. eexists. split; [reflexivity|].
  vm_compute. repeat split.
Defined.

(** ** The optional field *)

Lemma validate_ret_text (payload : gmap string pyval)
    (rf : list (string * string)) (errs : gmap string string) (field : string) :
  validate payload rf = Ret errs → field ∈ "email" :: rf.*1 →
  text_or_absent payload field.
Proof.
  unfold validate. intros Hv Hf.
  destruct (required_errors payload rf ∅) as [errs0|e] eqn:Hreq; [|done].
  cbn [mbind result_bind] in Hv.
  destruct (strip_value (dict_get payload "email" (PStr ""))) as [s|e] eqn:Hs;
    [|done].
  apply elem_of_cons in Hf as [-> | Hf].
  - by eapply strip_value_ret_inv.
  - by eapply required_errors_ret_inv.
Qed.

Lemma sanitize_text (payload : gmap string pyval) (field : string) :
  text_or_absent payload field →
  ∃ clean, sanitize (dict_get payload field (PStr "")) = Ret clean.
Proof.
  unfold dict_get, sanitize. intros [-> | [s ->]]; cbn [default from_option id truthy];
    destruct (negb _); eauto.
Qed.

Lemma sanitize_type_error (v : pyval) :
  truthy v = true → (∀ s, v ≠ PStr s) → sanitize v = Raise TypeError.
Proof.
  intros Ht Hv. unfold sanitize. rewrite Ht. cbn [negb].
  destruct v; try done. by destruct (Hv s).
Qed.

(** A submission that passed every check, validation included, still ends in
    an uncaught [TypeError] when its optional free-text field ([notes],
    [reason]) holds a value that is not a string and is not falsy, such as a
    number other than zero or a non-empty list: [sanitize] hands it to
    [re.sub]. Nothing is sent and no token is issued. *)
Theorem optional_field_type_error (req : Request) (w w1 : World)
    (payload : gmap string pyval) (ft : Z) (v : pyval) :
  submission_endpoint (endpoint req) → method req = POST →
  apply_simple_rate_limit req w = (Ret None, w1) →
  is_json req = true →
  payload_of req = Ret payload →
  truthy (dict_get payload (honeypot_field (endpoint req)) PNone) = false →
  truthy (dict_get payload "csrf_token" PNone) = true →
  token_equal (dict_get payload "csrf_token" PNone) (sess_csrf_token (session w1))
    = true →
  sess_form_time (session w1) = Some ft → ft ≠ 0%Z →
  (3 <= time_now w1 - inject_Z ft)%Q →
  validate payload (required_fields_of (endpoint req)) = Ret ∅ →
  payload !! optional_field (endpoint req) = Some v →
  truthy v = true → (∀ s, v ≠ PStr s) →
  handle_request req w = (Raise TypeError, tick w1).
Proof.
  intros Hep Hm Hhook Hjson Hpay Hhp Htok Heq Hft Hnz Hslow Hval Hopt Htruthy Hv.
  unfold handle_request. rewrite bind_run, Hhook, Hm.
  rewrite (bool_decide_eq_false_2 (POST = OPTIONS)) by done.
  assert (method_allowed (endpoint req) POST = true) as ->
    by (by destruct Hep as [-> | ->]).
  rewrite view_function_submission by done.
  rewrite submission_view_run, Hjson, Hpay, Hhp, Htok, Heq, Hft. cbn [negb orb].
  rewrite (proj2 (Z.eqb_neq ft 0) Hnz).
  destruct (Qlt_le_dec _ _) as [Hlt|_].
  { exfalso. revert Hlt. by apply Qle_not_lt. }
  rewrite validate_and_forward_run, Hval.
  rewrite bool_decide_eq_true_2 by done. cbn [negb].
  assert (∀ field, field ∈ "email" :: (required_fields_of (endpoint req)).*1 →
          ∃ clean, sanitize (dict_get payload field (PStr "")) = Ret clean) as Hreq.
  { intros field Hf. eapply sanitize_text, validate_ret_text; done. }
  assert (sanitize (dict_get payload (optional_field (endpoint req)) (PStr ""))
          = Raise TypeError) as Hraise.
  { unfold dict_get. rewrite Hopt. by apply sanitize_type_error. }
  assert (sanitize_fields payload (forwarded_fields_of (endpoint req)) ∅
          = Raise TypeError) as ->; [|done].
  destruct Hep as [Hep | Hep]; rewrite Hep in *.
  - change (optional_field _) with "notes" in Hraise.
    change (forwarded_fields_of ep_request_care)
      with ["full_name"; "phone"; "email"; "address"; "start_date"; "care_type";
            "notes"].
    cbn [sanitize_fields].
    destruct (Hreq "full_name") as [c1 ->]; [vm_compute; repeat constructor|].
    destruct (Hreq "phone") as [c2 ->]; [vm_compute; repeat constructor|].
    destruct (Hreq "email") as [c3 ->]; [vm_compute; repeat constructor|].
    destruct (Hreq "address") as [c4 ->]; [vm_compute; repeat constructor|].
    destruct (Hreq "start_date") as [c5 ->]; [vm_compute; repeat constructor|].
    destruct (Hreq "care_type") as [c6 ->]; [vm_compute; repeat constructor|].
    cbn [mbind result_bind]. by rewrite Hraise.
  - change (optional_field _) with "reason" in Hraise.
    change (forwarded_fields_of ep_submit_appointment)
      with ["full_name"; "email"; "phone"; "preferred_date"; "preferred_time";
            "reason"].
    cbn [sanitize_fields].
    destruct (Hreq "full_name") as [c1 ->]; [vm_compute; repeat constructor|].
    destruct (Hreq "email") as [c2 ->]; [vm_compute; repeat constructor|].
    destruct (Hreq "phone") as [c3 ->]; [vm_compute; repeat constructor|].
    destruct (Hreq "preferred_date") as [c4 ->]; [vm_compute; repeat constructor|].
    destruct (Hreq "preferred_time") as [c5 ->]; [vm_compute; repeat constructor|].
    cbn [mbind result_bind]. by rewrite Hraise.
Qed.

(** The care request of the specification with the notes [[1]]; with
    [null] for the notes it is forwarded. *)
Lemma optional_field_type_error_run :
  (handle_request
     (post ep_request_care (Some "203.0.113.7")
        (<["notes" := PList [PNum 1]]> jane_payload)) demo_world).1
  = Raise TypeError
  ∧ status_of
      (handle_request
         (post ep_request_care (Some "203.0.113.7")
            (<["notes" := PNone]> jane_payload)) demo_world).1 = Some 200.
Proof.
  split; [|by vm_compute].
  erewrite (optional_field_type_error
              (post ep_request_care (Some "203.0.113.7")
                 (<["notes" := PList [PNum 1]]> jane_payload))
              demo_world _ (<["notes" := PList [PNum 1]]> jane_payload) 1000%Z
              (PList [PNum 1])).
  - reflexivity.
  - by left.
  - reflexivity.
  - vm_compute. reflexivity.
  - reflexivity.
  - vm_compute. reflexivity.
  - vm_compute. reflexivity.
  - vm_compute. reflexivity.
  - vm_compute. reflexivity.
  - reflexivity.
  - discriminate.
  - vm_compute. discriminate.
  - vm_compute. reflexivity.
  - vm_compute. reflexivity.
  - reflexivity.
  - discriminate.
Defined.

(** ** The fill time *)

(** [int] of a timestamp that is not negative is its whole part. *)
Lemma py_int_of_float_bounds (x : Q) :
  (0 <= x)%Q →
  (inject_Z (py_int_of_float x) <= x)%Q
  ∧ (x < inject_Z (py_int_of_float x) + 1)%Q.
Proof.
  destruct x as [n d]. unfold py_int_of_float, Qle, Qlt. cbn.
  intros Hn. rewrite Z.mul_1_r in Hn.
  rewrite Z.quot_div_nonneg by lia.
  pose proof (Z.mul_div_le n (Z.pos d) ltac:(lia)).
  pose proof (Z.mul_succ_div_gt n (Z.pos d) ltac:(lia)).
  split; nia.
Qed.

(** The minimum fill time is counted from the whole second in which the
    token was issued. A submission checked 3 seconds or more after the
    issuance always passes the timing check, one checked 2 seconds or less
    after it never does; in between, the fraction of the second of issuance
    decides. (A token issued in the first second of the epoch never
    passes.) *)
Theorem fill_time_bounds (w0 w : World) :
  (0 <= time_now w0)%Q →
  let form_time := sess_form_time (session (after_issue w0)) in
  ((time_now w - time_now w0 <= 2)%Q → (too_quick form_time w).1 = Ret true)
  ∧ ((1 <= time_now w0)%Q → (3 <= time_now w - time_now w0)%Q →
     (too_quick form_time w).1 = Ret false)
  ∧ ((time_now w0 < 1)%Q → (too_quick form_time w).1 = Ret true).
Proof.
  intros Hpos form_time. unfold form_time.
  cbn [after_issue set_session session sess_form_time].
  destruct (py_int_of_float_bounds (time_now w0) Hpos) as [Hlo Hhi].
  rewrite too_quick_run.
  set (ft := py_int_of_float (time_now w0)) in *.
  split; [|split].
  - intros Hnear. destruct (ft =? 0)%Z; [done|]. cbn [fst].
    destruct (Qlt_le_dec _ _) as [_|Hge]; [done|]. exfalso. lra.
  - intros Hone Hfar.
    assert (ft ≠ 0%Z) as Hnz.
    { intros Hz. rewrite Hz in Hhi. change (inject_Z 0) with 0%Q in Hhi. lra. }
    rewrite (proj2 (Z.eqb_neq ft 0) Hnz). cbn [fst].
    destruct (Qlt_le_dec _ _) as [Hlt|_]; [|done]. exfalso. lra.
  - intros Hearly.
    assert (ft = 0%Z) as ->; [|done].
    assert (inject_Z ft < 1)%Q as H1 by lra.
    assert (0 <= inject_Z ft + 1)%Q as H2 by lra.
    unfold Qlt, Qle in H1, H2. cbn in H1, H2.
    assert (-1 < ft)%Z; [|lia].
    assert (time_now w0 < inject_Z ft + 1)%Q as H3 by exact Hhi.
    assert (0 < inject_Z ft + 1)%Q as H4 by lra.
    unfold Qlt in H4. cbn in H4. lia.
Qed.

(** A token issued at second 1000.9: a submission checked at second 1003.0,
    2.1 seconds later, passes; one checked at second 1002.9 does not. *)
Lemma fill_time_bounds_run :
  let issue_at t := {| request_log := ∅;
                       session := {| sess_csrf_token := None; sess_form_time := None |};
                       clock := λ _, t; clock_reads := 0;
                       token_source := token_source demo_world; token_draws := 0;
                       environ := ∅; utcnow_isoformat := "";
                       email_refuses := λ _, None;
                       smtp_session := λ _, smtp_completed;
                       sent := [] |} in
  let form_time := sess_form_time (session (after_issue (issue_at (10009 # 10)%Q))) in
  (too_quick form_time (issue_at (10039 # 10)%Q)).1 = Ret false
  ∧ (too_quick form_time (issue_at 1003%Q)).1 = Ret false
  ∧ (too_quick form_time (issue_at (10029 # 10)%Q)).1 = Ret true.
Proof.
  intros issue_at form_time.
  split; [|by vm_compute].
  apply (fill_time_bounds (issue_at (10009 # 10)%Q) (issue_at (10039 # 10)%Q));
    vm_compute; discriminate.
Defined.

(** ** From the page to the submission *)

(** The token a page hands out is the one the next submission must bring.
    The three pages with a form answer with the token they store in the
    session; a submission that brings this token, with an empty honeypot,
    and that is checked 3 seconds or more after the page was served, gets
    past the token and the timing checks: its answer is that of the
    validation and the notifier. *)
Theorem page_token_reaches_validation (req : Request) (w0 w2 : World)
    (payload : gmap string pyval) :
  (index w0 = (Ret (RenderTemplate "index.html" (Some (next_token w0))),
               after_issue w0)
   ∧ contact w0 = (Ret (RenderTemplate "contact.html" (Some (next_token w0))),
                   after_issue w0)
   ∧ appointment w0 = (Ret (RenderTemplate "appointment.html"
                              (Some (next_token w0))), after_issue w0))
  ∧ (submission_endpoint (endpoint req) → method req = POST →
     apply_simple_rate_limit req (after_issue w0) = (Ret None, w2) →
     is_json req = true →
     payload_of req = Ret payload →
     truthy (dict_get payload (honeypot_field (endpoint req)) PNone) = false →
     dict_get payload "csrf_token" PNone = PStr (next_token w0) →
     next_token w0 ≠ "" →
     (1 <= time_now w0)%Q →
     (3 <= time_now w2 - time_now w0)%Q →
     handle_request req (after_issue w0)
     = validate_and_forward (required_fields_of (endpoint req))
         (forwarded_fields_of (endpoint req)) (notifier_of (endpoint req))
         payload (tick w2)).
Proof.
  split; [done|].
  intros Hep Hm Hhook Hjson Hpay Hhp Htok Hne Hone Hslow.
  pose proof (hook_keeps_session req _ _ Hhook) as Hsess.
  unfold handle_request. rewrite bind_run, Hhook, Hm.
  rewrite (bool_decide_eq_false_2 (POST = OPTIONS)) by done.
  assert (method_allowed (endpoint req) POST = true) as ->
    by (by destruct Hep as [-> | ->]).
  rewrite view_function_submission by done.
  rewrite submission_view_run, Hjson, Hpay, Hhp, Htok, Hsess. cbn [negb].
  cbn [after_issue set_session session sess_csrf_token sess_form_time truthy
       token_equal].
  rewrite String.eqb_refl. rewrite (proj2 (String.eqb_neq _ _) Hne). cbn [negb orb].
  assert (0 <= time_now w0)%Q as Hpos by lra.
  destruct (py_int_of_float_bounds (time_now w0) Hpos) as [Hlo Hhi].
  set (ft := py_int_of_float (time_now w0)) in *.
  assert (ft ≠ 0%Z) as Hnz.
  { intros Hz. rewrite Hz in Hhi. change (inject_Z 0) with 0%Q in Hhi. lra. }
  rewrite (proj2 (Z.eqb_neq ft 0) Hnz).
  destruct (Qlt_le_dec _ _) as [Hlt|_]; [|done]. exfalso. lra.
Qed.

(** The page is served at second 1010, with the token ["B"]; the care
    request of the specification brings it back five seconds later. *)
Lemma page_token_reaches_validation_run :
  let w0 := {| request_log := ∅;
               session := {| sess_csrf_token := None; sess_form_time := None |};
               clock := λ n, (1010 + 5 * inject_Z (Z.of_nat n))%Q; clock_reads := 0;
               token_source := token_source demo_world; token_draws := 1;
               environ := environ demo_world;
               utcnow_isoformat := utcnow_isoformat demo_world;
               email_refuses := email_refuses demo_world;
               smtp_session := smtp_session demo_world; sent := [] |} in
  let req := {| endpoint := ep_request_care; method := POST;
                x_forwarded_for := None; remote_addr := None; is_json := true;
                get_json := Ret (PDict (<["csrf_token" := PStr "B"]> jane_payload)) |} in
  (index w0).1 = Ret (RenderTemplate "index.html" (Some "B"))
  ∧ status_of (handle_request req (index w0).2).1 = Some 200.
Proof.
  intros w0 req.
  destruct (page_token_reaches_validation req w0 (after_issue w0)
              (<["csrf_token" := PStr "B"]> jane_payload)) as [(Hpage & _ & _) Hsub].
  split; [by rewrite Hpage|].
  rewrite Hpage. cbn [snd]. rewrite Hsub; clear Hpage Hsub.
  - vm_compute. reflexivity.
  - by left.
  - reflexivity.
  - vm_compute. reflexivity.
  - reflexivity.
  - vm_compute. reflexivity.
  - vm_compute. reflexivity.
  - vm_compute. reflexivity.
  - vm_compute. discriminate.
  - vm_compute. discriminate.
  - vm_compute. discriminate.
Defined.

(** ** Bodies that are not an object *)

(** A JSON body that is not an object. When it is falsy ([null], [false],
    zero, the empty text, the empty list), the view takes the empty payload
    in its place and answers with the token-mismatch rejection; when it is
    truthy (a list with elements, a text, a number), the first
    [payload.get] raises [AttributeError], which leaves the view uncaught:
    no token is issued and the world is as the view found it. *)
Theorem non_object_body (req : Request) (w : World) (v : pyval) :
  submission_endpoint (endpoint req) →
  is_json req = true →
  get_json req = Ret v →
  (∀ d, v ≠ PDict d) →
  view_function req w
  = if truthy v then (Raise AttributeError, w)
    else (Ret (rejection "Security token mismatch." 400 w), after_issue w).
Proof.
  intros Hep Hjson Hget Hv.
  rewrite view_function_submission by done.
  rewrite submission_view_run, Hjson. cbn [negb].
  unfold payload_of. rewrite Hget. cbn [mbind result_bind].
  destruct (truthy v) eqn:Ht.
  - destruct v; try done. by destruct (Hv d).
  - cbn [as_dict]. unfold dict_get. rewrite !lookup_empty.
    cbn [default from_option truthy negb orb]. by rewrite reject_run.
Qed.

Lemma non_object_body_run :
  let req v := {| endpoint := ep_request_care; method := POST;
                  x_forwarded_for := None; remote_addr := None; is_json := true;
                  get_json := Ret v |} in
  (view_function (req (PList [PStr "x"])) demo_world).1 = Raise AttributeError
  ∧ status_of (view_function (req PNone) demo_world).1 = Some 400.
Proof.
  intros req. split.
  - rewrite (non_object_body (req (PList [PStr "x"])) demo_world (PList [PStr "x"]));
      [reflexivity|by left|reflexivity|reflexivity|discriminate].
  - rewrite (non_object_body (req PNone) demo_world PNone);
      [reflexivity|by left|reflexivity|reflexivity|discriminate].
Defined.
